(** * doc-vqa-reviewer: the conversation editor and the JSONL round trip

    A shallow embedding of [app.py].  The program loads a line-delimited
    JSON dataset, rebuilds question/answer pairs from each record's flat
    turn list, lets a reviewer edit them through form widgets, writes the
    edited turns back into the record and offers the record and the whole
    dataset for download.

    Python values are modelled as follows.
    - [str] is a list of Unicode code points ([Z]); [bytes] is a list of
      octets ([Z]).
    - a [dict] is an association list in insertion order, as CPython keeps
      it; assignment to an existing key keeps its position.
    - a raised exception is a [None] / [inl] result; [st.error] calls are
      collected in a log.
    - the Streamlit widgets are an oracle supplied by the reviewer
      ([Reviewer]): a text input returns a string for a key and a default
      value.

    [app.py] leans on library functions: [json.dumps], [json.loads],
    [bytes.decode], [str.strip] and the iteration over the uploaded file.
    Each has a model here, written from its documented behaviour, so that
    the round trips can be computed and proved rather than assumed.  Two
    things are left out: floating-point numbers (the JSON model has
    integers only, and a number with a fraction or an exponent does not
    decode), and the image column of the page, which only displays. *)

From Stdlib Require Import List ZArith Bool Lia String Ascii Arith.
From Stdlib Require DecimalFacts DecimalPos DecimalN DecimalZ.
Import ListNotations.

Set Warnings "-notation-for-abbreviation".

Local Open Scope Z_scope.

(** ** Python strings *)

Notation char := Z (only parsing).
Notation str := (list Z) (only parsing).
Notation byte := Z (only parsing).
Notation bytes := (list Z) (only parsing).

(** A source literal, written as a Rocq string of ASCII characters. *)
Definition py (s : string) : str :=
  map (fun a => Z.of_nat (nat_of_ascii a)) (list_ascii_of_string s).

Fixpoint str_eqb (a b : str) : bool :=
  match a, b with
  | [], [] => true
  | x :: a', y :: b' => (x =? y) && str_eqb a' b'
  | _, _ => false
  end.

(** Truth value of a [str]: the empty string is falsy. *)
Definition str_truthy (s : str) : bool :=
  match s with [] => false | _ => true end.

(** [sep.join(parts)] *)
Fixpoint join (sep : str) (parts : list str) : str :=
  match parts with
  | [] => []
  | [p] => p
  | p :: rest => p ++ sep ++ join sep rest
  end.

(** ** [int.__repr__]: the decimal digits of an integer *)

Definition digit_char (d : Z) : char := 48 + d.

Fixpoint uint_chars (u : Decimal.uint) : str :=
  match u with
  | Decimal.Nil => []
  | Decimal.D0 u => digit_char 0 :: uint_chars u
  | Decimal.D1 u => digit_char 1 :: uint_chars u
  | Decimal.D2 u => digit_char 2 :: uint_chars u
  | Decimal.D3 u => digit_char 3 :: uint_chars u
  | Decimal.D4 u => digit_char 4 :: uint_chars u
  | Decimal.D5 u => digit_char 5 :: uint_chars u
  | Decimal.D6 u => digit_char 6 :: uint_chars u
  | Decimal.D7 u => digit_char 7 :: uint_chars u
  | Decimal.D8 u => digit_char 8 :: uint_chars u
  | Decimal.D9 u => digit_char 9 :: uint_chars u
  end.

Definition int_repr (z : Z) : str :=
  match Z.to_int z with
  | Decimal.Pos u => uint_chars u
  | Decimal.Neg u => 45 :: uint_chars u
  end.

(** ** Python dictionaries (insertion ordered) *)

Section PyDict.
Context {V : Type}.

Definition pydict := list (str * V).

(** [d.get(k)] *)
Fixpoint dict_get (k : str) (d : pydict) : option V :=
  match d with
  | [] => None
  | (k', v) :: rest => if str_eqb k k' then Some v else dict_get k rest
  end.

(** [d.get(k, default)] *)
Definition dict_get_default (k : str) (default : V) (d : pydict) : V :=
  match dict_get k d with Some v => v | None => default end.

(** [k in d] *)
Definition dict_in (k : str) (d : pydict) : bool :=
  match dict_get k d with Some _ => true | None => false end.

(** [d[k] = v]: an existing key keeps its place, a new key goes last. *)
Fixpoint dict_set (k : str) (v : V) (d : pydict) : pydict :=
  match d with
  | [] => [(k, v)]
  | (k', v') :: rest =>
      if str_eqb k k' then (k', v) :: rest else (k', v') :: dict_set k v rest
  end.

(** Truth value of a dict: the empty dict is falsy. *)
Definition dict_truthy (d : pydict) : bool :=
  match d with [] => false | _ => true end.
End PyDict.

Arguments pydict V : clear implicits.

(** ** Turns and the pair reconstruction (app.py, lines 33-45) *)

(** One conversation entry, the dict [{"from": ..., "value": ...}].  The
    scan never inspects a value, so it is kept generic in the value type. *)
Record Turn (V : Type) : Type := mkTurn { from : str; value : V }.

Arguments mkTurn {V} from value.
Arguments from {V} t.
Arguments value {V} t.

Definition human {V} (v : V) : Turn V := mkTurn (py "human") v.
Definition gpt {V} (v : V) : Turn V := mkTurn (py "gpt") v.

Section Reconstruct.
Context {V : Type}.

(** The loop state: [qa_pairs] and [current_pair]. *)
Definition scan_state : Type := list (pydict V) * pydict V.

(** One iteration of [for conv in conversations]. *)
Definition scan_step (st : scan_state) (conv : Turn V) : scan_state :=
  let '(qa_pairs, current_pair) := st in
  if str_eqb (from conv) (py "human") then
    let qa_pairs :=
      if dict_truthy current_pair then qa_pairs ++ [current_pair]
      else qa_pairs in
    (qa_pairs, [(py "question", value conv)])
  else if str_eqb (from conv) (py "gpt")
          && dict_in (py "question") current_pair then
    let current_pair := dict_set (py "answer") (value conv) current_pair in
    (qa_pairs ++ [current_pair], [])
  else (qa_pairs, current_pair).

Definition reconstruct_pairs (conversations : list (Turn V))
  : list (pydict V) :=
  let '(qa_pairs, current_pair) :=
    fold_left scan_step conversations ([], []) in
  if dict_truthy current_pair then qa_pairs ++ [current_pair]
  else qa_pairs.

(** *** The scan as the specification words it

    A two-state accumulator ([Empty] or [HasQuestion q]) consumed over the
    turn sequence; this definition follows the specification's text and is
    compared with [reconstruct_pairs] below. *)

Record QAPair : Type := mkPair { question : V; answer : option V }.

Inductive Accumulator : Type :=
| Empty
| HasQuestion (q : V).

Definition flush (acc : Accumulator) : list QAPair :=
  match acc with
  | Empty => []
  | HasQuestion q => [mkPair q None]
  end.

Fixpoint spec_scan (acc : Accumulator) (turns : list (Turn V))
  : list QAPair :=
  match turns with
  | [] => flush acc
  | t :: rest =>
      if str_eqb (from t) (py "human") then
        flush acc ++ spec_scan (HasQuestion (value t)) rest
      else if str_eqb (from t) (py "gpt") then
        match acc with
        | HasQuestion q => mkPair q (Some (value t)) :: spec_scan Empty rest
        | Empty => spec_scan Empty rest
        end
      else spec_scan acc rest
  end.

Definition spec_reconstruct (turns : list (Turn V)) : list QAPair :=
  spec_scan Empty turns.

(** The dict the program builds for a pair. *)
Definition dict_of_pair (p : QAPair) : pydict V :=
  match answer p with
  | None => [(py "question", question p)]
  | Some a => [(py "question", question p); (py "answer", a)]
  end.

Definition dict_of_acc (acc : Accumulator) : pydict V :=
  match acc with
  | Empty => []
  | HasQuestion q => [(py "question", q)]
  end.
End Reconstruct.

Arguments QAPair V : clear implicits.
Arguments Accumulator V : clear implicits.
Arguments scan_state V : clear implicits.

(** ** The editor form (app.py, lines 47-67) *)

(** What the reviewer does with the form.  [text_input key value] is the
    string returned by [st.text_input(label, value=value, key=key)] (the
    label is display only); [number_input] is the value of the
    "Number of new Q&A pairs to add" widget. *)
Record Reviewer : Type := mkReviewer {
  text_input : str -> str -> str;
  number_input : nat
}.

(** The f-string [f"{prefix}{i}"]. *)
Definition fkey (prefix : string) (i : nat) : str :=
  py prefix ++ int_repr (Z.of_nat i).

(** [list(enumerate(l, start))] *)
Definition enumerate {A} (l : list A) (start : nat) : list (nat * A) :=
  combine (seq start (List.length l)) l.

(** Body of [for i, pair in enumerate(qa_pairs, 1)]. *)
Definition edit_pair (ui : Reviewer) (ip : nat * pydict str)
  : list (Turn str) :=
  let '(i, pair_) := ip in
  let q_value :=
    text_input ui (fkey "q" i) (dict_get_default (py "question") [] pair_) in
  let a_value :=
    text_input ui (fkey "a" i) (dict_get_default (py "answer") [] pair_) in
  [human q_value; gpt a_value].

(** Body of [for i in range(num_new)]. *)
Definition new_pair (ui : Reviewer) (i : nat) : list (Turn str) :=
  let q_value := text_input ui (fkey "new_q" i) [] in
  let a_value := text_input ui (fkey "new_a" i) [] in
  if str_truthy q_value || str_truthy a_value then
    [human q_value; gpt a_value]
  else [].

Definition display_conversations (ui : Reviewer)
  (conversations : list (Turn str)) : list (Turn str) :=
  let qa_pairs := reconstruct_pairs conversations in
  let edited_pairs := flat_map (edit_pair ui) (enumerate qa_pairs 1) in
  let num_new := number_input ui in
  edited_pairs ++ flat_map (new_pair ui) (seq 0 num_new).

(** A reviewer described by the widgets they retyped: [edits] maps a widget
    key to the text typed there; every other text input keeps its initial
    value. *)
Definition reviewer_of (edits : pydict str) (num_new : nat) : Reviewer :=
  mkReviewer
    (fun key value =>
       match dict_get key edits with Some typed => typed | None => value end)
    num_new.

(** A reviewer who touches nothing: every text input keeps its initial
    value and the new-pair slots stay empty. *)
Definition untouched (num_new : nat) : Reviewer := reviewer_of [] num_new.

(** The new-pair slot [i] has text in at least one of its two fields. *)
Definition new_slot_filled (ui : Reviewer) (i : nat) : bool :=
  str_truthy (text_input ui (fkey "new_q" i) [])
  || str_truthy (text_input ui (fkey "new_a" i) []).

(** ** Vocabulary for the statements about the scan *)

Definition is_human {V} (t : Turn V) : bool := str_eqb (from t) (py "human").

Definition turn_map {U V} (f : U -> V) (t : Turn U) : Turn V :=
  mkTurn (from t) (f (value t)).

Definition dict_map {U V} (f : U -> V) (d : pydict U) : pydict V :=
  map (fun kv => (fst kv, f (snd kv))) d.

(** Each turn's value tagged with the turn's position in the sequence, so
    that the source turn of a question or an answer can be read off a pair. *)
Definition tag_turns {V} (turns : list (Turn V)) : list (Turn (nat * V)) :=
  map (fun it => mkTurn (from (snd it)) (fst it, value (snd it)))
      (enumerate turns 0).

(** A turn list made of complete pairs: human, gpt, human, gpt, ... *)
Fixpoint paired {V} (l : list (Turn V)) : bool :=
  match l with
  | [] => true
  | h :: g :: rest =>
      str_eqb (from h) (py "human") && str_eqb (from g) (py "gpt")
      && paired rest
  | _ => false
  end.

(** ** JSON values

    What [json.loads] returns and [json.dumps] accepts: [None], booleans,
    integers, strings, lists and dicts with string keys.  Floating-point
    numbers are left out of the model. *)
#[local] Unset Elimination Schemes.
Inductive json : Type :=
| JNull
| JBool (b : bool)
| JInt (z : Z)
| JStr (s : str)
| JArr (items : list json)
| JObj (members : list (str * json)).
#[local] Set Elimination Schemes.

(** ** [json.dumps(obj, ensure_ascii=False)] *)

(** Lower-case hexadecimal digit, as in ['\\u{0:04x}'.format(i)]. *)
Definition hex_digit (n : Z) : char := if n <? 10 then 48 + n else 87 + n.

(** The replacement of one character inside a string literal: the quote,
    the backslash and the control characters below U+0020 are escaped,
    every other character (non-ASCII included) is copied. *)
Definition escape_char (c : char) : str :=
  if c =? 34 then [92; 34]
  else if c =? 92 then [92; 92]
  else if c =? 10 then [92; 110]
  else if c =? 13 then [92; 114]
  else if c =? 9 then [92; 116]
  else if c =? 8 then [92; 98]
  else if c =? 12 then [92; 102]
  else if c <? 32 then [92; 117; 48; 48; hex_digit (c / 16); hex_digit (c mod 16)]
  else [c].

Definition encode_basestring (s : str) : str :=
  [34] ++ flat_map escape_char s ++ [34].

(** The default separators, [', '] and [': ']. *)
Fixpoint json_dumps (v : json) : str :=
  match v with
  | JNull => py "null"
  | JBool true => py "true"
  | JBool false => py "false"
  | JInt z => int_repr z
  | JStr s => encode_basestring s
  | JArr items => py "[" ++ join (py ", ") (map json_dumps items) ++ py "]"
  | JObj members =>
      py "{"
      ++ join (py ", ")
           (map (fun kv => encode_basestring (fst kv) ++ py ": "
                           ++ json_dumps (snd kv)) members)
      ++ py "}"
  end.

(** [json.dumps(obj, indent=2, ensure_ascii=False)]: one member per line,
    nested two spaces deeper; separators [','] and [': ']; an empty
    container stays on one line. *)
Definition newline_indent (level : nat) : str :=
  10 :: repeat 32 (2 * level).

Fixpoint json_dumps_indent (level : nat) (v : json) : str :=
  match v with
  | JArr ((_ :: _) as items) =>
      py "[" ++ newline_indent (S level)
      ++ join (py "," ++ newline_indent (S level))
           (map (json_dumps_indent (S level)) items)
      ++ newline_indent level ++ py "]"
  | JObj ((_ :: _) as members) =>
      py "{" ++ newline_indent (S level)
      ++ join (py "," ++ newline_indent (S level))
           (map (fun kv => encode_basestring (fst kv) ++ py ": "
                           ++ json_dumps_indent (S level) (snd kv)) members)
      ++ newline_indent level ++ py "}"
  | _ => json_dumps v
  end.

(** ** [json.loads] *)

Definition is_json_ws (c : char) : bool :=
  (c =? 32) || (c =? 9) || (c =? 10) || (c =? 13).

Fixpoint skip_ws (s : str) : str :=
  match s with
  | c :: r => if is_json_ws c then skip_ws r else s
  | [] => []
  end.

Definition hex_val (c : char) : option Z :=
  if (48 <=? c) && (c <=? 57) then Some (c - 48)
  else if (97 <=? c) && (c <=? 102) then Some (c - 87)
  else if (65 <=? c) && (c <=? 70) then Some (c - 55)
  else None.

Definition hex4 (h1 h2 h3 h4 : char) : option Z :=
  match hex_val h1, hex_val h2, hex_val h3, hex_val h4 with
  | Some a, Some b, Some c, Some d => Some (((a * 16 + b) * 16 + c) * 16 + d)
  | _, _, _, _ => None
  end.

(** The character named by a one-letter escape. *)
Definition unescape (e : char) : option char :=
  if e =? 34 then Some 34
  else if e =? 92 then Some 92
  else if e =? 47 then Some 47
  else if e =? 98 then Some 8
  else if e =? 102 then Some 12
  else if e =? 110 then Some 10
  else if e =? 114 then Some 13
  else if e =? 116 then Some 9
  else None.

Definition cons_char (c : char) (r : option (str * str)) : option (str * str) :=
  match r with
  | Some (t, rest) => Some (c :: t, rest)
  | None => None
  end.

(** The body of a string literal after its opening quote, up to the closing
    quote (strict mode: a raw control character is an error).  A high
    surrogate escape directly followed by a low surrogate escape is one
    character. *)
Fixpoint scanstring (s : str) : option (str * str) :=
  match s with
  | [] => None
  | c :: r =>
      if c =? 34 then Some ([], r)
      else if c =? 92 then
        match r with
        | [] => None
        | e :: r1 =>
            if e =? 117 then
              match r1 with
              | h1 :: h2 :: h3 :: h4 :: r2 =>
                  match hex4 h1 h2 h3 h4 with
                  | None => None
                  | Some uni =>
                      if (55296 <=? uni) && (uni <=? 56319) then
                        match r2 with
                        | b :: u :: r3 =>
                            if (b =? 92) && (u =? 117) then
                              match r3 with
                              | g1 :: g2 :: g3 :: g4 :: r4 =>
                                  match hex4 g1 g2 g3 g4 with
                                  | None => None
                                  | Some uni2 =>
                                      if (56320 <=? uni2) && (uni2 <=? 57343)
                                      then
                                        cons_char
                                          (65536 + (uni - 55296) * 1024
                                           + (uni2 - 56320))
                                          (scanstring r4)
                                      else cons_char uni (scanstring r2)
                                  end
                              | _ => None
                              end
                            else cons_char uni (scanstring r2)
                        | _ => cons_char uni (scanstring r2)
                        end
                      else cons_char uni (scanstring r2)
                  end
              | _ => None
              end
            else
              match unescape e with
              | Some ch => cons_char ch (scanstring r1)
              | None => None
              end
        end
      else if c <? 32 then None
      else cons_char c (scanstring r)
  end.

Definition is_digit (c : char) : bool := (48 <=? c) && (c <=? 57).

Fixpoint take_digits (s : str) : str * str :=
  match s with
  | c :: r =>
      if is_digit c then let '(ds, rest) := take_digits r in (c :: ds, rest)
      else ([], s)
  | [] => ([], [])
  end.

Definition digit_uint (c : char) (u : Decimal.uint) : Decimal.uint :=
  if c =? 48 then Decimal.D0 u
  else if c =? 49 then Decimal.D1 u
  else if c =? 50 then Decimal.D2 u
  else if c =? 51 then Decimal.D3 u
  else if c =? 52 then Decimal.D4 u
  else if c =? 53 then Decimal.D5 u
  else if c =? 54 then Decimal.D6 u
  else if c =? 55 then Decimal.D7 u
  else if c =? 56 then Decimal.D8 u
  else Decimal.D9 u.

Definition chars_uint (ds : str) : Decimal.uint :=
  fold_right digit_uint Decimal.Nil ds.

(** After the digits of an integer: a ['.'], ['e'] or ['E'] either starts
    the fraction or exponent of a float (not modelled) or is a syntax
    error; in both cases the model gives no value. *)
Definition int_follows (rest : str) : bool :=
  match rest with
  | c :: _ => negb ((c =? 46) || (c =? 101) || (c =? 69))
  | [] => true
  end.

(** The digits of an integer literal: either a single zero or a non-zero
    digit followed by any digits. *)
Definition parse_digits (s : str) : option (Z * str) :=
  match s with
  | c :: r =>
      let '(ds, rest) :=
        if c =? 48 then ([c], r)
        else if is_digit c then
          let '(ds, rest) := take_digits r in (c :: ds, rest)
        else ([], s) in
      match ds with
      | [] => None
      | _ =>
          if int_follows rest then Some (Z.of_uint (chars_uint ds), rest)
          else None
      end
  | [] => None
  end.

(** An integer literal with its optional minus sign. *)
Definition parse_int (s : str) : option (json * str) :=
  match s with
  | c :: r =>
      if c =? 45 then
        match parse_digits r with
        | Some (n, rest) => Some (JInt (- n), rest)
        | None => None
        end
      else
        match parse_digits s with
        | Some (n, rest) => Some (JInt n, rest)
        | None => None
        end
  | [] => None
  end.

(** [s] starts with the literal [lit]: the remainder after it. *)
Fixpoint strip_prefix (lit s : str) : option str :=
  match lit, s with
  | [], _ => Some s
  | a :: lit', b :: s' => if a =? b then strip_prefix lit' s' else None
  | _ :: _, [] => None
  end.

(** [dict(pairs)]: a repeated key keeps its first position and its last
    value. *)
Definition dict_of_pairs {V} (pairs : list (str * V)) : pydict V :=
  fold_left (fun d kv => dict_set (fst kv) (snd kv) d) pairs [].

(** A value that is neither a string nor a container: one of the three
    literals or an integer. *)
Definition parse_scalar (s : str) : option (json * str) :=
  match strip_prefix (py "null") s with
  | Some rest => Some (JNull, rest)
  | None =>
      match strip_prefix (py "true") s with
      | Some rest => Some (JBool true, rest)
      | None =>
          match strip_prefix (py "false") s with
          | Some rest => Some (JBool false, rest)
          | None => parse_int s
          end
      end
  end.

(** The recursive descent of the decoder.  Every call spends one unit of
    [fuel]; [json_loads] supplies enough for any document of the length it
    is given. *)
Fixpoint parse_value (fuel : nat) (s : str) : option (json * str) :=
  match fuel with
  | O => None
  | S fuel =>
      match s with
      | [] => None
      | c :: r =>
          if c =? 34 then
            match scanstring r with
            | Some (t, rest) => Some (JStr t, rest)
            | None => None
            end
          else if c =? 123 then
            match skip_ws r with
            | c' :: r' =>
                if c' =? 125 then Some (JObj [], r')
                else
                  match parse_members fuel (c' :: r') with
                  | Some (pairs, rest) => Some (JObj (dict_of_pairs pairs), rest)
                  | None => None
                  end
            | [] => None
            end
          else if c =? 91 then
            match skip_ws r with
            | c' :: r' =>
                if c' =? 93 then Some (JArr [], r')
                else
                  match parse_items fuel (c' :: r') with
                  | Some (items, rest) => Some (JArr items, rest)
                  | None => None
                  end
            | [] => None
            end
          else parse_scalar s
      end
  end

(** The elements of a non-empty array, from the first element to the
    closing bracket. *)
with parse_items (fuel : nat) (s : str) : option (list json * str) :=
  match fuel with
  | O => None
  | S fuel =>
      match parse_value fuel s with
      | None => None
      | Some (v, r) =>
          match skip_ws r with
          | c :: r' =>
              if c =? 93 then Some ([v], r')
              else if c =? 44 then
                match parse_items fuel (skip_ws r') with
                | Some (vs, rest) => Some (v :: vs, rest)
                | None => None
                end
              else None
          | [] => None
          end
      end
  end

(** The members of a non-empty object, from the first key's quote to the
    closing brace. *)
with parse_members (fuel : nat) (s : str) : option (list (str * json) * str) :=
  match fuel with
  | O => None
  | S fuel =>
      match s with
      | q :: r =>
          if q =? 34 then
            match scanstring r with
            | None => None
            | Some (k, r1) =>
                match skip_ws r1 with
                | colon :: r2 =>
                    if colon =? 58 then
                      match parse_value fuel (skip_ws r2) with
                      | None => None
                      | Some (v, r3) =>
                          match skip_ws r3 with
                          | c :: r4 =>
                              if c =? 125 then Some ([(k, v)], r4)
                              else if c =? 44 then
                                match parse_members fuel (skip_ws r4) with
                                | Some (kvs, rest) => Some ((k, v) :: kvs, rest)
                                | None => None
                                end
                              else None
                          | [] => None
                          end
                      end
                    else None
                | [] => None
                end
            end
          else None
      | [] => None
      end
  end.

(** The decoder without fuel, as derivations: [parses_value s v rest] when
    the text [s] starts with the value [v] and continues with [rest].  It
    is shown below to agree with [parse_value], which makes the result of
    [json_loads] independent of the fuel it supplies. *)
Inductive parses_value : str -> json -> str -> Prop :=
| pv_string (r : str) (t rest : str) :
    scanstring r = Some (t, rest) ->
    parses_value (34 :: r) (JStr t) rest
| pv_empty_object (r rest : str) :
    skip_ws r = 125 :: rest ->
    parses_value (123 :: r) (JObj []) rest
| pv_object (r : str) (c : char) (r' : str) (pairs : list (str * json))
    (rest : str) :
    skip_ws r = c :: r' -> (c =? 125) = false ->
    parses_members (c :: r') pairs rest ->
    parses_value (123 :: r) (JObj (dict_of_pairs pairs)) rest
| pv_empty_array (r rest : str) :
    skip_ws r = 93 :: rest ->
    parses_value (91 :: r) (JArr []) rest
| pv_array (r : str) (c : char) (r' : str) (items : list json) (rest : str) :
    skip_ws r = c :: r' -> (c =? 93) = false ->
    parses_items (c :: r') items rest ->
    parses_value (91 :: r) (JArr items) rest
| pv_scalar (c : char) (r : str) (v : json) (rest : str) :
    (c =? 34) = false -> (c =? 123) = false -> (c =? 91) = false ->
    parse_scalar (c :: r) = Some (v, rest) ->
    parses_value (c :: r) v rest

with parses_items : str -> list json -> str -> Prop :=
| pi_last (s : str) (v : json) (r rest : str) :
    parses_value s v r -> skip_ws r = 93 :: rest ->
    parses_items s [v] rest
| pi_more (s : str) (v : json) (r r' : str) (vs : list json) (rest : str) :
    parses_value s v r -> skip_ws r = 44 :: r' ->
    parses_items (skip_ws r') vs rest ->
    parses_items s (v :: vs) rest

with parses_members : str -> list (str * json) -> str -> Prop :=
| pm_last (r : str) (k r1 r2 : str) (v : json) (r3 rest : str) :
    scanstring r = Some (k, r1) -> skip_ws r1 = 58 :: r2 ->
    parses_value (skip_ws r2) v r3 -> skip_ws r3 = 125 :: rest ->
    parses_members (34 :: r) [(k, v)] rest
| pm_more (r : str) (k r1 r2 : str) (v : json) (r3 r4 : str)
    (kvs : list (str * json)) (rest : str) :
    scanstring r = Some (k, r1) -> skip_ws r1 = 58 :: r2 ->
    parses_value (skip_ws r2) v r3 -> skip_ws r3 = 44 :: r4 ->
    parses_members (skip_ws r4) kvs rest ->
    parses_members (34 :: r) ((k, v) :: kvs) rest.

Scheme parses_value_mut := Minimality for parses_value Sort Prop
  with parses_items_mut := Minimality for parses_items Sort Prop
  with parses_members_mut := Minimality for parses_members Sort Prop.

Combined Scheme parses_mutind
  from parses_value_mut, parses_items_mut, parses_members_mut.

(** [json.loads(s)]: one value, surrounded by optional whitespace and
    nothing else.  [None] stands for [JSONDecodeError]. *)
Definition json_loads (s : str) : option json :=
  match parse_value (2 * List.length s + 2) (skip_ws s) with
  | Some (v, rest) =>
      match skip_ws rest with
      | [] => Some v
      | _ => None
      end
  | None => None
  end.

(** ** UTF-8 *)

(** [chr(c).encode("utf-8")]; a surrogate or a value outside the code space
    cannot be encoded. *)
Definition encode_char (c : char) : option bytes :=
  if c <? 0 then None
  else if c <? 128 then Some [c]
  else if c <? 2048 then Some [192 + c / 64; 128 + c mod 64]
  else if c <? 65536 then
    if (55296 <=? c) && (c <=? 57343) then None
    else Some [224 + c / 4096; 128 + (c / 64) mod 64; 128 + c mod 64]
  else if c <? 1114112 then
    Some [240 + c / 262144; 128 + (c / 4096) mod 64;
          128 + (c / 64) mod 64; 128 + c mod 64]
  else None.

(** [s.encode("utf-8")] *)
Fixpoint utf8_encode (s : str) : option bytes :=
  match s with
  | [] => Some []
  | c :: r =>
      match encode_char c, utf8_encode r with
      | Some bs, Some rest => Some (bs ++ rest)
      | _, _ => None
      end
  end.

Definition is_cont (b : byte) : bool := (128 <=? b) && (b <=? 191).

Definition cons_opt {A} (a : A) (r : option (list A)) : option (list A) :=
  match r with Some l => Some (a :: l) | None => None end.

(** [bs.decode("utf-8")], strict: overlong forms, surrogates, values above
    U+10FFFF and truncated sequences are errors ([None]). *)
Fixpoint utf8_decode (bs : bytes) : option str :=
  match bs with
  | [] => Some []
  | b0 :: r0 =>
      if (0 <=? b0) && (b0 <? 128) then cons_opt b0 (utf8_decode r0)
      else if (194 <=? b0) && (b0 <=? 223) then
        match r0 with
        | b1 :: r1 =>
            if is_cont b1 then
              cons_opt ((b0 - 192) * 64 + (b1 - 128)) (utf8_decode r1)
            else None
        | _ => None
        end
      else if (224 <=? b0) && (b0 <=? 239) then
        match r0 with
        | b1 :: b2 :: r2 =>
            let c := ((b0 - 224) * 64 + (b1 - 128)) * 64 + (b2 - 128) in
            if is_cont b1 && is_cont b2 && (2048 <=? c)
               && negb ((55296 <=? c) && (c <=? 57343))
            then cons_opt c (utf8_decode r2)
            else None
        | _ => None
        end
      else if (240 <=? b0) && (b0 <=? 244) then
        match r0 with
        | b1 :: b2 :: b3 :: r3 =>
            let c := (((b0 - 240) * 64 + (b1 - 128)) * 64 + (b2 - 128)) * 64
                     + (b3 - 128) in
            if is_cont b1 && is_cont b2 && is_cont b3
               && (65536 <=? c) && (c <? 1114112)
            then cons_opt c (utf8_decode r3)
            else None
        | _ => None
        end
      else None
  end.

(** ** Lines of an uploaded file and [str.strip] *)

(** Iterating over the uploaded file (a [BytesIO]): the byte lines, each
    with its terminating newline when it has one. *)
Fixpoint readlines (bs : bytes) : list bytes :=
  match bs with
  | [] => []
  | b :: r =>
      if b =? 10 then [b] :: readlines r
      else
        match readlines r with
        | [] => [[b]]
        | l :: ls => (b :: l) :: ls
        end
  end.

(** [str.isspace] on one character. *)
Definition is_space (c : char) : bool :=
  ((9 <=? c) && (c <=? 13)) || ((28 <=? c) && (c <=? 32))
  || (c =? 133) || (c =? 160) || (c =? 5760)
  || ((8192 <=? c) && (c <=? 8202))
  || (c =? 8232) || (c =? 8233) || (c =? 8239) || (c =? 8287)
  || (c =? 12288).

Fixpoint lstrip (s : str) : str :=
  match s with
  | c :: r => if is_space c then lstrip r else s
  | [] => []
  end.

Definition rstrip (s : str) : str := rev (lstrip (rev s)).

Definition strip (s : str) : str := rstrip (lstrip s).

(** ** [load_jsonl_data] (app.py, lines 7-18) *)

(** The exceptions the loop can raise, each with what it was raised on. *)
Inductive PyException : Type :=
| UnicodeDecodeError (line : bytes)
| JSONDecodeError (doc : str).

(** Messages shown to the reviewer. *)
Inductive StEvent : Type :=
| st_error_loading (cause : PyException)
| st_sidebar_success (total_items : nat)
| st_info_please_upload.

(** The [for] loop inside the [try]; [data] is the list built so far. *)
Fixpoint load_loop (lines : list bytes) (data : list json)
  : PyException + list json :=
  match lines with
  | [] => inr data
  | raw :: rest =>
      match utf8_decode raw with
      | None => inl (UnicodeDecodeError raw)
      | Some text =>
          let line := strip text in
          if str_truthy line then
            match json_loads line with
            | None => inl (JSONDecodeError line)
            | Some record => load_loop rest (data ++ [record])
            end
          else load_loop rest data
      end
  end.

(** The returned value ([None] after an exception) and the messages shown. *)
Definition load_jsonl_data (uploaded_file : bytes)
  : option (list json) * list StEvent :=
  match load_loop (readlines uploaded_file) [] with
  | inr data => (Some data, [])
  | inl e => (None, [st_error_loading e])
  end.

(** ** [main] (app.py, lines 69-137) *)

(** [json.dumps(item, indent=2, ensure_ascii=False)] *)
Definition serializeOne (item : json) : str := json_dumps_indent 0 item.

(** ["\n".join(json.dumps(item, ensure_ascii=False) for item in data)] *)
Definition serializeAll (data : list json) : str :=
  join [10] (map json_dumps data).

(** The dict the editor writes for a turn. *)
Definition json_of_turn (t : Turn str) : json :=
  JObj [(py "from", JStr (from t)); (py "value", JStr (value t))].

(** A conversation entry read the way the scan reads it, [conv["from"]] and
    [conv["value"]].  [None] when Python raises (not a dict, a key is
    missing) and also when a field is not text, which the model leaves out. *)
Definition turn_of_json (conv : json) : option (Turn str) :=
  match conv with
  | JObj members =>
      match dict_get (py "from") members, dict_get (py "value") members with
      | Some (JStr f), Some (JStr v) => Some (mkTurn f v)
      | _, _ => None
      end
  | _ => None
  end.

Fixpoint turns_of_json (convs : list json) : option (list (Turn str)) :=
  match convs with
  | [] => Some []
  | c :: rest =>
      match turn_of_json c, turns_of_json rest with
      | Some t, Some ts => Some (t :: ts)
      | _, _ => None
      end
  end.

(** [current_item.get('conversations', [])], as a turn list. *)
Definition get_conversations (current_item : json)
  : option (list (Turn str)) :=
  match current_item with
  | JObj members =>
      match dict_get (py "conversations") members with
      | None => Some []
      | Some (JArr convs) => turns_of_json convs
      | Some _ => None
      end
  | _ => None
  end.

(** Lines 114-116: read the turns, run the editor, write its result back
    into the record. *)
Definition review_item (ui : Reviewer) (current_item : json) : option json :=
  match current_item, get_conversations current_item with
  | JObj members, Some conversations =>
      let edited_conversations := display_conversations ui conversations in
      Some (JObj (dict_set (py "conversations")
                    (JArr (map json_of_turn edited_conversations)) members))
  | _, _ => None
  end.

(** [l[i] = x] for an index in range. *)
Fixpoint list_set {A} (l : list A) (i : nat) (x : A) : list A :=
  match l, i with
  | [], _ => []
  | _ :: rest, O => x :: rest
  | a :: rest, S i => a :: list_set rest i x
  end.

(** What one run of the page reads from the browser. *)
Record Session : Type := mkSession {
  jsonl_file : option bytes;
  uploaded_images : list str;
  selected_index : nat;
  editor : Reviewer
}.

(** What one run of the page ends with. *)
Inductive Page : Type :=
| PleaseUpload (log : list StEvent)
| Stopped (log : list StEvent)
| Raised (log : list StEvent)
| Reviewing (log : list StEvent) (data : list json)
            (json_str : str) (all_json_str : str).

(** Truth value of what [load_jsonl_data] returned: [None] and the empty
    list are both falsy. *)
Definition data_truthy (data : option (list json)) : bool :=
  match data with
  | Some (_ :: _) => true
  | _ => false
  end.

(** One run of the page.  The image column only displays; it is left out.
    [Raised] is a run ended by an uncaught exception (or one that left the
    model, see [turn_of_json]).  [Reviewing] carries the dataset as edited
    in place and the two download payloads. *)
Definition main (s : Session) : Page :=
  match jsonl_file s, uploaded_images s with
  | Some file, _ :: _ =>
      let '(data, log) := load_jsonl_data file in
      if negb (data_truthy data) then Stopped log
      else
        match data with
        | None => Stopped log
        | Some data =>
            let total_items := List.length data in
            let log := log ++ [st_sidebar_success total_items] in
            match nth_error data (selected_index s) with
            | None => Raised log
            | Some current_item =>
                match review_item (editor s) current_item with
                | None => Raised log
                | Some current_item =>
                    let data := list_set data (selected_index s) current_item in
                    Reviewing log data (serializeOne current_item)
                      (serializeAll data)
                end
            end
        end
  | _, _ => PleaseUpload [st_info_please_upload]
  end.

(** ** Well-formed values

    [char] and [pydict] are wider than Python's types: a Python [str] holds
    code points below 0x110000 and a Python [dict] holds each key once.
    [wf_json] states both for every string and dict of a value.
    [encodable_json] further excludes surrogate code points, which a
    Python [str] may hold but UTF-8 cannot represent. *)

Definition valid_char (c : char) : bool := (0 <=? c) && (c <? 1114112).

Definition is_surrogate (c : char) : bool := (55296 <=? c) && (c <=? 57343).

Fixpoint unique_keys {V} (d : pydict V) : bool :=
  match d with
  | [] => true
  | (k, _) :: rest => negb (dict_in k rest) && unique_keys rest
  end.

(** Every character of every string of [v], keys included, satisfies [P]. *)
Fixpoint json_chars (P : char -> bool) (v : json) : bool :=
  match v with
  | JStr s => forallb P s
  | JArr items => forallb (json_chars P) items
  | JObj members =>
      forallb (fun kv => forallb P (fst kv) && json_chars P (snd kv)) members
  | _ => true
  end.

Fixpoint json_unique_keys (v : json) : bool :=
  match v with
  | JArr items => forallb json_unique_keys items
  | JObj members =>
      unique_keys members
      && forallb (fun kv => json_unique_keys (snd kv)) members
  | _ => true
  end.

Definition wf_json (v : json) : bool :=
  json_chars valid_char v && json_unique_keys v.

Definition encodable_json (v : json) : bool :=
  json_chars (fun c => negb (is_surrogate c)) v.

(** What follows a value inside a document: nothing, a comma or a closing
    bracket or brace. *)
Definition delimited (rest : str) : bool :=
  match rest with
  | [] => true
  | c :: _ => (c =? 44) || (c =? 93) || (c =? 125)
  end.

(** Fuel that suffices to decode the text of a value. *)
Fixpoint json_size (v : json) : nat :=
  match v with
  | JArr items => S (list_sum (map (fun x => S (json_size x)) items))
  | JObj members =>
      S (list_sum (map (fun kv => S (json_size (snd kv))) members))
  | _ => 1
  end.

(** A Unicode scalar value: a code point that is not a surrogate. *)
Definition scalar_char (c : char) : bool :=
  valid_char c && negb (is_surrogate c).

(** The lines the file iteration yields for text joined with newlines:
    every part but the last carries its newline. *)
Fixpoint terminate_lines (parts : list bytes) : list bytes :=
  match parts with
  | [] => []
  | [p] => [p]
  | p :: rest => (p ++ [10]) :: terminate_lines rest
  end.

(** A list of characters or bytes holds no newline. *)
Definition no_newline (l : list Z) : bool :=
  forallb (fun c => negb (c =? 10)) l.

(** What makes the loader raise on a raw line, if anything: the bytes are
    not UTF-8, or the stripped text is not empty and is not a JSON
    document. *)
Definition line_failure (raw : bytes) : option PyException :=
  match utf8_decode raw with
  | None => Some (UnicodeDecodeError raw)
  | Some text =>
      if str_truthy (strip text) then
        match json_loads (strip text) with
        | None => Some (JSONDecodeError (strip text))
        | Some _ => None
        end
      else None
  end.

(** A raw line that decodes to white space only (or to nothing). *)
Definition blank_line (raw : bytes) : bool :=
  match utf8_decode raw with
  | Some text => forallb is_space text
  | None => false
  end.

(** The pairs of a turn list made of complete pairs. *)
Fixpoint pair_up {V} (l : list (Turn V)) : list (QAPair V) :=
  match l with
  | h :: g :: rest => mkPair (value h) (Some (value g)) :: pair_up rest
  | _ => []
  end.

(** ** Vocabulary for the statements about the text formats *)

(** The end of the scan: a pending pair is appended. *)
Definition finish {V} (st : scan_state V) : list (pydict V) :=
  let '(qa_pairs, current_pair) := st in
  if dict_truthy current_pair then qa_pairs ++ [current_pair] else qa_pairs.

(** Relabelling the values of a pair and of an accumulator. *)
Definition pair_map {U V} (f : U -> V) (p : QAPair U) : QAPair V :=
  mkPair (f (question p)) (option_map f (answer p)).

Definition acc_map {U V} (f : U -> V) (acc : Accumulator U) : Accumulator V :=
  match acc with Empty => Empty | HasQuestion q => HasQuestion (f q) end.

(** [tag_turns] with the positions counted from [n]. *)
Definition tag_from {V} (n : nat) (turns : list (Turn V))
  : list (Turn (nat * V)) :=
  map (fun it => mkTurn (from (snd it)) (fst it, value (snd it)))
      (enumerate turns n).

(** A pair read off the tagged scan points at its source turns. *)
Definition sourced {V} (all : list (Turn V)) (p : QAPair (nat * V)) : Prop :=
  nth_error all (fst (question p)) = Some (human (snd (question p)))
  /\ match answer p with
     | None => True
     | Some ja =>
         (fst (question p) < fst ja)%nat
         /\ nth_error all (fst ja) = Some (gpt (snd ja))
     end.

Definition acc_sourced {V} (all : list (Turn V)) (n : nat)
  (acc : Accumulator (nat * V)) : Prop :=
  match acc with
  | Empty => True
  | HasQuestion iq =>
      (fst iq < n)%nat /\ nth_error all (fst iq) = Some (human (snd iq))
  end.

(** The characters a serialized value can start with. *)
Definition value_start (c : char) : bool :=
  (c =? 34) || (c =? 45) || is_digit c || (c =? 91) || (c =? 102)
  || (c =? 110) || (c =? 116) || (c =? 123).

(** The text of one member of an object. *)
Definition member_text (kv : str * json) : str :=
  encode_basestring (fst kv) ++ py ": " ++ json_dumps (snd kv).

(** [v] is read back from its text, whatever delimiter follows, with any
    fuel from [json_size v] on. *)
Definition decodes (v : json) : Prop :=
  json_chars valid_char v = true ->
  json_unique_keys v = true ->
  forall (fuel : nat) (rest : str),
    (json_size v <= fuel)%nat ->
    delimited rest = true ->
    parse_value fuel (json_dumps v ++ rest) = Some (v, rest).

(** The bytes of one serialized record. *)
Definition encoded (v : json) (b : bytes) : Prop :=
  utf8_encode (json_dumps v) = Some b.

(** ** Vocabulary for the further properties *)

(** The record a raw line contributes, if it is a good non-blank line. *)
Definition line_record (raw : bytes) : option json :=
  match utf8_decode raw with
  | Some text =>
      if str_truthy (strip text) then json_loads (strip text) else None
  | None => None
  end.

Definition lines_records (lines : list bytes) : list json :=
  flat_map (fun raw => match line_record raw with
                       | Some record => [record]
                       | None => []
                       end) lines.

Definition is_gpt {V} (t : Turn V) : bool := str_eqb (from t) (py "gpt").

(** A reviewer who types into every text input the key of that input: the
    values of the turns the editor then returns are the keys it passed to
    [st.text_input], in the order of the calls. *)
Definition key_echo (num_new : nat) : Reviewer :=
  mkReviewer (fun key _ => key) num_new.

(** What follows a value inside an indented document: nothing, a comma or
    a line break. *)
Definition follows_value (rest : str) : bool :=
  match rest with
  | [] => true
  | c :: _ => (c =? 44) || (c =? 10)
  end.

(** [v] has a derivation from its indented text at every nesting level. *)
Definition decodes_indented (v : json) : Prop :=
  json_chars valid_char v = true ->
  json_unique_keys v = true ->
  forall (level : nat) (rest : str),
    follows_value rest = true ->
    parses_value (json_dumps_indent level v ++ rest) v rest.

(** The indented text of one member of an object. *)
Definition member_text_indented (level : nat) (kv : str * json) : str :=
  encode_basestring (fst kv) ++ py ": "
  ++ json_dumps_indent level (snd kv).

(** ** The image column (app.py, lines 20-26, 88 and 100-111) *)

(** A file of the image uploader: [img.name] and the bytes it holds. *)
Module UploadedFile.
Record t : Type := mk { name : str; getvalue : bytes }.
End UploadedFile.

(** What the image column puts on the page.  An f-string over a field of
    the record is kept as the field's value. *)
Inductive ImageEvent (Image : Type) : Type :=
| st_error_loading_image (e : str)
| st_image (img : Image) (caption : str)
| st_warning_no_image (image_filename : json)
| st_caption (caption : json).

Arguments st_error_loading_image {Image} e.
Arguments st_image {Image} img caption.
Arguments st_warning_no_image {Image} image_filename.
Arguments st_caption {Image} caption.

(** [load_image]; [Image_open] stands for [PIL.Image.open], which returns
    an image or raises, here [inl] with the exception's text. *)
Definition load_image {Image : Type}
  (Image_open : UploadedFile.t -> str + Image)
  (uploaded_image : UploadedFile.t)
  : option Image * list (ImageEvent Image) :=
  match Image_open uploaded_image with
  | inr img => (Some img, [])
  | inl e => (None, [st_error_loading_image e])
  end.

(** [{img.name: img for img in uploaded_images}] *)
Definition image_dict (uploaded_images : list UploadedFile.t)
  : pydict UploadedFile.t :=
  dict_of_pairs (map (fun img => (UploadedFile.name img, img))
                   uploaded_images).

(** Lines 100-111.  [None] when Python raises: the record is not a dict
    (no [get]), or its image field is a list or a dict, which [in] cannot
    hash.  A number, a boolean or [null] is hashable and is no key of
    [image_dict]. *)
Definition image_column {Image : Type}
  (Image_open : UploadedFile.t -> str + Image)
  (image_dict : pydict UploadedFile.t) (current_item : json)
  : option (list (ImageEvent Image)) :=
  match current_item with
  | JObj members =>
      let image_filename := dict_get_default (py "image") (JStr []) members in
      let caption :=
        st_caption (dict_get_default (py "caption")
                      (JStr (py "No caption available")) members) in
      match image_filename with
      | JStr f =>
          match dict_get f image_dict with
          | Some uploaded_image =>
              let '(img, shown) := load_image Image_open uploaded_image in
              Some (shown
                    ++ match img with
                       | Some img => [st_image img f]
                       | None => []
                       end
                    ++ [caption])
          | None => Some [st_warning_no_image image_filename; caption]
          end
      | JArr _ | JObj _ => None
      | _ => Some [st_warning_no_image image_filename; caption]
      end
  | _ => None
  end.

(** One run of the page with its image column: [main] with lines 88 and
    100-111 in their place, before the editor runs.  The second component
    is what the image column showed. *)
Definition main_with_images {Image : Type}
  (Image_open : UploadedFile.t -> str + Image)
  (jsonl_file : option bytes) (uploaded_images : list UploadedFile.t)
  (selected_index : nat) (ui : Reviewer)
  : Page * list (ImageEvent Image) :=
  match jsonl_file, uploaded_images with
  | Some file, _ :: _ =>
      let '(data, log) := load_jsonl_data file in
      if negb (data_truthy data) then (Stopped log, [])
      else
        match data with
        | None => (Stopped log, [])
        | Some data =>
            let total_items := List.length data in
            let log := log ++ [st_sidebar_success total_items] in
            let image_dict := image_dict uploaded_images in
            match nth_error data selected_index with
            | None => (Raised log, [])
            | Some current_item =>
                match image_column Image_open image_dict current_item with
                | None => (Raised log, [])
                | Some shown =>
                    match review_item ui current_item with
                    | None => (Raised log, shown)
                    | Some current_item =>
                        let data := list_set data selected_index current_item in
                        (Reviewing log data (serializeOne current_item)
                           (serializeAll data), shown)
                    end
                end
            end
        end
  | _, _ => (PleaseUpload [st_info_please_upload], [])
  end.

(** The image field of a record can be looked up in [image_dict]. *)
Definition image_hashable (current_item : json) : bool :=
  match current_item with
  | JObj members =>
      match dict_get (py "image") members with
      | Some (JArr _) | Some (JObj _) => false
      | _ => true
      end
  | _ => false
  end.

(** The reviewer types Unicode text: a widget whose initial value holds
    scalar values only returns such text. *)
Definition types_text (ui : Reviewer) : Prop :=
  forall key value : str,
    forallb scalar_char value = true ->
    forallb scalar_char (text_input ui key value) = true.

(** The question and the answer of a pair satisfy [Q]. *)
Definition pair_values {V} (Q : V -> Prop) (p : QAPair V) : Prop :=
  Q (question p) /\ match answer p with Some a => Q a | None => True end.

(* ================================================================== *)
(** * Properties *)

(** ** Checks on concrete inputs

    The examples of the specification's section 8, and one run of each
    text format. *)

Example reconstruct_two_pairs :
  reconstruct_pairs
    [human (py "Q1"); gpt (py "A1"); human (py "Q2"); gpt (py "A2")]
  = [[(py "question", py "Q1"); (py "answer", py "A1")];
     [(py "question", py "Q2"); (py "answer", py "A2")]].
Proof. reflexivity. Qed.

Example reconstruct_unanswered_first :
  reconstruct_pairs [human (py "Q1"); human (py "Q2"); gpt (py "A2")]
  = [[(py "question", py "Q1")];
     [(py "question", py "Q2"); (py "answer", py "A2")]].
Proof. reflexivity. Qed.

Example reconstruct_orphan : reconstruct_pairs [gpt (py "orphan")] = [].
Proof. reflexivity. Qed.

Example reconstruct_empty : reconstruct_pairs (@nil (Turn str)) = [].
Proof. reflexivity. Qed.

Example widget_key : fkey "new_q" 12 = py "new_q12".
Proof. reflexivity. Qed.

Example dumps_record :
  json_dumps
    (JObj [(py "id", JInt (-12));
           (py "tags", JArr [JStr (py "a"); JNull; JBool true]);
           (py "caption", JStr [233; 10; 34])])
  = [123; 34] ++ py "id" ++ [34] ++ py ": -12, " ++ [34] ++ py "tags" ++ [34]
    ++ py ": [" ++ [34] ++ py "a" ++ [34] ++ py ", null, true], " ++ [34]
    ++ py "caption" ++ [34] ++ py ": " ++ [34; 233; 92; 110; 92; 34; 34; 125].
Proof. reflexivity. Qed.

Example dumps_indent_record :
  json_dumps_indent 0 (JObj [(py "a", JArr [JInt 1; JObj []])])
  = [123; 10] ++ py "  " ++ [34; 97; 34] ++ py ": [" ++ [10] ++ py "    1,"
    ++ [10] ++ py "    {}" ++ [10] ++ py "  ]" ++ [10; 125].
Proof. reflexivity. Qed.

Example loads_spaced_duplicate_key :
  json_loads (py " { " ++ [34; 97; 34] ++ py " : [ 1 , 20 ] , " ++ [34; 97; 34]
              ++ py ":{}} ")
  = Some (JObj [(py "a", JObj [])]).
Proof. vm_compute. reflexivity. Qed.

Example loads_leading_zero :
  json_loads (py "[1, 02]") = None.
Proof. vm_compute. reflexivity. Qed.

Example loads_surrogate_pair :
  json_loads ([34; 92] ++ py "ud83d" ++ [92] ++ py "ude00" ++ [34])
  = Some (JStr [128512]).
Proof. vm_compute. reflexivity. Qed.

Example utf8_four_widths :
  utf8_encode [36; 233; 8364; 128512]
  = Some [36; 195; 169; 226; 130; 172; 240; 159; 152; 128]
  /\ utf8_decode [36; 195; 169; 226; 130; 172; 240; 159; 152; 128]
     = Some [36; 233; 8364; 128512]
  /\ utf8_decode [192; 128] = None
  /\ utf8_decode [237; 160; 128] = None.
Proof. vm_compute. repeat split. Qed.

(** A lone surrogate, which [json.loads] accepts from an escape, has no
    UTF-8 encoding: the well-formedness asked of exported datasets below
    is not idle. *)
Example lone_surrogate_not_encodable :
  json_loads ([34; 92] ++ py "ud800" ++ [34]) = Some (JStr [55296])
  /\ utf8_encode (serializeAll [JStr [55296]]) = None.
Proof. vm_compute. split; reflexivity. Qed.

Example readlines_keeps_newlines :
  readlines [1; 10; 10; 2; 3; 10; 4] = [[1; 10]; [10]; [2; 3; 10]; [4]].
Proof. reflexivity. Qed.

Example main_reviews_first_record :
  main (mkSession
          (Some ([123; 34] ++ py "conversations" ++ [34] ++ py ": [{"
                 ++ [34] ++ py "from" ++ [34] ++ py ": " ++ [34] ++ py "human"
                 ++ [34] ++ py ", " ++ [34] ++ py "value" ++ [34] ++ py ": "
                 ++ [34] ++ py "Q" ++ [34] ++ py "}]}" ++ [10] ++ py "{}"))
          [py "page.png"] 0
          (reviewer_of [(py "a1", py "typed")] 1))
  = Reviewing [st_sidebar_success 2]
      [JObj [(py "conversations",
              JArr [json_of_turn (human (py "Q"));
                    json_of_turn (gpt (py "typed"))])];
       JObj []]
      (serializeOne
         (JObj [(py "conversations",
                 JArr [json_of_turn (human (py "Q"));
                       json_of_turn (gpt (py "typed"))])]))
      (json_dumps
         (JObj [(py "conversations",
                 JArr [json_of_turn (human (py "Q"));
                       json_of_turn (gpt (py "typed"))])])
       ++ [10] ++ py "{}").
Proof. vm_compute. reflexivity. Qed.

Example load_two_records :
  load_jsonl_data (py "{}" ++ [10; 32; 10] ++ py "[1, 2]" ++ [13; 10])
  = (Some [JObj []; JArr [JInt 1; JInt 2]], []).
Proof. vm_compute. reflexivity. Qed.

(** ** Strings and dictionaries *)

Lemma str_eqb_eq (a b : str) : str_eqb a b = true <-> a = b.
Proof.
  revert b; induction a as [|x a IH]; intros [|y b]; simpl;
    try (split; [discriminate | discriminate]); try tauto.
  rewrite andb_true_iff, Z.eqb_eq, IH.
  split; [intros [-> ->]; reflexivity | intros H; inversion H; auto].
Qed.

Lemma str_eqb_refl (a : str) : str_eqb a a = true.
Proof. apply str_eqb_eq; reflexivity. Qed.

Lemma turn_eta {V} (t : Turn V) : t = mkTurn (from t) (value t).
Proof. destruct t; reflexivity. Qed.

(** ** The pair reconstruction *)

Section ReconstructFacts.
Context {V : Type}.

Lemma reconstruct_pairs_finish (turns : list (Turn V)) :
  reconstruct_pairs turns = finish (fold_left scan_step turns ([], [])).
Proof. reflexivity. Qed.

Lemma finish_flush (qs : list (pydict V)) (acc : Accumulator V) :
  finish (qs, dict_of_acc acc) = qs ++ map dict_of_pair (flush acc).
Proof. destruct acc; simpl; [rewrite app_nil_r|]; reflexivity. Qed.

(** The program's loop, started from the dict of an accumulator, appends
    exactly the pairs the two-state scan produces. *)
Lemma scan_refines (turns : list (Turn V)) :
  forall (qs : list (pydict V)) (acc : Accumulator V),
    finish (fold_left scan_step turns (qs, dict_of_acc acc))
    = qs ++ map dict_of_pair (spec_scan acc turns).
Proof.
  induction turns as [|t rest IH]; intros qs acc.
  - apply finish_flush.
  - cbn [fold_left spec_scan]. unfold scan_step at 2.
    destruct (str_eqb (from t) (py "human")) eqn:Hh.
    + change [(py "question", value t)]
        with (dict_of_acc (HasQuestion (value t))).
      rewrite IH, map_app, app_assoc. f_equal.
      destruct acc; simpl; [rewrite app_nil_r|]; reflexivity.
    + destruct (str_eqb (from t) (py "gpt")) eqn:Hg; simpl andb.
      * destruct acc as [|q].
        -- exact (IH qs Empty).
        -- change (dict_in (py "question") (dict_of_acc (HasQuestion q)))
             with true.
           change (dict_set (py "answer") (value t)
                     (dict_of_acc (HasQuestion q)))
             with (dict_of_pair (mkPair q (Some (value t)))).
           cbn iota.
           rewrite (IH _ Empty), <- app_assoc. reflexivity.
      * apply IH.
Qed.

Lemma reconstruct_pairs_spec (turns : list (Turn V)) :
  reconstruct_pairs turns = map dict_of_pair (spec_reconstruct turns).
Proof.
  rewrite reconstruct_pairs_finish.
  change (@nil (str * V)) with (dict_of_acc (@Empty V)).
  apply (scan_refines turns [] Empty).
Qed.
End ReconstructFacts.

Section ScanFacts.
Context {V : Type}.

Lemma spec_scan_length (turns : list (Turn V)) :
  forall acc,
    List.length (spec_scan acc turns)
    = (List.length (flush acc) + List.length (filter is_human turns))%nat.
Proof.
  induction turns as [|t rest IH]; intros acc; cbn [spec_scan filter].
  - rewrite Nat.add_0_r; reflexivity.
  - unfold is_human at 1.
    destruct (str_eqb (from t) (py "human")) eqn:Hh.
    + rewrite length_app, IH. simpl. lia.
    + destruct (str_eqb (from t) (py "gpt")); [destruct acc|];
        rewrite ?IH; simpl; rewrite ?IH; simpl; lia.
Qed.

Lemma spec_scan_questions (turns : list (Turn V)) :
  forall acc,
    map question (spec_scan acc turns)
    = map question (flush acc) ++ map value (filter is_human turns).
Proof.
  induction turns as [|t rest IH]; intros acc; cbn [spec_scan filter].
  - rewrite List.app_nil_r; reflexivity.
  - unfold is_human at 1.
    destruct (str_eqb (from t) (py "human")) eqn:Hh.
    + rewrite map_app, IH. simpl. reflexivity.
    + destruct (str_eqb (from t) (py "gpt")); [destruct acc|];
        cbn [map]; rewrite IH; reflexivity.
Qed.

Lemma dict_get_question (p : QAPair V) :
  dict_get (py "question") (dict_of_pair p) = Some (question p).
Proof. destruct p as [q [a|]]; reflexivity. Qed.

Lemma dict_get_answer (p : QAPair V) :
  dict_get (py "answer") (dict_of_pair p) = answer p.
Proof. destruct p as [q [a|]]; reflexivity. Qed.
End ScanFacts.

(** The scan commutes with any relabelling of the values. *)
Section ScanNatural.
Context {U V : Type} (f : U -> V).

Lemma spec_scan_natural (turns : list (Turn U)) :
  forall acc,
    spec_scan (acc_map f acc) (map (turn_map f) turns)
    = map (pair_map f) (spec_scan acc turns).
Proof.
  induction turns as [|t rest IH]; intros acc; cbn [spec_scan map].
  - destruct acc; reflexivity.
  - cbn [turn_map from value].
    destruct (str_eqb (from t) (py "human")).
    + rewrite map_app, <- (IH (HasQuestion (value t))).
      destruct acc; reflexivity.
    + destruct (str_eqb (from t) (py "gpt")); [destruct acc|];
        cbn [map acc_map]; rewrite <- ?IH; reflexivity.
Qed.

Lemma dict_of_pair_natural (p : QAPair U) :
  dict_of_pair (pair_map f p) = dict_map f (dict_of_pair p).
Proof. destruct p as [q [a|]]; reflexivity. Qed.

Lemma reconstruct_pairs_natural (turns : list (Turn U)) :
  reconstruct_pairs (map (turn_map f) turns)
  = map (dict_map f) (reconstruct_pairs turns).
Proof.
  rewrite !reconstruct_pairs_spec. unfold spec_reconstruct.
  change (@Empty V) with (acc_map f (@Empty U)).
  rewrite (spec_scan_natural turns Empty), !map_map.
  apply map_ext, dict_of_pair_natural.
Qed.
End ScanNatural.

Section Tagging.
Context {V : Type}.

Lemma tag_from_cons (n : nat) (t : Turn V) (rest : list (Turn V)) :
  tag_from n (t :: rest) = mkTurn (from t) (n, value t) :: tag_from (S n) rest.
Proof. reflexivity. Qed.

Lemma untag_from (turns : list (Turn V)) :
  forall n, map (turn_map snd) (tag_from n turns) = turns.
Proof.
  induction turns as [|t rest IH]; intros n; [reflexivity|].
  rewrite tag_from_cons. cbn [map]. rewrite IH.
  destruct t; reflexivity.
Qed.

Lemma nth_error_middle (pre rest : list (Turn V)) (t : Turn V) :
  nth_error (pre ++ t :: rest) (List.length pre) = Some t.
Proof.
  rewrite nth_error_app2 by lia. rewrite Nat.sub_diag. reflexivity.
Qed.

Lemma spec_scan_sourced (turns : list (Turn V)) :
  forall (pre : list (Turn V)) (acc : Accumulator (nat * V)),
    acc_sourced (pre ++ turns) (List.length pre) acc ->
    Forall (sourced (pre ++ turns))
           (spec_scan acc (tag_from (List.length pre) turns)).
Proof.
  induction turns as [|t rest IH]; intros pre acc Hacc.
  - destruct acc as [|[i q]]; cbn; constructor; [|constructor].
    split; [apply Hacc | exact I].
  - rewrite tag_from_cons. cbn [spec_scan from value].
    assert (Hlen : List.length (pre ++ [t]) = S (List.length pre))
      by (rewrite length_app; simpl; lia).
    assert (Hall : pre ++ t :: rest = (pre ++ [t]) ++ rest)
      by (rewrite <- app_assoc; reflexivity).
    pose proof (nth_error_middle pre rest t) as Hmid.
    destruct (str_eqb (from t) (py "human")) eqn:Hh.
    + apply str_eqb_eq in Hh. apply Forall_app; split.
      * destruct acc as [|[i q]]; cbn; constructor; [|constructor].
        split; [apply Hacc | exact I].
      * rewrite <- Hlen, Hall. apply IH. rewrite <- Hall, Hlen.
        cbn. split; [lia|]. rewrite Hmid, (turn_eta t), Hh. reflexivity.
    + destruct (str_eqb (from t) (py "gpt")) eqn:Hg.
      * apply str_eqb_eq in Hg. destruct acc as [|[i q]].
        -- rewrite <- Hlen, Hall. apply IH. exact I.
        -- constructor.
           ++ destruct Hacc as [Hlt Hq]. split; cbn; [exact Hq|].
              split; [exact Hlt|].
              rewrite Hmid, (turn_eta t), Hg. reflexivity.
           ++ rewrite <- Hlen, Hall. apply IH. exact I.
      * rewrite <- Hlen, Hall. apply IH. rewrite <- Hall, Hlen.
        destruct acc as [|[i q]]; [exact I|].
        destruct Hacc as [Hlt Hq]. split; [cbn in *; lia | exact Hq].
Qed.

Lemma untag_turns (turns : list (Turn V)) :
  map (turn_map snd) (tag_turns turns) = turns.
Proof. apply (untag_from turns 0%nat). Qed.

Lemma tagged_pairs_sourced (turns : list (Turn V)) :
  Forall (sourced turns) (spec_reconstruct (tag_turns turns)).
Proof. apply (spec_scan_sourced turns [] Empty). exact I. Qed.
End Tagging.

(** C2.  The pair reconstruction of [display_conversations] is the
    accumulator scan of the specification: on a [human] turn a pending
    question is flushed without an answer and the turn's value becomes the
    new pending question; on a [gpt] turn a pending question is completed
    with the turn's value and flushed, and without a pending question the
    turn is dropped; any other turn is skipped; at the end a pending
    question is flushed without an answer.  The dicts the program builds
    are exactly the pairs of that scan. *)
Theorem C2_reconstruct_is_accumulator_scan :
  forall (V : Type) (turns : list (Turn V)),
    reconstruct_pairs turns = map dict_of_pair (spec_reconstruct turns).
Proof. intros V turns. apply reconstruct_pairs_spec. Qed.

(** C8.  The scan yields one pair per [human] turn, in order: the number of
    pairs is the number of [human] turns and the pairs' questions are the
    values of the [human] turns.  Reading the scan on position-tagged turns
    (which erases to the plain scan), every pair's question is the value of
    the [human] turn at the tagged position, and a pair's answer is the
    value of a [gpt] turn at a strictly later position. *)
Theorem C8_one_pair_per_human_question_first :
  forall (V : Type) (turns : list (Turn V)),
    List.length (reconstruct_pairs turns)
      = List.length (filter is_human turns)
    /\ map (dict_get (py "question")) (reconstruct_pairs turns)
       = map (fun t => Some (value t)) (filter is_human turns)
    /\ reconstruct_pairs turns
       = map (dict_map snd) (reconstruct_pairs (tag_turns turns))
    /\ (forall (p : pydict (nat * V)) (j : nat) (a : V),
          In p (reconstruct_pairs (tag_turns turns)) ->
          dict_get (py "answer") p = Some (j, a) ->
          exists (i : nat) (q : V),
            dict_get (py "question") p = Some (i, q)
            /\ (i < j)%nat
            /\ nth_error turns i = Some (human q)
            /\ nth_error turns j = Some (gpt a)).
Proof.
  intros V turns. repeat split.
  - rewrite reconstruct_pairs_spec, length_map.
    unfold spec_reconstruct. rewrite spec_scan_length. reflexivity.
  - rewrite reconstruct_pairs_spec, map_map.
    rewrite (map_ext _ (fun p => Some (question p)))
      by (intros p; apply dict_get_question).
    rewrite <- (map_map question Some).
    unfold spec_reconstruct. rewrite spec_scan_questions. cbn [flush map app].
    rewrite map_map. reflexivity.
  - rewrite <- reconstruct_pairs_natural, untag_turns. reflexivity.
  - intros p j a Hin Ha.
    rewrite reconstruct_pairs_spec in Hin. apply in_map_iff in Hin.
    destruct Hin as [p' [<- Hin]].
    pose proof (tagged_pairs_sourced turns) as Hall.
    rewrite Forall_forall in Hall. specialize (Hall p' Hin).
    rewrite dict_get_answer in Ha. destruct Hall as [Hq Hans].
    rewrite Ha in Hans. destruct Hans as [Hlt Hj].
    exists (fst (question p')), (snd (question p')).
    rewrite dict_get_question. destruct (question p'); cbn in *. auto.
Qed.

(** A first answer must come after a first question: checked on three
    turns with a stray turn between question and answer. *)
Lemma C8_witness :
  In [(py "question", (0%nat, py "Q")); (py "answer", (2%nat, py "A"))]
     (reconstruct_pairs
        (tag_turns [human (py "Q"); mkTurn (py "system") (py "S");
                    gpt (py "A")]))
  /\ exists (i : nat) (q : str),
       dict_get (py "question")
         [(py "question", (0%nat, py "Q")); (py "answer", (2%nat, py "A"))]
       = Some (i, q)
       /\ (i < 2)%nat
       /\ nth_error [human (py "Q"); mkTurn (py "system") (py "S");
                     gpt (py "A")] i = Some (human q)
       /\ nth_error [human (py "Q"); mkTurn (py "system") (py "S");
                     gpt (py "A")] 2 = Some (gpt (py "A")).
Proof.
  split; [left; reflexivity|].
  apply (proj2 (proj2 (proj2 (C8_one_pair_per_human_question_first str
           [human (py "Q"); mkTurn (py "system") (py "S"); gpt (py "A")])))).
  - left; reflexivity.
  - reflexivity.
Defined.

(** ** The editor form *)

Lemma list_pair_ind {A} (P : list A -> Prop) :
  P [] -> (forall a, P [a]) -> (forall a b l, P l -> P (a :: b :: l)) ->
  forall l, P l.
Proof.
  intros H0 H1 H2 l.
  enough (H : P l /\ forall a, P (a :: l)) by apply H.
  induction l as [|x l [IHl IHx]]; split; auto.
Qed.

Lemma paired_app {V} (a b : list (Turn V)) :
  paired a = true -> paired b = true -> paired (a ++ b) = true.
Proof.
  induction a as [|x|x y a IH] using list_pair_ind; intros Ha Hb.
  - exact Hb.
  - discriminate.
  - cbn [paired app] in *. apply andb_true_iff in Ha. destruct Ha as [-> Ha].
    cbn. auto.
Qed.

Lemma paired_flat_map {A V} (f : A -> list (Turn V)) (l : list A) :
  (forall x, paired (f x) = true) -> paired (flat_map f l) = true.
Proof.
  intros Hf. induction l as [|x l IH]; [reflexivity|].
  cbn [flat_map]. apply paired_app; auto.
Qed.

Lemma paired_positions {V} (l : list (Turn V)) :
  paired l = true ->
  Nat.even (List.length l) = true
  /\ forall i t, nth_error l i = Some t ->
       from t = if Nat.even i then py "human" else py "gpt".
Proof.
  induction l as [|x|x y l IH] using list_pair_ind; intros H.
  - split; [reflexivity|]. intros [|i] t Hi; discriminate.
  - discriminate.
  - cbn [paired] in H. rewrite !andb_true_iff in H.
    destruct H as [[Hx Hy] Hl]. apply str_eqb_eq in Hx, Hy.
    destruct (IH Hl) as [Hev Hpos]. split; [exact Hev|].
    intros [|[|i]] t Hi; cbn in Hi.
    + injection Hi as <-. exact Hx.
    + injection Hi as <-. exact Hy.
    + apply (Hpos i t Hi).
Qed.

Lemma edit_pair_paired (ui : Reviewer) (ip : nat * pydict str) :
  paired (edit_pair ui ip) = true.
Proof. destruct ip; reflexivity. Qed.

Lemma new_pair_paired (ui : Reviewer) (i : nat) :
  paired (new_pair ui i) = true.
Proof. unfold new_pair. destruct (_ || _); reflexivity. Qed.

Lemma display_conversations_paired (ui : Reviewer)
  (conversations : list (Turn str)) :
  paired (display_conversations ui conversations) = true.
Proof.
  unfold display_conversations. apply paired_app; apply paired_flat_map.
  - apply edit_pair_paired.
  - apply new_pair_paired.
Qed.

Lemma flat_map_length_const {A B} (f : A -> list B) (n : nat) (l : list A) :
  (forall x, List.length (f x) = n) ->
  List.length (flat_map f l) = (n * List.length l)%nat.
Proof.
  intros Hf. induction l as [|x l IH]; cbn [flat_map List.length]; [lia|].
  rewrite length_app, Hf, IH. lia.
Qed.

Lemma new_pairs_length (ui : Reviewer) (l : list nat) :
  List.length (flat_map (new_pair ui) l)
  = (2 * List.length (filter (new_slot_filled ui) l))%nat.
Proof.
  induction l as [|i l IH]; [reflexivity|].
  cbn [flat_map filter]. rewrite length_app, IH.
  unfold new_pair, new_slot_filled.
  destruct (_ || _); cbn [List.length]; lia.
Qed.

Lemma enumerate_length {A} (l : list A) (start : nat) :
  List.length (enumerate l start) = List.length l.
Proof.
  unfold enumerate. rewrite length_combine, length_seq. apply Nat.min_id.
Qed.

(** C9.  Whatever the input turns and whatever the reviewer does, the turn
    list returned by the editor has even length, and its entries at even
    positions are [human] turns and at odd positions [gpt] turns. *)
Theorem C9_merge_alternates :
  forall (ui : Reviewer) (conversations : list (Turn str)),
    Nat.even (List.length (display_conversations ui conversations)) = true
    /\ forall (i : nat) (t : Turn str),
         nth_error (display_conversations ui conversations) i = Some t ->
         from t = if Nat.even i then py "human" else py "gpt".
Proof.
  intros ui conversations.
  apply paired_positions, display_conversations_paired.
Qed.

Lemma C9_witness :
  nth_error
    (display_conversations (untouched 1)
       [gpt (py "orphan"); human (py "Q1"); human (py "Q2")]) 3
  = Some (gpt [])
  /\ from (gpt (@nil char)) = py "gpt".
Proof.
  split; [reflexivity|].
  apply (proj2 (C9_merge_alternates (untouched 1)
           [gpt (py "orphan"); human (py "Q1"); human (py "Q2")]) 3%nat).
  reflexivity.
Defined.

(** C6.  A new-pair slot whose question and answer fields are both empty
    contributes no turn to the returned list; a slot with text in at least
    one field contributes a [human] turn and a [gpt] turn holding the two
    fields as typed (so one of them may be the empty string).  The returned
    list therefore has two turns per reconstructed pair plus two per filled
    slot.  With one existing pair retyped to newQ / newA and one new slot
    left empty the result is exactly the two turns [human newQ; gpt newA]. *)
Theorem C6_empty_new_pairs_dropped :
  forall (ui : Reviewer) (conversations : list (Turn str)),
    (forall i : nat,
        let q_value := text_input ui (fkey "new_q" i) [] in
        let a_value := text_input ui (fkey "new_a" i) [] in
        (q_value = [] -> a_value = [] -> new_pair ui i = [])
        /\ (q_value <> [] \/ a_value <> [] ->
            new_pair ui i = [human q_value; gpt a_value]))
    /\ display_conversations ui conversations
       = flat_map (edit_pair ui) (enumerate (reconstruct_pairs conversations) 1)
         ++ flat_map (new_pair ui)
              (filter (new_slot_filled ui) (seq 0 (number_input ui)))
    /\ List.length (display_conversations ui conversations)
       = (2 * List.length (reconstruct_pairs conversations)
          + 2 * List.length (filter (new_slot_filled ui)
                               (seq 0 (number_input ui))))%nat
    /\ display_conversations
         (reviewer_of [(py "q1", py "newQ"); (py "a1", py "newA")] 1)
         [human (py "Q"); gpt (py "A")]
       = [human (py "newQ"); gpt (py "newA")].
Proof.
  intros ui conversations. split; [|split; [|split; [|reflexivity]]].
  - intros i. cbv zeta. unfold new_pair. split.
    + intros -> ->. reflexivity.
    + intros H.
      destruct (text_input ui (fkey "new_q" i) []),
               (text_input ui (fkey "new_a" i) []); try reflexivity.
      destruct H; congruence.
  - unfold display_conversations. f_equal.
    induction (seq 0 (number_input ui)) as [|i l IH]; [reflexivity|].
    cbn [flat_map filter]. rewrite IH.
    destruct (new_slot_filled ui i) eqn:E; [reflexivity|].
    unfold new_pair at 1. unfold new_slot_filled in E. rewrite E.
    reflexivity.
  - unfold display_conversations.
    rewrite length_app, new_pairs_length.
    rewrite (flat_map_length_const (edit_pair ui) 2)
      by (intros [i d]; reflexivity).
    rewrite enumerate_length. reflexivity.
Qed.

Lemma C6_witness :
  new_pair (reviewer_of [(py "new_a0", py "only an answer")] 1) 0
  = [human []; gpt (py "only an answer")].
Proof.
  apply (proj2 (proj1 (C6_empty_new_pairs_dropped
           (reviewer_of [(py "new_a0", py "only an answer")] 1) []) 0%nat)).
  right. discriminate.
Defined.

(** ** JSON text *)

Lemma json_ind (P : json -> Prop) :
  P JNull ->
  (forall b, P (JBool b)) ->
  (forall z, P (JInt z)) ->
  (forall s, P (JStr s)) ->
  (forall items, Forall P items -> P (JArr items)) ->
  (forall members, Forall (fun kv => P (snd kv)) members -> P (JObj members)) ->
  forall v, P v.
Proof.
  intros Hnull Hbool Hint Hstr Harr Hobj.
  fix IH 1. intros [ |b|z|s|items|members].
  - exact Hnull.
  - apply Hbool.
  - apply Hint.
  - apply Hstr.
  - apply Harr. induction items as [|x items IHitems]; constructor.
    + apply IH.
    + exact IHitems.
  - apply Hobj. induction members as [|[k x] members IHm]; constructor.
    + apply IH.
    + exact IHm.
Qed.

(** *** String literals *)

Lemma small_char_cases (c : Z) :
  0 <= c < 32 ->
  c = 0 \/ c = 1 \/ c = 2 \/ c = 3 \/ c = 4 \/ c = 5 \/ c = 6 \/ c = 7
  \/ c = 8 \/ c = 9 \/ c = 10 \/ c = 11 \/ c = 12 \/ c = 13 \/ c = 14
  \/ c = 15 \/ c = 16 \/ c = 17 \/ c = 18 \/ c = 19 \/ c = 20 \/ c = 21
  \/ c = 22 \/ c = 23 \/ c = 24 \/ c = 25 \/ c = 26 \/ c = 27 \/ c = 28
  \/ c = 29 \/ c = 30 \/ c = 31.
Proof. lia. Qed.

Lemma scanstring_escape_char (c : char) (r : str) :
  0 <= c ->
  scanstring (escape_char c ++ r) = cons_char c (scanstring r).
Proof.
  intros Hc. destruct (Z_lt_ge_dec c 32) as [Hlt|Hge].
  - assert (H : 0 <= c < 32) by lia. apply small_char_cases in H.
    repeat (destruct H as [->|H]; [reflexivity|]). subst c. reflexivity.
  - unfold escape_char.
    destruct (c =? 34) eqn:E34; [apply Z.eqb_eq in E34; subst c; reflexivity|].
    destruct (c =? 92) eqn:E92; [apply Z.eqb_eq in E92; subst c; reflexivity|].
    assert (Hn : forall k, k < 32 -> (c =? k) = false)
      by (intros k Hk; apply Z.eqb_neq; lia).
    rewrite !Hn by lia.
    assert (H32 : (c <? 32) = false) by (apply Z.ltb_ge; lia).
    rewrite H32. cbn [app scanstring]. rewrite E34, E92, H32. reflexivity.
Qed.

Lemma scanstring_body (s : str) (rest : str) :
  forallb valid_char s = true ->
  scanstring (flat_map escape_char s ++ 34 :: rest) = Some (s, rest).
Proof.
  induction s as [|c s IH]; intros Hs; [reflexivity|].
  cbn [forallb] in Hs. apply andb_true_iff in Hs. destruct Hs as [Hc Hs].
  cbn [flat_map]. rewrite <- app_assoc, scanstring_escape_char, (IH Hs).
  - reflexivity.
  - unfold valid_char in Hc. apply andb_true_iff in Hc. lia.
Qed.

(** *** Integer literals *)

Lemma uint_chars_digits (u : Decimal.uint) :
  forallb is_digit (uint_chars u) = true.
Proof. induction u; cbn [uint_chars forallb]; rewrite ?IHu; reflexivity. Qed.

Lemma chars_uint_chars (u : Decimal.uint) : chars_uint (uint_chars u) = u.
Proof.
  unfold chars_uint.
  induction u; cbn [uint_chars fold_right]; rewrite ?IHu; reflexivity.
Qed.

Lemma delimited_not_digit (rest : str) :
  delimited rest = true ->
  match rest with [] => True | c :: _ => is_digit c = false end.
Proof.
  destruct rest as [|c rest]; [trivial|]. unfold delimited, is_digit.
  rewrite !orb_true_iff, !Z.eqb_eq. intros H.
  apply andb_false_iff. rewrite Z.leb_gt, Z.leb_gt. lia.
Qed.

Lemma delimited_int_follows (rest : str) :
  delimited rest = true -> int_follows rest = true.
Proof.
  destruct rest as [|c rest]; [trivial|]. unfold delimited, int_follows.
  rewrite !orb_true_iff, !Z.eqb_eq. intros H.
  apply negb_true_iff. rewrite !orb_false_iff, !Z.eqb_neq. lia.
Qed.

Lemma take_digits_app (ds rest : str) :
  forallb is_digit ds = true ->
  match rest with [] => True | c :: _ => is_digit c = false end ->
  take_digits (ds ++ rest) = (ds, rest).
Proof.
  intros Hds Hrest. induction ds as [|d ds IH].
  - destruct rest as [|c rest]; [reflexivity|]. cbn. rewrite Hrest. reflexivity.
  - cbn [forallb] in Hds. apply andb_true_iff in Hds. destruct Hds as [Hd Hds].
    cbn [app take_digits]. rewrite Hd, (IH Hds). reflexivity.
Qed.

(** The digits of a positive number start with a non-zero digit. *)
Lemma pos_uint_chars_head (p : positive) :
  exists c cs,
    uint_chars (Pos.to_uint p) = c :: cs
    /\ is_digit c = true /\ (c =? 48) = false.
Proof.
  pose proof (DecimalPos.Unsigned.to_uint_nonnil p) as Hnil.
  pose proof (DecimalPos.Unsigned.to_uint_nonzero p) as Hzero.
  assert (Hnorm : Decimal.unorm (Pos.to_uint p) = Pos.to_uint p).
  { rewrite <- DecimalPos.Unsigned.to_of, DecimalPos.Unsigned.of_to.
    reflexivity. }
  destruct (Pos.to_uint p) as [|u|u|u|u|u|u|u|u|u|u] eqn:E;
    try (eexists; eexists; split; [reflexivity|split; reflexivity]).
  - congruence.
  - exfalso. unfold Decimal.unorm in Hnorm. cbn [Decimal.nzhead] in Hnorm.
    destruct (Decimal.nzhead u) as [|u0|u0|u0|u0|u0|u0|u0|u0|u0|u0] eqn:En;
      try discriminate Hnorm.
    + injection Hnorm as Hu. subst u. apply Hzero. reflexivity.
    + apply (DecimalFacts.nzhead_nonzero u u0). exact En.
Qed.

Lemma parse_digits_pos (p : positive) (rest : str) :
  delimited rest = true ->
  parse_digits (uint_chars (Pos.to_uint p) ++ rest) = Some (Z.pos p, rest).
Proof.
  intros Hrest.
  destruct (pos_uint_chars_head p) as [c [cs [E [Hd H0]]]].
  pose proof (uint_chars_digits (Pos.to_uint p)) as Hall.
  pose proof (chars_uint_chars (Pos.to_uint p)) as Hback.
  rewrite E in Hall, Hback |- *. cbn [forallb] in Hall.
  apply andb_true_iff in Hall. destruct Hall as [_ Hcs].
  cbn [app]. unfold parse_digits. rewrite H0, Hd.
  rewrite (take_digits_app cs rest Hcs (delimited_not_digit rest Hrest)).
  rewrite (delimited_int_follows rest Hrest), Hback.
  unfold Z.of_uint. rewrite DecimalPos.Unsigned.of_to. reflexivity.
Qed.

Lemma parse_int_repr (z : Z) (rest : str) :
  delimited rest = true ->
  parse_int (int_repr z ++ rest) = Some (JInt z, rest).
Proof.
  intros Hrest. destruct z as [|p|p]; unfold int_repr; cbn [Z.to_int].
  - cbn. rewrite (delimited_int_follows rest Hrest). reflexivity.
  - destruct (pos_uint_chars_head p) as [c [cs [E [Hd H0]]]].
    pose proof (parse_digits_pos p rest Hrest) as Hp.
    rewrite E in Hp |- *. cbn [app] in Hp |- *. unfold parse_int.
    assert (H45 : (c =? 45) = false).
    { unfold is_digit in Hd. apply andb_true_iff in Hd.
      apply Z.eqb_neq. lia. }
    rewrite H45, Hp. reflexivity.
  - cbn [app]. unfold parse_int. rewrite Z.eqb_refl.
    rewrite (parse_digits_pos p rest Hrest). reflexivity.
Qed.

(** *** The shape of serialized values *)

Lemma int_repr_head (z : Z) :
  exists c cs, int_repr z = c :: cs /\ ((c =? 45) || is_digit c) = true.
Proof.
  destruct z as [|p|p]; unfold int_repr; cbn [Z.to_int].
  - eexists; eexists; split; reflexivity.
  - destruct (pos_uint_chars_head p) as [c [cs [E [Hd _]]]].
    exists c, cs. rewrite E, Hd, orb_true_r. auto.
  - eexists; eexists; split; reflexivity.
Qed.

Lemma json_dumps_head (v : json) :
  exists c tl, json_dumps v = c :: tl /\ value_start c = true.
Proof.
  destruct v as [ |[|]|z|s|items|members];
    try (eexists; eexists; split; reflexivity).
  destruct (int_repr_head z) as [c [cs [E H]]]. exists c, cs.
  split; [exact E|]. unfold value_start.
  apply orb_true_iff in H. destruct H as [-> | ->];
    rewrite ?orb_true_r; reflexivity.
Qed.

Lemma value_start_cases (c : char) :
  value_start c = true ->
  c = 34 \/ c = 45 \/ 48 <= c <= 57 \/ c = 91 \/ c = 102 \/ c = 110
  \/ c = 116 \/ c = 123.
Proof.
  unfold value_start, is_digit.
  rewrite !orb_true_iff, andb_true_iff, !Z.eqb_eq, !Z.leb_le. tauto.
Qed.

Lemma value_start_not_ws (c : char) :
  value_start c = true -> is_json_ws c = false.
Proof.
  intros H. apply value_start_cases in H. unfold is_json_ws.
  rewrite !orb_false_iff, !Z.eqb_neq. lia.
Qed.

Lemma skip_ws_stop (c : char) (r : str) :
  is_json_ws c = false -> skip_ws (c :: r) = c :: r.
Proof. intros H. cbn. rewrite H. reflexivity. Qed.

Lemma skip_ws_dumps (v : json) (rest : str) :
  skip_ws (json_dumps v ++ rest) = json_dumps v ++ rest.
Proof.
  destruct (json_dumps_head v) as [c [tl [E H]]]. rewrite E. cbn [app].
  apply skip_ws_stop, value_start_not_ws, H.
Qed.

Lemma join_cons2 (sep a b : str) (l : list str) :
  join sep (a :: b :: l) = a ++ sep ++ join sep (b :: l).
Proof. reflexivity. Qed.

(** *** Dictionaries built from distinct keys *)

Lemma dict_set_fresh {V} (k : str) (v : V) (d : pydict V) :
  dict_in k d = false -> dict_set k v d = d ++ [(k, v)].
Proof.
  unfold dict_in. induction d as [|[k' v'] d IH]; intros H; [reflexivity|].
  cbn [dict_get dict_set app] in *.
  destruct (str_eqb k k'); [discriminate|]. rewrite IH by exact H. reflexivity.
Qed.

Lemma dict_in_app {V} (k : str) (a b : pydict V) :
  dict_in k (a ++ b) = dict_in k a || dict_in k b.
Proof.
  unfold dict_in. induction a as [|[k' v'] a IH]; [reflexivity|].
  cbn [app dict_get]. destruct (str_eqb k k'); [reflexivity | exact IH].
Qed.

Lemma str_eqb_sym (a b : str) : str_eqb a b = str_eqb b a.
Proof.
  destruct (str_eqb a b) eqn:E.
  - apply str_eqb_eq in E. subst. symmetry. apply str_eqb_refl.
  - destruct (str_eqb b a) eqn:E'; [|reflexivity].
    apply str_eqb_eq in E'. subst. rewrite str_eqb_refl in E. discriminate.
Qed.

Lemma dict_of_pairs_from {V} (pairs : pydict V) :
  forall acc : pydict V,
    unique_keys pairs = true ->
    (forall k, dict_in k pairs = true -> dict_in k acc = false) ->
    fold_left (fun d kv => dict_set (fst kv) (snd kv) d) pairs acc
    = acc ++ pairs.
Proof.
  induction pairs as [|[k v] pairs IH]; intros acc Hu Hfresh.
  - rewrite List.app_nil_r. reflexivity.
  - cbn [unique_keys] in Hu. apply andb_true_iff in Hu.
    destruct Hu as [Hk Hu]. apply negb_true_iff in Hk.
    cbn [fold_left fst snd]. rewrite dict_set_fresh.
    + rewrite IH; [rewrite <- app_assoc; reflexivity | exact Hu |].
      intros k' Hk'. rewrite dict_in_app. apply orb_false_iff. split.
      * apply Hfresh. unfold dict_in in *. cbn [dict_get].
        destruct (str_eqb k' k); [reflexivity | exact Hk'].
      * unfold dict_in. cbn [dict_get].
        destruct (str_eqb k' k) eqn:E; [|reflexivity].
        apply str_eqb_eq in E. subst k'. congruence.
    + apply Hfresh. unfold dict_in. cbn [dict_get].
      rewrite str_eqb_refl. reflexivity.
Qed.

Lemma dict_of_pairs_unique {V} (pairs : pydict V) :
  unique_keys pairs = true -> dict_of_pairs pairs = pairs.
Proof.
  intros Hu. unfold dict_of_pairs.
  rewrite dict_of_pairs_from; [reflexivity | exact Hu | reflexivity].
Qed.

(** *** Decoding a serialized value *)

Lemma parse_value_string (f : nat) (r : str) :
  parse_value (S f) (34 :: r)
  = match scanstring r with
    | Some (t, rest) => Some (JStr t, rest)
    | None => None
    end.
Proof. reflexivity. Qed.

Lemma parse_value_array (f : nat) (r : str) :
  parse_value (S f) (91 :: r)
  = match skip_ws r with
    | c' :: r' =>
        if c' =? 93 then Some (JArr [], r')
        else
          match parse_items f (c' :: r') with
          | Some (items, rest) => Some (JArr items, rest)
          | None => None
          end
    | [] => None
    end.
Proof. reflexivity. Qed.

Lemma parse_value_object (f : nat) (r : str) :
  parse_value (S f) (123 :: r)
  = match skip_ws r with
    | c' :: r' =>
        if c' =? 125 then Some (JObj [], r')
        else
          match parse_members f (c' :: r') with
          | Some (pairs, rest) => Some (JObj (dict_of_pairs pairs), rest)
          | None => None
          end
    | [] => None
    end.
Proof. reflexivity. Qed.

Lemma parse_value_number (f : nat) (c : char) (r : str) :
  ((c =? 45) || is_digit c) = true ->
  parse_value (S f) (c :: r) = parse_int (c :: r).
Proof.
  intros H.
  assert (Hc : c = 45 \/ 48 <= c <= 57).
  { unfold is_digit in H.
    rewrite orb_true_iff, andb_true_iff, Z.eqb_eq, !Z.leb_le in H. tauto. }
  assert (Hn : forall k, k <> 45 -> ~ 48 <= k <= 57 -> (c =? k) = false)
    by (intros k H1 H2; apply Z.eqb_neq; lia).
  cbn [parse_value]. rewrite !Hn by lia. unfold parse_scalar.
  assert (E : forall k lit, k <> 45 -> ~ 48 <= k <= 57 ->
                strip_prefix (k :: lit) (c :: r) = None).
  { intros k lit H1 H2. cbn. rewrite Z.eqb_sym, Hn by assumption.
    reflexivity. }
  unfold py. cbn [list_ascii_of_string map nat_of_ascii].
  rewrite !E by (cbn; lia). reflexivity.
Qed.

Lemma parse_items_step (f : nat) (s : str) :
  parse_items (S f) s
  = match parse_value f s with
    | None => None
    | Some (v, r) =>
        match skip_ws r with
        | c :: r' =>
            if c =? 93 then Some ([v], r')
            else if c =? 44 then
              match parse_items f (skip_ws r') with
              | Some (vs, rest) => Some (v :: vs, rest)
              | None => None
              end
            else None
        | [] => None
        end
    end.
Proof. reflexivity. Qed.

Lemma parse_members_step (f : nat) (r : str) :
  parse_members (S f) (34 :: r)
  = match scanstring r with
    | None => None
    | Some (k, r1) =>
        match skip_ws r1 with
        | colon :: r2 =>
            if colon =? 58 then
              match parse_value f (skip_ws r2) with
              | None => None
              | Some (v, r3) =>
                  match skip_ws r3 with
                  | c :: r4 =>
                      if c =? 125 then Some ([(k, v)], r4)
                      else if c =? 44 then
                        match parse_members f (skip_ws r4) with
                        | Some (kvs, rest) => Some ((k, v) :: kvs, rest)
                        | None => None
                        end
                      else None
                  | [] => None
                  end
              end
            else None
        | [] => None
        end
    end.
Proof. reflexivity. Qed.

Lemma parse_items_dumps (items : list json) :
  forall (x : json),
    Forall decodes (x :: items) ->
    forallb (json_chars valid_char) (x :: items) = true ->
    forallb json_unique_keys (x :: items) = true ->
    forall (fuel : nat) (rest : str),
      (list_sum (map (fun y => S (json_size y)) (x :: items)) <= fuel)%nat ->
      parse_items fuel
        (join (py ", ") (map json_dumps (x :: items)) ++ 93 :: rest)
      = Some (x :: items, rest).
Proof.
  induction items as [|y items IH]; intros x Hdec Hch Hku fuel rest Hfuel;
    inversion Hdec as [|? ? Hx Hrest]; subst;
    cbn [forallb] in Hch, Hku;
    apply andb_true_iff in Hch; destruct Hch as [Hcx Hch];
    apply andb_true_iff in Hku; destruct Hku as [Hkx Hku];
    cbn [map list_sum fold_right] in Hfuel;
    (destruct fuel as [|f]; [lia|]); rewrite parse_items_step.
  - cbn [map join].
    rewrite (Hx Hcx Hkx f (93 :: rest)) by (reflexivity || lia).
    reflexivity.
  - cbn [map]. rewrite join_cons2, <- !app_assoc.
    rewrite (Hx Hcx Hkx f) by (reflexivity || lia).
    change (py ", " ++ ?t) with (44 :: 32 :: t).
    cbn [skip_ws is_json_ws Z.eqb Pos.eqb orb].
    change (44 :: 32 :: ?t) with ([44; 32] ++ t).
    cbn [app]. rewrite <- (map_cons json_dumps y items).
    destruct (json_dumps_head y) as [c [tl [E Hc]]].
    assert (Hskip : forall t,
      skip_ws (join (py ", ") (map json_dumps (y :: items)) ++ t)
      = join (py ", ") (map json_dumps (y :: items)) ++ t).
    { intros t. cbn [map]. destruct items as [|z items'].
      - cbn [map join]. apply skip_ws_dumps.
      - cbn [map]. rewrite join_cons2, <- app_assoc. apply skip_ws_dumps. }
    rewrite Hskip.
    rewrite (IH y Hrest) by (assumption || (cbn [map list_sum fold_right]; lia)).
    reflexivity.
Qed.

Lemma member_text_app (k : str) (x : json) (t : str) :
  member_text (k, x) ++ t
  = 34 :: flat_map escape_char k ++ 34 :: 58 :: 32 :: json_dumps x ++ t.
Proof.
  unfold member_text, encode_basestring. cbn [fst snd].
  change (py ": ") with [58; 32].
  rewrite <- !app_assoc. reflexivity.
Qed.

Lemma members_text_app (kv : str * json) (members : list (str * json))
  (t : str) :
  exists tl,
    join (py ", ") (map member_text (kv :: members)) ++ t = 34 :: tl.
Proof.
  destruct kv as [k x]. destruct members as [|m members].
  - cbn [map join]. rewrite member_text_app. eexists; reflexivity.
  - cbn [map]. rewrite join_cons2, <- app_assoc, member_text_app.
    eexists; reflexivity.
Qed.

Lemma parse_members_dumps (members : list (str * json)) :
  forall (kv : str * json),
    Forall (fun m => decodes (snd m)) (kv :: members) ->
    forallb (fun m => forallb valid_char (fst m)
                      && json_chars valid_char (snd m)) (kv :: members)
    = true ->
    forallb (fun m => json_unique_keys (snd m)) (kv :: members) = true ->
    forall (fuel : nat) (rest : str),
      (list_sum (map (fun m => S (json_size (snd m))) (kv :: members))
       <= fuel)%nat ->
      parse_members fuel
        (join (py ", ") (map member_text (kv :: members)) ++ 125 :: rest)
      = Some (kv :: members, rest).
Proof.
  induction members as [|m members IH];
    intros [k x] Hdec Hch Hku fuel rest Hfuel;
    inversion Hdec as [|? ? Hx Hrest]; subst;
    cbn [forallb fst snd] in Hch, Hku, Hx;
    apply andb_true_iff in Hch; destruct Hch as [Hcx Hch];
    apply andb_true_iff in Hcx; destruct Hcx as [Hk Hcx];
    apply andb_true_iff in Hku; destruct Hku as [Hkx Hku];
    cbn [map list_sum fold_right snd] in Hfuel;
    (destruct fuel as [|f]; [lia|]).
  - cbn [map join]. rewrite member_text_app, parse_members_step.
    rewrite (scanstring_body k _ Hk).
    cbn [skip_ws is_json_ws Z.eqb Pos.eqb orb].
    rewrite skip_ws_dumps.
    rewrite (Hx Hcx Hkx f (125 :: rest)) by (reflexivity || lia).
    reflexivity.
  - cbn [map]. rewrite join_cons2, <- !app_assoc.
    rewrite member_text_app, parse_members_step.
    rewrite (scanstring_body k _ Hk).
    cbn [skip_ws is_json_ws Z.eqb Pos.eqb orb].
    rewrite skip_ws_dumps.
    change (py ", " ++ ?t) with (44 :: 32 :: t).
    rewrite (Hx Hcx Hkx f) by (reflexivity || lia).
    cbn [skip_ws is_json_ws Z.eqb Pos.eqb orb].
    rewrite <- (map_cons member_text m members).
    destruct (members_text_app m members (125 :: rest)) as [tl Etl].
    rewrite Etl at 1. cbn [skip_ws is_json_ws Z.eqb Pos.eqb orb].
    rewrite <- Etl.
    rewrite (IH m Hrest)
      by (assumption || (cbn [map list_sum fold_right]; lia)).
    reflexivity.
Qed.

Lemma forallb_Forall {A} (f : A -> bool) (l : list A) :
  forallb f l = true <-> Forall (fun x => f x = true) l.
Proof.
  rewrite forallb_forall, Forall_forall. reflexivity.
Qed.

Theorem parse_value_dumps (v : json) : decodes v.
Proof.
  induction v as [ |b|z|s|items IH|members IH] using json_ind;
    intros Hch Hku fuel rest Hfuel Hrest;
    (destruct fuel as [|f]; [cbn in Hfuel; lia|]).
  - reflexivity.
  - destruct b; reflexivity.
  - destruct (int_repr_head z) as [c [cs [E Hc]]].
    cbn [json_dumps]. pose proof (parse_int_repr z rest Hrest) as Hp.
    rewrite E in Hp |- *. cbn [app] in Hp |- *.
    rewrite parse_value_number by exact Hc. exact Hp.
  - cbn [json_dumps json_chars] in *. unfold encode_basestring.
    rewrite <- !app_assoc. cbn [app]. rewrite parse_value_string.
    rewrite (scanstring_body s rest Hch). reflexivity.
  - cbn [json_dumps json_chars json_unique_keys json_size] in *.
    change (py "[" ++ ?t) with (91 :: t). cbn [app].
    change (py "]") with [93]. rewrite <- app_assoc. cbn [app].
    rewrite parse_value_array.
    destruct items as [|x items]; [reflexivity|].
    destruct (json_dumps_head x) as [c [tl [E Hc]]].
    assert (Hhd : exists tl',
      join (py ", ") (map json_dumps (x :: items)) ++ 93 :: rest = c :: tl').
    { cbn [map]. rewrite E. destruct items; cbn; eexists; reflexivity. }
    destruct Hhd as [tl' Etl]. rewrite Etl.
    rewrite (skip_ws_stop c tl' (value_start_not_ws c Hc)).
    assert (H93 : (c =? 93) = false).
    { apply value_start_cases in Hc. apply Z.eqb_neq. lia. }
    rewrite H93, <- Etl.
    rewrite (parse_items_dumps items x IH Hch Hku) by lia.
    reflexivity.
  - cbn [json_dumps json_chars json_unique_keys json_size] in *.
    apply andb_true_iff in Hku. destruct Hku as [Huniq Hku].
    change (py "{" ++ ?t) with (123 :: t). cbn [app].
    change (py "}") with [125]. rewrite <- app_assoc. cbn [app].
    rewrite parse_value_object.
    destruct members as [|kv members]; [reflexivity|].
    change (map (fun kv0 => encode_basestring (fst kv0) ++ py ": "
                            ++ json_dumps (snd kv0)) (kv :: members))
      with (map member_text (kv :: members)).
    destruct (members_text_app kv members (125 :: rest)) as [tl Etl].
    rewrite Etl. cbn [skip_ws is_json_ws Z.eqb Pos.eqb orb].
    rewrite <- Etl.
    rewrite (parse_members_dumps members kv IH Hch Hku) by lia.
    rewrite (dict_of_pairs_unique _ Huniq). reflexivity.
Qed.

(** *** The characters of a serialized value *)

Ltac bool_to_prop :=
  repeat first
    [ rewrite andb_true_iff | rewrite andb_false_iff
    | rewrite orb_true_iff | rewrite orb_false_iff
    | rewrite negb_true_iff | rewrite negb_false_iff
    | rewrite Z.leb_le | rewrite Z.leb_gt
    | rewrite Z.ltb_lt | rewrite Z.ltb_ge
    | rewrite Z.eqb_eq | rewrite Z.eqb_neq ].

Ltac bool_lia := bool_to_prop; lia.

Lemma forallb_join (Q : Z -> bool) (sep : str) (parts : list str) :
  forallb Q sep = true ->
  Forall (fun p => forallb Q p = true) parts ->
  forallb Q (join sep parts) = true.
Proof.
  intros Hsep Hparts. induction Hparts as [|p parts Hp Hparts IH].
  - reflexivity.
  - destruct parts as [|q parts]; [exact Hp|].
    rewrite join_cons2, !forallb_app, Hp, Hsep, IH. reflexivity.
Qed.

Section DumpsChars.
Variables P Q : Z -> bool.
Hypothesis printable : forall c, 32 <= c < 127 -> Q c = true.
Hypothesis others :
  forall c, 127 <= c -> valid_char c = true -> P c = true -> Q c = true.

Lemma escape_char_chars (c : Z) :
  valid_char c = true -> P c = true -> forallb Q (escape_char c) = true.
Proof using printable others.
  intros Hv HP.
  assert (Hc : 0 <= c) by (unfold valid_char in Hv; revert Hv; bool_lia).
  destruct (Z_lt_ge_dec c 32) as [Hlt|Hge].
  - assert (H : 0 <= c < 32) by lia. apply small_char_cases in H.
    repeat (destruct H as [->|H];
            [cbn; rewrite ?printable by lia; reflexivity|]).
    subst c. cbn. rewrite ?printable by lia. reflexivity.
  - unfold escape_char.
    destruct (c =? 34); [cbn; rewrite ?printable by lia; reflexivity|].
    destruct (c =? 92); [cbn; rewrite ?printable by lia; reflexivity|].
    assert (Hn : forall k, k < 32 -> (c =? k) = false)
      by (intros k Hk; apply Z.eqb_neq; lia).
    rewrite !Hn by lia.
    assert (H32 : (c <? 32) = false) by (apply Z.ltb_ge; lia).
    rewrite H32. cbn [forallb]. rewrite andb_true_r.
    destruct (Z_lt_ge_dec c 127); [apply printable | apply others]; lia || auto.
Qed.

Lemma encode_basestring_chars (s : str) :
  forallb valid_char s = true -> forallb P s = true ->
  forallb Q (encode_basestring s) = true.
Proof using printable others.
  intros Hv HP. unfold encode_basestring.
  cbn [app forallb]. rewrite forallb_app. cbn [forallb].
  rewrite !printable by lia. cbn [andb]. rewrite andb_true_r.
  induction s as [|c s IH]; [reflexivity|].
  cbn [forallb flat_map] in *.
  apply andb_true_iff in Hv, HP. destruct Hv as [Hc Hv], HP as [HPc HP].
  rewrite forallb_app, (IH Hv HP), andb_true_r.
  apply escape_char_chars; assumption.
Qed.

Lemma uint_chars_printable (u : Decimal.uint) :
  forallb Q (uint_chars u) = true.
Proof using printable.
  induction u; cbn [uint_chars forallb]; rewrite ?IHu, ?andb_true_r;
    try reflexivity; apply printable; unfold digit_char; lia.
Qed.

Lemma int_repr_chars (z : Z) : forallb Q (int_repr z) = true.
Proof using printable.
  unfold int_repr. destruct (Z.to_int z); cbn [forallb];
    rewrite uint_chars_printable, ?andb_true_r; [reflexivity|].
  apply printable; lia.
Qed.

Lemma json_dumps_chars (v : json) :
  json_chars valid_char v = true -> json_chars P v = true ->
  forallb Q (json_dumps v) = true.
Proof using printable others.
  induction v as [ |b|z|s|items IH|members IH] using json_ind;
    intros Hv HP; cbn [json_dumps json_chars] in *.
  - cbn. rewrite !printable by lia. reflexivity.
  - destruct b; cbn; rewrite !printable by lia; reflexivity.
  - apply int_repr_chars.
  - apply encode_basestring_chars; assumption.
  - rewrite !forallb_app.
    assert (Hb : forallb Q (py "[") = true /\ forallb Q (py "]") = true)
      by (cbn; rewrite !printable by lia; auto).
    destruct Hb as [-> ->]. rewrite andb_true_r. cbn [andb].
    apply forallb_join; [cbn; rewrite !printable by lia; reflexivity|].
    apply Forall_map. rewrite forallb_Forall in Hv, HP.
    rewrite Forall_forall in *. intros x Hx. apply IH; auto.
  - rewrite !forallb_app.
    assert (Hb : forallb Q (py "{") = true /\ forallb Q (py "}") = true)
      by (cbn; rewrite !printable by lia; auto).
    destruct Hb as [-> ->]. rewrite andb_true_r. cbn [andb].
    apply forallb_join; [cbn; rewrite !printable by lia; reflexivity|].
    apply Forall_map. rewrite forallb_Forall in Hv, HP.
    rewrite Forall_forall in *. intros [k x] Hx.
    specialize (Hv _ Hx). specialize (HP _ Hx). specialize (IH _ Hx).
    cbn [fst snd] in *. apply andb_true_iff in Hv, HP.
    destruct Hv as [Hvk Hvx], HP as [HPk HPx].
    rewrite !forallb_app, (IH Hvx HPx), andb_true_r.
    rewrite encode_basestring_chars by assumption.
    cbn. rewrite !printable by lia. reflexivity.
Qed.
End DumpsChars.

(** A serialized value holds no newline. *)
Lemma json_dumps_no_newline (v : json) :
  json_chars valid_char v = true ->
  forallb (fun c => negb (c =? 10)) (json_dumps v) = true.
Proof.
  intros Hv.
  apply (json_dumps_chars valid_char (fun c => negb (c =? 10))); auto;
    intros c Hc; intros; bool_lia.
Qed.

(** A serialized value ends with a character that is not white space. *)
Lemma json_dumps_last (v : json) :
  exists body c, json_dumps v = body ++ [c] /\ is_space c = false.
Proof.
  destruct v as [ |[|]|z|s|items|members]; cbn [json_dumps].
  - exists (py "nul"), 108. split; reflexivity.
  - exists (py "tru"), 101. split; reflexivity.
  - exists (py "fals"), 101. split; reflexivity.
  - assert (Hu : forall u pre, uint_chars u <> [] ->
              exists body d, pre ++ uint_chars u = body ++ [d]
                             /\ is_space d = false).
    { intros u pre Hne. destruct (exists_last Hne) as [body [d Ed]].
      exists (pre ++ body), d. rewrite Ed, app_assoc. split; [reflexivity|].
      pose proof (uint_chars_digits u) as H. rewrite Ed, forallb_app in H.
      apply andb_true_iff in H. destruct H as [_ H]. cbn in H.
      rewrite andb_true_r in H. unfold is_digit in H. unfold is_space.
      revert H. bool_lia. }
    assert (Hp : forall p, uint_chars (Pos.to_uint p) <> []).
    { intros p. destruct (pos_uint_chars_head p) as [c [cs [E _]]].
      rewrite E. discriminate. }
    destruct z as [|p|p]; unfold int_repr; cbn [Z.to_int].
    + exists [], 48. split; reflexivity.
    + apply (Hu (Pos.to_uint p) [] (Hp p)).
    + apply (Hu (Pos.to_uint p) [45] (Hp p)).
  - unfold encode_basestring. exists ([34] ++ flat_map escape_char s), 34.
    rewrite <- app_assoc. split; reflexivity.
  - eexists (_ ++ _), 93. rewrite <- app_assoc. split; reflexivity.
  - eexists (_ ++ _), 125. rewrite <- app_assoc. split; reflexivity.
Qed.

Lemma value_start_not_space (c : Z) :
  value_start c = true -> is_space c = false.
Proof.
  intros H. apply value_start_cases in H. unfold is_space. bool_lia.
Qed.

(** *** [strip] on a line of serialized text *)

Lemma lstrip_stop (c : Z) (r : str) :
  is_space c = false -> lstrip (c :: r) = c :: r.
Proof. intros H. cbn. rewrite H. reflexivity. Qed.

Lemma strip_dumps (v : json) :
  strip (json_dumps v) = json_dumps v
  /\ strip (json_dumps v ++ [10]) = json_dumps v.
Proof.
  destruct (json_dumps_head v) as [c [tl [E Hc]]].
  destruct (json_dumps_last v) as [body [d [Ed Hd]]].
  apply value_start_not_space in Hc. unfold strip, rstrip. split.
  - rewrite E, (lstrip_stop c tl Hc), <- E, Ed.
    rewrite rev_app_distr. cbn [rev app]. rewrite (lstrip_stop d _ Hd).
    cbn [rev]. rewrite rev_involutive. reflexivity.
  - rewrite E. cbn [app]. rewrite (lstrip_stop c _ Hc).
    change (c :: tl ++ [10]) with ((c :: tl) ++ [10]). rewrite <- E, Ed.
    rewrite !rev_app_distr. cbn [rev app].
    change (lstrip (10 :: d :: rev body)) with (lstrip (d :: rev body)).
    rewrite (lstrip_stop d _ Hd).
    cbn [rev]. rewrite rev_involutive. reflexivity.
Qed.

Lemma json_dumps_truthy (v : json) : str_truthy (json_dumps v) = true.
Proof.
  destruct (json_dumps_head v) as [c [tl [E _]]]. rewrite E. reflexivity.
Qed.

(** [json.loads] reads a well-formed value back from its text. *)
Lemma json_loads_dumps (v : json) :
  wf_json v = true -> json_loads (json_dumps v) = Some v.
Proof.
  intros Hwf. unfold wf_json in Hwf. apply andb_true_iff in Hwf.
  destruct Hwf as [Hch Hku]. unfold json_loads.
  assert (E : skip_ws (json_dumps v) = json_dumps v ++ []).
  { pose proof (skip_ws_dumps v []) as H. rewrite List.app_nil_r in H.
    rewrite List.app_nil_r. exact H. }
  rewrite E.
  rewrite (parse_value_dumps v Hch Hku); [reflexivity| |reflexivity].
  assert (H : forall x, (json_size x <= 2 * List.length (json_dumps x))%nat).
  { clear. induction x as [ |b|z|s|items IH|members IH] using json_ind;
      cbn [json_size json_dumps].
    - cbn. lia.
    - destruct b; cbn; lia.
    - destruct (int_repr_head z) as [c [cs [E _]]]. rewrite E. cbn. lia.
    - unfold encode_basestring. rewrite !length_app. cbn. lia.
    - rewrite !length_app. cbn [py List.length list_ascii_of_string map].
      induction IH as [|x items Hx _ IHitems]; [cbn; lia|].
      destruct items as [|y items].
      + cbn [map join list_sum fold_right] in *. lia.
      + cbn [map] in *. rewrite join_cons2, !length_app.
        cbn [list_sum fold_right] in *.
        cbn [py List.length list_ascii_of_string map] in *. lia.
    - rewrite !length_app. cbn [py List.length list_ascii_of_string map].
      induction IH as [|[k x] members Hx _ IHm]; [cbn; lia|].
      cbn [snd] in Hx.
      destruct members as [|m members].
      + cbn [map join list_sum fold_right fst snd] in *.
        rewrite !length_app. lia.
      + cbn [map] in *. rewrite join_cons2, !length_app.
        cbn [list_sum fold_right fst snd] in *.
        rewrite ?length_app.
        cbn [py List.length list_ascii_of_string map] in *. lia. }
  specialize (H v). lia.
Qed.

(** ** UTF-8 *)

Lemma utf8_decode_1 (b : Z) (rest : bytes) :
  0 <= b < 128 ->
  utf8_decode (b :: rest) = cons_opt b (utf8_decode rest).
Proof.
  intros H. cbn [utf8_decode].
  replace ((0 <=? b) && (b <? 128)) with true by (symmetry; bool_lia).
  reflexivity.
Qed.

Lemma utf8_decode_2 (b0 b1 : Z) (rest : bytes) :
  194 <= b0 <= 223 -> 128 <= b1 <= 191 ->
  utf8_decode (b0 :: b1 :: rest)
  = cons_opt ((b0 - 192) * 64 + (b1 - 128)) (utf8_decode rest).
Proof.
  intros H0 H1. cbn [utf8_decode]. unfold is_cont.
  replace ((0 <=? b0) && (b0 <? 128)) with false by (symmetry; bool_lia).
  replace ((194 <=? b0) && (b0 <=? 223)) with true by (symmetry; bool_lia).
  replace ((128 <=? b1) && (b1 <=? 191)) with true by (symmetry; bool_lia).
  reflexivity.
Qed.

Lemma utf8_decode_3 (b0 b1 b2 : Z) (rest : bytes) :
  224 <= b0 <= 239 -> 128 <= b1 <= 191 -> 128 <= b2 <= 191 ->
  let c := ((b0 - 224) * 64 + (b1 - 128)) * 64 + (b2 - 128) in
  2048 <= c -> ~ 55296 <= c <= 57343 ->
  utf8_decode (b0 :: b1 :: b2 :: rest) = cons_opt c (utf8_decode rest).
Proof.
  intros H0 H1 H2 c Hc Hs. cbn [utf8_decode]. unfold is_cont. fold c.
  replace ((0 <=? b0) && (b0 <? 128)) with false by (symmetry; bool_lia).
  replace ((194 <=? b0) && (b0 <=? 223)) with false by (symmetry; bool_lia).
  replace ((224 <=? b0) && (b0 <=? 239)) with true by (symmetry; bool_lia).
  replace ((128 <=? b1) && (b1 <=? 191)) with true by (symmetry; bool_lia).
  replace ((128 <=? b2) && (b2 <=? 191)) with true by (symmetry; bool_lia).
  replace (2048 <=? c) with true by (symmetry; bool_lia).
  replace ((55296 <=? c) && (c <=? 57343)) with false by (symmetry; bool_lia).
  reflexivity.
Qed.

Lemma utf8_decode_4 (b0 b1 b2 b3 : Z) (rest : bytes) :
  240 <= b0 <= 244 -> 128 <= b1 <= 191 -> 128 <= b2 <= 191 ->
  128 <= b3 <= 191 ->
  let c := (((b0 - 240) * 64 + (b1 - 128)) * 64 + (b2 - 128)) * 64
           + (b3 - 128) in
  65536 <= c < 1114112 ->
  utf8_decode (b0 :: b1 :: b2 :: b3 :: rest) = cons_opt c (utf8_decode rest).
Proof.
  intros H0 H1 H2 H3 c Hc. cbn [utf8_decode]. unfold is_cont. fold c.
  replace ((0 <=? b0) && (b0 <? 128)) with false by (symmetry; bool_lia).
  replace ((194 <=? b0) && (b0 <=? 223)) with false by (symmetry; bool_lia).
  replace ((224 <=? b0) && (b0 <=? 239)) with false by (symmetry; bool_lia).
  replace ((240 <=? b0) && (b0 <=? 244)) with true by (symmetry; bool_lia).
  replace ((128 <=? b1) && (b1 <=? 191)) with true by (symmetry; bool_lia).
  replace ((128 <=? b2) && (b2 <=? 191)) with true by (symmetry; bool_lia).
  replace ((128 <=? b3) && (b3 <=? 191)) with true by (symmetry; bool_lia).
  replace (65536 <=? c) with true by (symmetry; bool_lia).
  replace (c <? 1114112) with true by (symmetry; bool_lia).
  reflexivity.
Qed.

Lemma Some_inj {A} (x y : A) : Some x = Some y -> x = y.
Proof. congruence. Qed.

(** Decoding undoes the encoding of one character. *)
Lemma utf8_decode_encode_char (c : Z) (bs rest : bytes) :
  encode_char c = Some bs ->
  utf8_decode (bs ++ rest) = cons_opt c (utf8_decode rest).
Proof.
  unfold encode_char.
  destruct (c <? 0) eqn:E0; [discriminate|].
  destruct (c <? 128) eqn:E1.
  { intros H. apply Some_inj in H. subst bs.
    apply utf8_decode_1. revert E0 E1. bool_lia. }
  destruct (c <? 2048) eqn:E2.
  { intros H. apply Some_inj in H. subst bs.
    change ([?a; ?b] ++ rest) with (a :: b :: rest).
    rewrite utf8_decode_2.
    - f_equal. revert E1 E2. bool_to_prop. intros.
      Z.div_mod_to_equations. lia.
    - revert E1 E2. bool_to_prop. intros. Z.div_mod_to_equations. lia.
    - revert E1 E2. bool_to_prop. intros. Z.div_mod_to_equations. lia. }
  destruct (c <? 65536) eqn:E3.
  { destruct ((55296 <=? c) && (c <=? 57343)) eqn:Es; [discriminate|].
    intros H. apply Some_inj in H. subst bs.
    change ([?a; ?b; ?d] ++ rest) with (a :: b :: d :: rest).
    assert (Hc : ((224 + c / 4096 - 224) * 64 + (128 + (c / 64) mod 64 - 128))
                 * 64 + (128 + c mod 64 - 128) = c).
    { revert E2 E3. bool_to_prop. intros. Z.div_mod_to_equations. lia. }
    rewrite utf8_decode_3; rewrite ?Hc; try reflexivity;
      revert E2 E3 Es; bool_to_prop; intros;
      try (Z.div_mod_to_equations; lia). }
  destruct (c <? 1114112) eqn:E4; [|discriminate].
  intros H. apply Some_inj in H. subst bs.
  change ([?a; ?b; ?d; ?e] ++ rest) with (a :: b :: d :: e :: rest).
  assert (Hc : (((240 + c / 262144 - 240) * 64
                 + (128 + (c / 4096) mod 64 - 128)) * 64
                + (128 + (c / 64) mod 64 - 128)) * 64
               + (128 + c mod 64 - 128) = c).
  { revert E3 E4. bool_to_prop. intros. Z.div_mod_to_equations. lia. }
  rewrite utf8_decode_4; rewrite ?Hc; try reflexivity;
    revert E3 E4; bool_to_prop; intros;
    try (Z.div_mod_to_equations; lia).
Qed.

Lemma utf8_decode_encode (s : str) :
  forall bs, utf8_encode s = Some bs -> utf8_decode bs = Some s.
Proof.
  induction s as [|c s IH]; intros bs H; cbn [utf8_encode] in H.
  - injection H as <-. reflexivity.
  - destruct (encode_char c) as [cb|] eqn:Ec; [|discriminate].
    destruct (utf8_encode s) as [sb|] eqn:Es; [|discriminate].
    injection H as <-.
    rewrite (utf8_decode_encode_char c cb sb Ec), (IH sb eq_refl).
    reflexivity.
Qed.

Lemma utf8_encode_app (a b : str) (ab bb : bytes) :
  utf8_encode a = Some ab -> utf8_encode b = Some bb ->
  utf8_encode (a ++ b) = Some (ab ++ bb).
Proof.
  revert ab. induction a as [|c a IH]; intros ab Ha Hb;
    cbn [app utf8_encode] in *.
  - apply Some_inj in Ha. subst ab. exact Hb.
  - destruct (encode_char c) as [cb|]; [|discriminate].
    destruct (utf8_encode a) as [ab'|]; [|discriminate].
    apply Some_inj in Ha. subst ab.
    rewrite (IH ab' eq_refl Hb), app_assoc. reflexivity.
Qed.

(** The encoding of one scalar value exists and brings in a newline byte
    only for the newline character. *)
Lemma encode_char_scalar (c : Z) :
  scalar_char c = true ->
  exists bs, encode_char c = Some bs
             /\ (c <> 10 -> forallb (fun b => negb (b =? 10)) bs = true).
Proof.
  unfold scalar_char, valid_char, is_surrogate, encode_char. intros H.
  destruct (c <? 0) eqn:E0; [exfalso; revert H E0; bool_lia|].
  destruct (c <? 128) eqn:E1.
  { eexists; split; [reflexivity|]. intros Hn.
    cbn [forallb]. rewrite ?andb_true_r. bool_lia. }
  destruct (c <? 2048) eqn:E2.
  { eexists; split; [reflexivity|]. intros _.
    cbn [forallb]. rewrite ?andb_true_r.
    revert E1 E2. bool_to_prop. intros. Z.div_mod_to_equations. lia. }
  destruct (c <? 65536) eqn:E3.
  { destruct ((55296 <=? c) && (c <=? 57343)) eqn:Es;
      [exfalso; revert H Es; bool_lia|].
    eexists; split; [reflexivity|]. intros _.
    cbn [forallb]. rewrite ?andb_true_r.
    revert E2 E3. bool_to_prop. intros. Z.div_mod_to_equations. lia. }
  destruct (c <? 1114112) eqn:E4; [|exfalso; revert H E4; bool_lia].
  eexists; split; [reflexivity|]. intros _.
  cbn [forallb]. rewrite ?andb_true_r.
  revert E3 E4. bool_to_prop. intros. Z.div_mod_to_equations. lia.
Qed.

Lemma utf8_encode_scalar (s : str) :
  forallb scalar_char s = true ->
  exists bs, utf8_encode s = Some bs
             /\ (forallb (fun c => negb (c =? 10)) s = true ->
                 forallb (fun b => negb (b =? 10)) bs = true)
             /\ (s <> [] -> bs <> []).
Proof.
  induction s as [|c s IH]; intros H.
  - exists []. repeat split; auto.
  - cbn [forallb] in H. apply andb_true_iff in H. destruct H as [Hc Hs].
    destruct (encode_char_scalar c Hc) as [cb [Ec Hcb]].
    destruct (IH Hs) as [sb [Es [Hsb _]]].
    exists (cb ++ sb). cbn [utf8_encode]. rewrite Ec, Es.
    split; [reflexivity|]. split.
    + cbn [forallb]. rewrite andb_true_iff, negb_true_iff, Z.eqb_neq.
      intros [Hn Hrest]. rewrite forallb_app, (Hcb Hn), (Hsb Hrest).
      reflexivity.
    + intros _ Habs. apply app_eq_nil in Habs. destruct Habs as [-> _].
      revert Ec. unfold encode_char.
      repeat match goal with
             | |- context [if ?b then _ else _] => destruct b
             end; discriminate.
Qed.

(** ** Lines *)

Lemma readlines_line (l r : list Z) :
  no_newline l = true ->
  readlines (l ++ 10 :: r) = (l ++ [10]) :: readlines r.
Proof.
  unfold no_newline. induction l as [|b l IH]; intros H; [reflexivity|].
  cbn [forallb] in H. apply andb_true_iff in H. destruct H as [Hb Hl].
  apply negb_true_iff in Hb. cbn [app readlines]. rewrite Hb, (IH Hl).
  reflexivity.
Qed.

Lemma readlines_single (l : list Z) :
  l <> [] -> no_newline l = true -> readlines l = [l].
Proof.
  unfold no_newline. induction l as [|b l IH]; intros Hne H; [congruence|].
  cbn [forallb] in H. apply andb_true_iff in H. destruct H as [Hb Hl].
  apply negb_true_iff in Hb. cbn [readlines]. rewrite Hb.
  destruct l as [|b' l]; [reflexivity|].
  rewrite IH by (discriminate || exact Hl). reflexivity.
Qed.

Lemma readlines_join (parts : list (list Z)) :
  Forall (fun p => p <> [] /\ no_newline p = true) parts ->
  readlines (join [10] parts) = terminate_lines parts.
Proof.
  induction 1 as [|p parts [Hne Hnl] Hparts IH]; [reflexivity|].
  destruct parts as [|q parts].
  - cbn [join terminate_lines]. apply readlines_single; assumption.
  - rewrite join_cons2. cbn [terminate_lines app].
    rewrite readlines_line by exact Hnl. rewrite IH. reflexivity.
Qed.

Lemma terminate_lines_length (parts : list (list Z)) :
  List.length (terminate_lines parts) = List.length parts.
Proof.
  induction parts as [|p [|q parts] IH]; [reflexivity | reflexivity|].
  cbn [terminate_lines List.length] in *. rewrite IH. reflexivity.
Qed.

Lemma terminate_lines_nth (parts : list (list Z)) :
  forall (i : nat) (p : list Z),
    nth_error parts i = Some p ->
    nth_error (terminate_lines parts) i
    = Some (if (S i =? List.length parts)%nat then p else p ++ [10]).
Proof.
  induction parts as [|q [|q' parts] IH]; intros i p Hi.
  - destruct i; discriminate.
  - destruct i as [|[|i]]; try discriminate. cbn in Hi |- *. exact Hi.
  - destruct i as [|i].
    + cbn in Hi. injection Hi as ->. reflexivity.
    + change (terminate_lines (q :: q' :: parts))
        with ((q ++ [10]) :: terminate_lines (q' :: parts)).
      cbn [nth_error] in Hi |- *. rewrite (IH i p Hi). reflexivity.
Qed.

(** ** Loading what was serialized *)

Lemma json_dumps_scalar (v : json) :
  wf_json v = true -> encodable_json v = true ->
  forallb scalar_char (json_dumps v) = true.
Proof.
  unfold wf_json, encodable_json. intros Hwf Henc.
  apply andb_true_iff in Hwf. destruct Hwf as [Hch _].
  apply (json_dumps_chars (fun c => negb (is_surrogate c)) scalar_char);
    auto.
  - intros c Hc. unfold scalar_char, valid_char, is_surrogate. bool_lia.
  - intros c _ Hv Hs. unfold scalar_char. rewrite Hv, Hs. reflexivity.
Qed.

Lemma encoded_exists (v : json) :
  wf_json v = true -> encodable_json v = true ->
  exists b, encoded v b /\ b <> [] /\ no_newline b = true.
Proof.
  intros Hwf Henc.
  destruct (utf8_encode_scalar _ (json_dumps_scalar v Hwf Henc))
    as [b [Eb [Hnl Hne]]].
  exists b. split; [exact Eb|]. split.
  - apply Hne. destruct (json_dumps_head v) as [c [tl [E _]]].
    rewrite E. discriminate.
  - apply Hnl. apply json_dumps_no_newline.
    unfold wf_json in Hwf. apply andb_true_iff in Hwf. apply Hwf.
Qed.

Lemma encoded_all (data : list json) :
  forallb wf_json data = true -> forallb encodable_json data = true ->
  exists parts,
    Forall2 encoded data parts
    /\ Forall (fun p => p <> [] /\ no_newline p = true) parts.
Proof.
  induction data as [|v data IH]; intros Hwf Henc.
  - exists []. split; constructor.
  - cbn [forallb] in Hwf, Henc. apply andb_true_iff in Hwf, Henc.
    destruct Hwf as [Hv Hwf], Henc as [He Henc].
    destruct (IH Hwf Henc) as [parts [Hparts Hgood]].
    destruct (encoded_exists v Hv He) as [b [Eb Hb]].
    exists (b :: parts). split; constructor; assumption.
Qed.

Lemma utf8_encode_join (data : list json) (parts : list bytes) :
  Forall2 encoded data parts ->
  utf8_encode (join [10] (map json_dumps data)) = Some (join [10] parts).
Proof.
  induction 1 as [|v b data parts Hb Hrest IH]; [reflexivity|].
  destruct Hrest as [|v' b' data' parts' Hb' Hrest'].
  - exact Hb.
  - cbn [map] in *. rewrite !join_cons2.
    apply utf8_encode_app; [exact Hb|].
    apply (utf8_encode_app [10] _ [10]); [reflexivity | exact IH].
Qed.

(** One iteration of the loader on a line holding a serialized record,
    with or without its newline. *)
Lemma load_loop_record (v : json) (b : bytes) (newline : bool)
  (rest : list bytes) (acc : list json) :
  wf_json v = true -> encoded v b ->
  load_loop ((if newline then b ++ [10] else b) :: rest) acc
  = load_loop rest (acc ++ [v]).
Proof.
  intros Hwf Hb. destruct (strip_dumps v) as [Hs Hsn].
  cbn [load_loop]. destruct newline.
  - rewrite (utf8_decode_encode (json_dumps v ++ [10]) (b ++ [10]))
      by (apply utf8_encode_app; [exact Hb | reflexivity]).
    rewrite Hsn, json_dumps_truthy, (json_loads_dumps v Hwf). reflexivity.
  - rewrite (utf8_decode_encode (json_dumps v) b Hb).
    rewrite Hs, json_dumps_truthy, (json_loads_dumps v Hwf). reflexivity.
Qed.

Lemma load_loop_lines (data : list json) (parts : list bytes) :
  Forall2 encoded data parts ->
  forallb wf_json data = true ->
  forall acc, load_loop (terminate_lines parts) acc = inr (acc ++ data).
Proof.
  induction 1 as [|v b data parts Hb Hrest IH]; intros Hwf acc.
  - rewrite List.app_nil_r. reflexivity.
  - cbn [forallb] in Hwf. apply andb_true_iff in Hwf.
    destruct Hwf as [Hv Hwf].
    destruct parts as [|b' parts].
    + inversion Hrest; subst. cbn [terminate_lines].
      rewrite (load_loop_record v b false [] acc Hv Hb). reflexivity.
    + change (terminate_lines (b :: b' :: parts))
        with ((b ++ [10]) :: terminate_lines (b' :: parts)).
      rewrite (load_loop_record v b true _ acc Hv Hb).
      rewrite (IH Hwf), <- app_assoc. reflexivity.
Qed.

(** The exported dataset, encoded and uploaded again, loads to the same
    dataset, one line per record. *)
Lemma load_serializeAll (data : list json) :
  forallb wf_json data = true -> forallb encodable_json data = true ->
  exists file,
    utf8_encode (serializeAll data) = Some file
    /\ List.length (readlines file) = List.length data
    /\ load_jsonl_data file = (Some data, []).
Proof.
  intros Hwf Henc.
  destruct (encoded_all data Hwf Henc) as [parts [Hparts Hgood]].
  exists (join [10] parts). split; [|split].
  - apply utf8_encode_join, Hparts.
  - rewrite (readlines_join parts Hgood), terminate_lines_length.
    symmetry. apply (Forall2_length Hparts).
  - unfold load_jsonl_data.
    rewrite (readlines_join parts Hgood).
    rewrite (load_loop_lines data parts Hparts Hwf []). reflexivity.
Qed.

(** ** The decoder without fuel *)

Lemma cons_char_Some (c : Z) (r : option (str * str)) (t rest : str) :
  cons_char c r = Some (t, rest) ->
  exists t', r = Some (t', rest) /\ t = c :: t'.
Proof.
  destruct r as [[t' rest']|]; cbn; [|discriminate].
  intros H. injection H as <- <-. exists t'. auto.
Qed.

Lemma hex_val_range (c : Z) (v : Z) : hex_val c = Some v -> 0 <= v < 16.
Proof.
  unfold hex_val.
  destruct ((48 <=? c) && (c <=? 57)) eqn:E1;
    [intros [= <-]; revert E1; bool_lia|].
  destruct ((97 <=? c) && (c <=? 102)) eqn:E2;
    [intros [= <-]; revert E2; bool_lia|].
  destruct ((65 <=? c) && (c <=? 70)) eqn:E3;
    [intros [= <-]; revert E3; bool_lia | discriminate].
Qed.

Lemma hex4_range (h1 h2 h3 h4 : Z) (u : Z) :
  hex4 h1 h2 h3 h4 = Some u -> 0 <= u < 65536.
Proof.
  unfold hex4.
  destruct (hex_val h1) as [a|] eqn:E1; [|discriminate].
  destruct (hex_val h2) as [b|] eqn:E2; [|discriminate].
  destruct (hex_val h3) as [c|] eqn:E3; [|discriminate].
  destruct (hex_val h4) as [d|] eqn:E4; [|discriminate].
  apply hex_val_range in E1, E2, E3, E4. intros [= <-]. lia.
Qed.

Lemma unescape_range (e ch : Z) : unescape e = Some ch -> 0 <= ch < 128.
Proof.
  unfold unescape.
  repeat match goal with
         | |- context [if ?b then _ else _] => destruct b
         end; intros [= <-]; lia.
Qed.

Ltac break_scan H :=
  repeat match type of H with
    | context [if ?b then _ else _] => destruct b eqn:?
    | context [match ?x with | Some _ => _ | None => _ end] =>
        destruct x eqn:?
    | context [match ?x with | nil => _ | cons _ _ => _ end] =>
        destruct x eqn:?
    | None = Some _ => discriminate H
    end.

Lemma scanstring_inv (n : nat) :
  forall (s t rest : str),
    (List.length s <= n)%nat ->
    scanstring s = Some (t, rest) ->
    (List.length rest < List.length s)%nat
    /\ (forallb valid_char s = true ->
        forallb valid_char t = true /\ forallb valid_char rest = true).
Proof.
  induction n as [|n IH]; intros s t rest Hn H.
  - destruct s; [discriminate | cbn in Hn; lia].
  - destruct s as [|c r]; [discriminate|].
    cbn [scanstring] in H. break_scan H.
    all: try discriminate H.
    { apply Some_inj in H. injection H as <- <-. split; [cbn; lia|].
      cbn [forallb]. rewrite andb_true_iff. intros [_ Hr]. auto. }
    all: apply cons_char_Some in H; destruct H as [t' [H ->]];
      apply IH in H; [|cbn [List.length] in *; lia];
      destruct H as [Hlen Hval]; (split; [cbn [List.length] in *; lia|]);
      intros Hv; cbn [forallb] in Hv;
      repeat match goal with
             | Hx : _ && _ = true |- _ =>
                 apply andb_true_iff in Hx; destruct Hx
             end;
      (destruct Hval as [Ht Hr];
       [cbn [forallb];
        repeat match goal with
               | Hx : valid_char _ = true |- _ => rewrite Hx; clear Hx
               | Hx : forallb _ _ = true |- _ => rewrite Hx; clear Hx
               end; reflexivity|]);
      (split; [|exact Hr]); cbn [forallb]; apply andb_true_iff;
      (split; [|exact Ht]);
      repeat match goal with
             | E : hex4 _ _ _ _ = Some _ |- _ => apply hex4_range in E
             | E : unescape _ = Some _ |- _ => apply unescape_range in E
             end;
      try assumption;
      unfold valid_char;
      repeat match goal with
             | E : _ = true |- _ => revert E
             | E : _ = false |- _ => revert E
             end;
      bool_to_prop; intros; lia.
Qed.

Lemma scanstring_shorter (s t rest : str) :
  scanstring s = Some (t, rest) ->
  (List.length rest < List.length s)%nat.
Proof. intros H. apply (scanstring_inv _ s t rest (le_n _) H). Qed.

Lemma scanstring_valid (s t rest : str) :
  scanstring s = Some (t, rest) -> forallb valid_char s = true ->
  forallb valid_char t = true /\ forallb valid_char rest = true.
Proof. intros H. apply (scanstring_inv _ s t rest (le_n _) H). Qed.

Lemma skip_ws_length (s : str) :
  (List.length (skip_ws s) <= List.length s)%nat.
Proof.
  induction s as [|c s IH]; [reflexivity|]. cbn [skip_ws].
  destruct (is_json_ws c); cbn [List.length]; lia.
Qed.

Lemma skip_ws_forallb (P : Z -> bool) (s : str) :
  forallb P s = true -> forallb P (skip_ws s) = true.
Proof.
  induction s as [|c s IH]; [reflexivity|]. cbn [skip_ws]. intros H.
  destruct (is_json_ws c); [|exact H].
  cbn [forallb] in H. apply andb_true_iff in H. apply IH, H.
Qed.

Lemma skip_ws_cons_length (s : str) (c : Z) (r : str) :
  skip_ws s = c :: r -> (List.length r < List.length s)%nat.
Proof.
  intros H. pose proof (skip_ws_length s) as Hl. rewrite H in Hl.
  cbn [List.length] in Hl. lia.
Qed.

Lemma skip_ws_cons_forallb (P : Z -> bool) (s : str) (c : Z) (r : str) :
  skip_ws s = c :: r -> forallb P s = true -> forallb P r = true.
Proof.
  intros H Hs. pose proof (skip_ws_forallb P s Hs) as Hp. rewrite H in Hp.
  cbn [forallb] in Hp. apply andb_true_iff in Hp. apply Hp.
Qed.

Lemma strip_prefix_inv (lit s rest : str) :
  strip_prefix lit s = Some rest -> s = lit ++ rest.
Proof.
  revert s. induction lit as [|a lit IH]; intros s H.
  - cbn in H. injection H as ->. reflexivity.
  - destruct s as [|b s]; [discriminate|]. cbn [strip_prefix] in H.
    destruct (a =? b) eqn:E; [|discriminate]. apply Z.eqb_eq in E. subst b.
    rewrite (IH s H). reflexivity.
Qed.

Lemma take_digits_inv (s ds rest : str) :
  take_digits s = (ds, rest) -> s = ds ++ rest.
Proof.
  revert ds. induction s as [|c s IH]; intros ds H; cbn [take_digits] in H.
  - injection H as <- <-. reflexivity.
  - destruct (is_digit c).
    + destruct (take_digits s) as [ds' rest'] eqn:E.
      injection H as <- <-. rewrite (IH ds' eq_refl). reflexivity.
    + injection H as <- <-. reflexivity.
Qed.

Lemma parse_digits_inv (s : str) (n : Z) (rest : str) :
  parse_digits s = Some (n, rest) ->
  exists ds, ds <> [] /\ s = ds ++ rest.
Proof.
  unfold parse_digits. destruct s as [|c r]; [discriminate|].
  destruct (c =? 48).
  - destruct (int_follows r); [|discriminate]. intros H.
    injection H as _ <-. exists [c]. split; [discriminate | reflexivity].
  - destruct (is_digit c); [|discriminate].
    destruct (take_digits r) as [ds rest'] eqn:E.
    destruct (int_follows rest'); [|discriminate]. intros H.
    injection H as _ <-. exists (c :: ds).
    split; [discriminate|]. rewrite (take_digits_inv r ds rest' E).
    reflexivity.
Qed.

Lemma parse_int_inv (s : str) (v : json) (rest : str) :
  parse_int s = Some (v, rest) ->
  (exists z, v = JInt z) /\ exists ds, ds <> [] /\ s = ds ++ rest.
Proof.
  unfold parse_int. destruct s as [|c r]; [discriminate|].
  destruct (c =? 45).
  - destruct (parse_digits r) as [[n rest']|] eqn:E; [|discriminate].
    intros H. injection H as <- <-. split; [eexists; reflexivity|].
    destruct (parse_digits_inv r n rest' E) as [ds [Hne ->]].
    exists (c :: ds). split; [discriminate | reflexivity].
  - destruct (parse_digits (c :: r)) as [[n rest']|] eqn:E; [|discriminate].
    intros H. injection H as <- <-. split; [eexists; reflexivity|].
    apply (parse_digits_inv _ n rest' E).
Qed.

(** A scalar has no strings and leaves a proper suffix. *)
Lemma parse_scalar_inv (s : str) (v : json) (rest : str) :
  parse_scalar s = Some (v, rest) ->
  (forall P, json_chars P v = true) /\ json_unique_keys v = true
  /\ exists pre, pre <> [] /\ s = pre ++ rest.
Proof.
  unfold parse_scalar.
  destruct (strip_prefix (py "null") s) as [r|] eqn:E1.
  { intros H. injection H as <- <-. apply strip_prefix_inv in E1.
    repeat split. exists (py "null"). split; [discriminate | exact E1]. }
  destruct (strip_prefix (py "true") s) as [r|] eqn:E2.
  { intros H. injection H as <- <-. apply strip_prefix_inv in E2.
    repeat split. exists (py "true"). split; [discriminate | exact E2]. }
  destruct (strip_prefix (py "false") s) as [r|] eqn:E3.
  { intros H. injection H as <- <-. apply strip_prefix_inv in E3.
    repeat split. exists (py "false"). split; [discriminate | exact E3]. }
  intros H. destruct (parse_int_inv s v rest H) as [[z ->] Hpre].
  repeat split. exact Hpre.
Qed.

Lemma suffix_shorter (pre rest : str) :
  pre <> [] -> (List.length rest < List.length (pre ++ rest))%nat.
Proof. destruct pre; [congruence|]. rewrite length_app. cbn. lia. Qed.

Lemma suffix_forallb (P : Z -> bool) (pre rest : str) :
  forallb P (pre ++ rest) = true -> forallb P rest = true.
Proof. rewrite forallb_app, andb_true_iff. tauto. Qed.

(** The decoder only returns what a derivation justifies. *)
Lemma parse_sound (fuel : nat) :
  (forall s v rest, parse_value fuel s = Some (v, rest) -> parses_value s v rest)
  /\ (forall s vs rest, parse_items fuel s = Some (vs, rest) -> parses_items s vs rest)
  /\ (forall s kvs rest, parse_members fuel s = Some (kvs, rest) ->
        parses_members s kvs rest).
Proof.
  induction fuel as [|f [IHv [IHi IHm]]]; [repeat split; discriminate|].
  split; [|split].
  - intros s v rest H. destruct s as [|c r]; [discriminate|].
    cbn [parse_value] in H.
    destruct (c =? 34) eqn:E34.
    { apply Z.eqb_eq in E34. subst c.
      destruct (scanstring r) as [[t rest']|] eqn:Es; [|discriminate].
      injection H as <- <-. apply pv_string, Es. }
    destruct (c =? 123) eqn:E123.
    { apply Z.eqb_eq in E123. subst c.
      destruct (skip_ws r) as [|c' r'] eqn:Ew; [discriminate|].
      destruct (c' =? 125) eqn:E125.
      - apply Z.eqb_eq in E125. subst c'. injection H as <- <-.
        apply pv_empty_object, Ew.
      - destruct (parse_members f (c' :: r')) as [[pairs rest']|] eqn:Em;
          [|discriminate].
        injection H as <- <-. eapply pv_object; eauto. }
    destruct (c =? 91) eqn:E91.
    { apply Z.eqb_eq in E91. subst c.
      destruct (skip_ws r) as [|c' r'] eqn:Ew; [discriminate|].
      destruct (c' =? 93) eqn:E93.
      - apply Z.eqb_eq in E93. subst c'. injection H as <- <-.
        apply pv_empty_array, Ew.
      - destruct (parse_items f (c' :: r')) as [[items rest']|] eqn:Ei;
          [|discriminate].
        injection H as <- <-. eapply pv_array; eauto. }
    apply pv_scalar; assumption.
  - intros s vs rest H. rewrite parse_items_step in H.
    destruct (parse_value f s) as [[v r]|] eqn:Ev; [|discriminate].
    destruct (skip_ws r) as [|c r'] eqn:Ew; [discriminate|].
    destruct (c =? 93) eqn:E93.
    + apply Z.eqb_eq in E93. subst c. injection H as <- <-.
      eapply pi_last; eauto.
    + destruct (c =? 44) eqn:E44; [|discriminate].
      apply Z.eqb_eq in E44. subst c.
      destruct (parse_items f (skip_ws r')) as [[vs' rest']|] eqn:Ei;
        [|discriminate].
      injection H as <- <-. eapply pi_more; eauto.
  - intros s kvs rest H. destruct s as [|q r]; [discriminate|].
    cbn [parse_members] in H.
    destruct (q =? 34) eqn:E34; [|discriminate].
    apply Z.eqb_eq in E34. subst q.
    destruct (scanstring r) as [[k r1]|] eqn:Es; [|discriminate].
    destruct (skip_ws r1) as [|colon r2] eqn:Ew1; [discriminate|].
    destruct (colon =? 58) eqn:E58; [|discriminate].
    apply Z.eqb_eq in E58. subst colon.
    destruct (parse_value f (skip_ws r2)) as [[v r3]|] eqn:Ev; [|discriminate].
    destruct (skip_ws r3) as [|c r4] eqn:Ew3; [discriminate|].
    destruct (c =? 125) eqn:E125.
    + apply Z.eqb_eq in E125. subst c. injection H as <- <-.
      eapply pm_last; eauto.
    + destruct (c =? 44) eqn:E44; [|discriminate].
      apply Z.eqb_eq in E44. subst c.
      destruct (parse_members f (skip_ws r4)) as [[kvs' rest']|] eqn:Em;
        [|discriminate].
      injection H as <- <-. eapply pm_more; eauto.
Qed.

(** A derivation consumes text, and the decoder finds it with any fuel from
    twice the number of characters consumed. *)
Lemma parse_complete :
  (forall s v rest, parses_value s v rest ->
     (List.length rest < List.length s)%nat
     /\ forall F, (2 * (List.length s - List.length rest) <= F)%nat ->
                  parse_value F s = Some (v, rest))
  /\ (forall s vs rest, parses_items s vs rest ->
        (List.length rest < List.length s)%nat
        /\ forall F, (2 * (List.length s - List.length rest) + 1 <= F)%nat ->
                     parse_items F s = Some (vs, rest))
  /\ (forall s kvs rest, parses_members s kvs rest ->
        (List.length rest < List.length s)%nat
        /\ forall F, (2 * (List.length s - List.length rest) + 1 <= F)%nat ->
                     parse_members F s = Some (kvs, rest)).
Proof.
  apply parses_mutind.
  - intros r t rest Hs. pose proof (scanstring_shorter r t rest Hs) as Hl.
    split; [cbn [List.length]; lia|]. intros [|F] HF; [cbn [List.length] in HF; lia|].
    rewrite parse_value_string, Hs. reflexivity.
  - intros r rest Hw. pose proof (skip_ws_cons_length r _ _ Hw) as Hl.
    split; [cbn [List.length]; lia|]. intros [|F] HF; [cbn [List.length] in HF; lia|].
    rewrite parse_value_object, Hw. reflexivity.
  - intros r c r' pairs rest Hw Hc _ [Hl IH].
    pose proof (skip_ws_length r) as Hr. rewrite Hw in Hr.
    split; [cbn [List.length] in *; lia|].
    intros [|F] HF; [cbn [List.length] in *; lia|].
    rewrite parse_value_object, Hw, Hc, IH; [reflexivity|].
    cbn [List.length] in *. lia.
  - intros r rest Hw. pose proof (skip_ws_cons_length r _ _ Hw) as Hl.
    split; [cbn [List.length]; lia|]. intros [|F] HF; [cbn [List.length] in HF; lia|].
    rewrite parse_value_array, Hw. reflexivity.
  - intros r c r' items rest Hw Hc _ [Hl IH].
    pose proof (skip_ws_length r) as Hr. rewrite Hw in Hr.
    split; [cbn [List.length] in *; lia|].
    intros [|F] HF; [cbn [List.length] in *; lia|].
    rewrite parse_value_array, Hw, Hc, IH; [reflexivity|].
    cbn [List.length] in *. lia.
  - intros c r v rest H34 H123 H91 Hs.
    destruct (parse_scalar_inv _ v rest Hs) as [_ [_ [pre [Hne E]]]].
    pose proof (suffix_shorter pre rest Hne) as Hl. rewrite <- E in Hl.
    split; [exact Hl|]. intros [|F] HF; [lia|].
    cbn [parse_value]. rewrite H34, H123, H91. exact Hs.
  - intros s v r rest _ [Hl IH] Hw.
    pose proof (skip_ws_cons_length r _ _ Hw) as Hr.
    split; [lia|]. intros [|F] HF; [lia|].
    rewrite parse_items_step, IH by lia. rewrite Hw. reflexivity.
  - intros s v r r' vs rest _ [Hl IH] Hw _ [Hl' IH'].
    pose proof (skip_ws_cons_length r _ _ Hw) as Hr.
    pose proof (skip_ws_length r') as Hr'.
    split; [lia|]. intros [|F] HF; [lia|].
    rewrite parse_items_step, IH by lia. rewrite Hw.
    change (44 =? 93) with false. change (44 =? 44) with true. cbn iota.
    rewrite IH' by lia. reflexivity.
  - intros r k r1 r2 v r3 rest Hs Hw1 _ [Hl IH] Hw3.
    pose proof (scanstring_shorter r k r1 Hs) as H1.
    pose proof (skip_ws_cons_length r1 _ _ Hw1) as H2.
    pose proof (skip_ws_length r2) as H3.
    pose proof (skip_ws_cons_length r3 _ _ Hw3) as H4.
    split; [cbn [List.length]; lia|].
    intros [|F] HF; [lia|].
    rewrite parse_members_step, Hs, Hw1.
    change (58 =? 58) with true. cbn iota.
    rewrite IH by (cbn [List.length] in HF; lia). rewrite Hw3. reflexivity.
  - intros r k r1 r2 v r3 r4 kvs rest Hs Hw1 _ [Hl IH] Hw3 _ [Hl' IH'].
    pose proof (scanstring_shorter r k r1 Hs) as H1.
    pose proof (skip_ws_cons_length r1 _ _ Hw1) as H2.
    pose proof (skip_ws_length r2) as H3.
    pose proof (skip_ws_cons_length r3 _ _ Hw3) as H4.
    pose proof (skip_ws_length r4) as H5.
    split; [cbn [List.length]; lia|].
    intros [|F] HF; [lia|].
    rewrite parse_members_step, Hs, Hw1.
    change (58 =? 58) with true. cbn iota.
    rewrite IH by (cbn [List.length] in HF; lia). rewrite Hw3.
    change (44 =? 125) with false. change (44 =? 44) with true. cbn iota.
    rewrite IH' by (cbn [List.length] in HF; lia). reflexivity.
Qed.

(** The value [json_loads] returns does not depend on the fuel: whatever
    some amount of fuel decodes, the supplied amount decodes too. *)
Theorem json_loads_fuel_independent (s : str) (fuel : nat) (v : json)
  (rest : str) :
  parse_value fuel (skip_ws s) = Some (v, rest) ->
  parse_value (2 * List.length s + 2) (skip_ws s) = Some (v, rest).
Proof.
  intros H. apply (proj1 (parse_sound fuel)) in H.
  apply (proj1 parse_complete) in H. destruct H as [Hl H]. apply H.
  pose proof (skip_ws_length s). lia.
Qed.

(** *** What the decoder returns is well formed *)

Lemma dict_set_forallb {V} (Q : str * V -> bool) (k : str) (v : V)
  (d : pydict V) :
  Q (k, v) = true -> forallb Q d = true -> forallb Q (dict_set k v d) = true.
Proof.
  intros Hkv. induction d as [|[k' v'] d IH]; intros Hd.
  - cbn. rewrite Hkv. reflexivity.
  - cbn [forallb dict_set] in *. apply andb_true_iff in Hd.
    destruct Hd as [Hk' Hd]. destruct (str_eqb k k') eqn:E.
    + apply str_eqb_eq in E. subst k'. cbn [forallb]. rewrite Hkv, Hd.
      reflexivity.
    + cbn [forallb]. rewrite Hk', (IH Hd). reflexivity.
Qed.

Lemma dict_in_set {V} (k0 k : str) (v : V) (d : pydict V) :
  dict_in k0 (dict_set k v d) = dict_in k0 d || str_eqb k0 k.
Proof.
  unfold dict_in. induction d as [|[k' v'] d IH]; cbn [dict_get dict_set].
  - destruct (str_eqb k0 k); reflexivity.
  - destruct (str_eqb k k') eqn:E; cbn [dict_get].
    + apply str_eqb_eq in E. subst k'.
      destruct (str_eqb k0 k); [reflexivity|].
      rewrite orb_false_r. reflexivity.
    + destruct (str_eqb k0 k'); [reflexivity | exact IH].
Qed.

Lemma unique_keys_set {V} (k : str) (v : V) (d : pydict V) :
  unique_keys d = true -> unique_keys (dict_set k v d) = true.
Proof.
  induction d as [|[k' v'] d IH]; intros H; [reflexivity|].
  cbn [unique_keys dict_set] in *. apply andb_true_iff in H.
  destruct H as [Hk' Hd]. destruct (str_eqb k k') eqn:E.
  - cbn [unique_keys]. rewrite Hk', Hd. reflexivity.
  - cbn [unique_keys]. rewrite (IH Hd), andb_true_r.
    rewrite dict_in_set, negb_orb, Hk'. cbn [andb].
    rewrite str_eqb_sym, E. reflexivity.
Qed.

Lemma dict_of_pairs_wf {V} (Q : str * V -> bool) (pairs : list (str * V)) :
  forallb Q pairs = true ->
  forallb Q (dict_of_pairs pairs) = true
  /\ unique_keys (dict_of_pairs pairs) = true.
Proof.
  unfold dict_of_pairs.
  assert (H : forall acc : pydict V,
    forallb Q acc = true -> unique_keys acc = true ->
    forallb Q pairs = true ->
    forallb Q (fold_left (fun d kv => dict_set (fst kv) (snd kv) d) pairs acc)
    = true
    /\ unique_keys
         (fold_left (fun d kv => dict_set (fst kv) (snd kv) d) pairs acc)
       = true).
  { induction pairs as [|[k v] pairs IH]; intros acc Ha Hu Hp; [auto|].
    cbn [forallb] in Hp. apply andb_true_iff in Hp. destruct Hp as [Hkv Hp].
    cbn [fold_left fst snd]. apply IH; auto.
    - apply dict_set_forallb; assumption.
    - apply unique_keys_set, Hu. }
  intros Hp. apply H; auto.
Qed.

Lemma parse_wf :
  (forall s v rest, parses_value s v rest ->
     forallb valid_char s = true ->
     json_chars valid_char v = true /\ json_unique_keys v = true
     /\ forallb valid_char rest = true)
  /\ (forall s vs rest, parses_items s vs rest ->
        forallb valid_char s = true ->
        forallb (json_chars valid_char) vs = true
        /\ forallb json_unique_keys vs = true
        /\ forallb valid_char rest = true)
  /\ (forall s kvs rest, parses_members s kvs rest ->
        forallb valid_char s = true ->
        forallb (fun kv => forallb valid_char (fst kv)
                           && (json_chars valid_char (snd kv)
                               && json_unique_keys (snd kv))) kvs = true
        /\ forallb valid_char rest = true).
Proof.
  apply parses_mutind.
  - intros r t rest Hs Hv. cbn [forallb] in Hv. apply andb_true_iff in Hv.
    destruct (scanstring_valid r t rest Hs (proj2 Hv)) as [Ht Hr].
    cbn [json_chars json_unique_keys]. auto.
  - intros r rest Hw Hv. cbn [forallb] in Hv. apply andb_true_iff in Hv.
    repeat split. apply (skip_ws_cons_forallb _ r _ _ Hw (proj2 Hv)).
  - intros r c r' pairs rest Hw Hc _ IH Hv.
    cbn [forallb] in Hv. apply andb_true_iff in Hv.
    pose proof (skip_ws_forallb _ r (proj2 Hv)) as Hv'. rewrite Hw in Hv'.
    destruct (IH Hv') as [Hp Hr].
    destruct (dict_of_pairs_wf _ pairs Hp) as [Hq Hu].
    cbn [json_chars json_unique_keys]. rewrite Hu. cbn [andb].
    rewrite forallb_forall in Hq.
    repeat split; [| |exact Hr]; apply forallb_forall; intros kv Hin;
      specialize (Hq kv Hin); rewrite !andb_true_iff in Hq;
      [apply andb_true_iff|]; tauto.
  - intros r rest Hw Hv. cbn [forallb] in Hv. apply andb_true_iff in Hv.
    repeat split. apply (skip_ws_cons_forallb _ r _ _ Hw (proj2 Hv)).
  - intros r c r' items rest Hw Hc _ IH Hv.
    cbn [forallb] in Hv. apply andb_true_iff in Hv.
    pose proof (skip_ws_forallb _ r (proj2 Hv)) as Hv'. rewrite Hw in Hv'.
    destruct (IH Hv') as [Hp [Hu Hr]].
    cbn [json_chars json_unique_keys]. auto.
  - intros c r v rest _ _ _ Hs Hv.
    destruct (parse_scalar_inv _ v rest Hs) as [Hc [Hu [pre [_ E]]]].
    rewrite E in Hv. apply suffix_forallb in Hv. auto.
  - intros s v r rest _ IH Hw Hv. destruct (IH Hv) as [Hc [Hu Hr]].
    cbn [forallb]. rewrite Hc, Hu.
    repeat split. apply (skip_ws_cons_forallb _ r _ _ Hw Hr).
  - intros s v r r' vs rest _ IH Hw _ IH' Hv.
    destruct (IH Hv) as [Hc [Hu Hr]].
    pose proof (skip_ws_cons_forallb _ r _ _ Hw Hr) as Hr'.
    destruct (IH' (skip_ws_forallb _ r' Hr')) as [Hcs [Hus Hrest]].
    cbn [forallb]. rewrite Hc, Hu, Hcs, Hus. auto.
  - intros r k r1 r2 v r3 rest Hs Hw1 _ IH Hw3 Hv.
    cbn [forallb] in Hv. apply andb_true_iff in Hv.
    destruct (scanstring_valid r k r1 Hs (proj2 Hv)) as [Hk Hr1].
    pose proof (skip_ws_cons_forallb _ r1 _ _ Hw1 Hr1) as Hr2.
    destruct (IH (skip_ws_forallb _ r2 Hr2)) as [Hc [Hu Hr3]].
    cbn [forallb fst snd]. rewrite Hk, Hc, Hu.
    split; [reflexivity|]. apply (skip_ws_cons_forallb _ r3 _ _ Hw3 Hr3).
  - intros r k r1 r2 v r3 r4 kvs rest Hs Hw1 _ IH Hw3 _ IH' Hv.
    cbn [forallb] in Hv. apply andb_true_iff in Hv.
    destruct (scanstring_valid r k r1 Hs (proj2 Hv)) as [Hk Hr1].
    pose proof (skip_ws_cons_forallb _ r1 _ _ Hw1 Hr1) as Hr2.
    destruct (IH (skip_ws_forallb _ r2 Hr2)) as [Hc [Hu Hr3]].
    pose proof (skip_ws_cons_forallb _ r3 _ _ Hw3 Hr3) as Hr4.
    destruct (IH' (skip_ws_forallb _ r4 Hr4)) as [Hkvs Hrest].
    cbn [forallb fst snd]. rewrite Hk, Hc, Hu, Hkvs. auto.
Qed.

Lemma json_loads_wf (s : str) (v : json) :
  forallb valid_char s = true -> json_loads s = Some v -> wf_json v = true.
Proof.
  intros Hv H. unfold json_loads in H.
  destruct (parse_value _ (skip_ws s)) as [[v' rest]|] eqn:E; [|discriminate].
  destruct (skip_ws rest); [|discriminate]. injection H as ->.
  apply (proj1 (parse_sound _)) in E.
  apply (proj1 parse_wf) in E; [|apply skip_ws_forallb, Hv].
  unfold wf_json. destruct E as [-> [-> _]]. reflexivity.
Qed.

Lemma cons_opt_Some {A} (a : A) (r : option (list A)) (l : list A) :
  cons_opt a r = Some l -> exists l', r = Some l' /\ l = a :: l'.
Proof.
  destruct r as [l'|]; cbn; [|discriminate].
  intros H. injection H as <-. exists l'. auto.
Qed.

(** Decoded text holds scalar values only. *)
Lemma utf8_decode_scalar (n : nat) :
  forall (bs s : str),
    (List.length bs <= n)%nat ->
    utf8_decode bs = Some s -> forallb scalar_char s = true.
Proof.
  induction n as [|n IH]; intros bs s Hn H.
  - destruct bs; [|cbn in Hn; lia]. injection H as <-. reflexivity.
  - destruct bs as [|b0 r0]; [injection H as <-; reflexivity|].
    cbn [utf8_decode] in H. unfold is_cont in H.
    repeat match type of H with
      | context [if ?b then _ else _] => destruct b eqn:?
      | context [match ?x with | nil => _ | cons _ _ => _ end] =>
          destruct x eqn:?
      | None = Some _ => discriminate H
      end.
    all: try discriminate H.
    all: apply cons_opt_Some in H; destruct H as [s' [H ->]];
      apply IH in H; [|cbn [List.length] in *; lia];
      cbn [forallb]; rewrite H, andb_true_r;
      unfold scalar_char, valid_char, is_surrogate;
      repeat match goal with
             | E : _ = true |- _ => revert E
             | E : _ = false |- _ => revert E
             end;
      bool_to_prop; intros; lia.
Qed.

Lemma scalar_char_valid (s : str) :
  forallb scalar_char s = true -> forallb valid_char s = true.
Proof.
  rewrite !forallb_forall. intros H c Hc. specialize (H c Hc).
  unfold scalar_char in H. apply andb_true_iff in H. apply H.
Qed.

Lemma lstrip_forallb (P : Z -> bool) (s : str) :
  forallb P s = true -> forallb P (lstrip s) = true.
Proof.
  induction s as [|c s IH]; [reflexivity|]. cbn [lstrip]. intros H.
  destruct (is_space c); [|exact H].
  cbn [forallb] in H. apply andb_true_iff in H. apply IH, H.
Qed.

Lemma rev_forallb (P : Z -> bool) (s : str) :
  forallb P s = true -> forallb P (rev s) = true.
Proof.
  rewrite !forallb_forall. intros H c Hc. apply H, in_rev, Hc.
Qed.

Lemma strip_forallb (P : Z -> bool) (s : str) :
  forallb P s = true -> forallb P (strip s) = true.
Proof.
  intros H. unfold strip, rstrip.
  apply rev_forallb, lstrip_forallb, rev_forallb, lstrip_forallb, H.
Qed.

Lemma load_loop_wf (lines : list (str)) :
  forall acc data,
    forallb wf_json acc = true ->
    load_loop lines acc = inr data ->
    forallb wf_json data = true.
Proof.
  induction lines as [|raw lines IH]; intros acc data Hacc H.
  - injection H as <-. exact Hacc.
  - cbn [load_loop] in H.
    destruct (utf8_decode raw) as [text|] eqn:Ed; [|discriminate].
    destruct (str_truthy (strip text)); [|apply (IH acc data Hacc H)].
    destruct (json_loads (strip text)) as [record|] eqn:El; [|discriminate].
    apply (IH (acc ++ [record]) data); [|exact H].
    rewrite forallb_app, Hacc. cbn [forallb andb]. rewrite andb_true_r.
    apply (json_loads_wf (strip text)); [|exact El].
    apply strip_forallb, scalar_char_valid.
    apply (utf8_decode_scalar _ raw text (le_n _) Ed).
Qed.

(** Every record the loader returns is well formed. *)
Lemma load_jsonl_data_wf (file : str) (data : list json)
  (log : list StEvent) :
  load_jsonl_data file = (Some data, log) -> forallb wf_json data = true.
Proof.
  unfold load_jsonl_data.
  destruct (load_loop (readlines file) []) as [e|d] eqn:E; [discriminate|].
  intros H. injection H as <- _. apply (load_loop_wf _ [] d eq_refl E).
Qed.







(** ** The loader's failure path *)

Lemma load_loop_failing_line (raw : bytes) (e : PyException)
  (rest : list bytes) (acc : list json) :
  line_failure raw = Some e -> load_loop (raw :: rest) acc = inl e.
Proof.
  unfold line_failure. cbn [load_loop]. intros H.
  destruct (utf8_decode raw) as [text|]; [|congruence].
  destruct (str_truthy (strip text)); [|discriminate].
  destruct (json_loads (strip text)); [discriminate | congruence].
Qed.

Lemma load_loop_good_lines (before rest : list bytes) :
  Forall (fun l => line_failure l = None) before ->
  forall acc, exists acc',
    load_loop (before ++ rest) acc = load_loop rest acc'.
Proof.
  induction 1 as [|raw before Hraw Hbefore IH]; intros acc.
  - exists acc. reflexivity.
  - cbn [app load_loop]. unfold line_failure in Hraw.
    destruct (utf8_decode raw) as [text|]; [|discriminate].
    destruct (str_truthy (strip text)); [|apply IH].
    destruct (json_loads (strip text)); [apply IH | discriminate].
Qed.

Lemma first_failing_line (lines : list bytes) (raw : bytes)
  (e : PyException) :
  In raw lines -> line_failure raw = Some e ->
  exists before raw' e' after,
    lines = before ++ raw' :: after
    /\ Forall (fun l => line_failure l = None) before
    /\ line_failure raw' = Some e'.
Proof.
  induction lines as [|l lines IH]; intros Hin He; [contradiction|].
  destruct (line_failure l) as [el|] eqn:El.
  - exists [], l, el, lines. repeat split; auto.
  - destruct Hin as [-> | Hin]; [congruence|].
    destruct (IH Hin He) as [before [raw' [e' [after [-> [Hb Hr]]]]]].
    exists (l :: before), raw', e', after. repeat split; auto.
Qed.

Lemma lstrip_all_space (s : str) : forallb is_space s = true -> lstrip s = [].
Proof.
  induction s as [|c s IH]; intros H; [reflexivity|].
  cbn [forallb] in H. apply andb_true_iff in H. destruct H as [Hc Hs].
  cbn [lstrip]. rewrite Hc. apply IH, Hs.
Qed.

Lemma strip_all_space (s : str) : forallb is_space s = true -> strip s = [].
Proof.
  intros H. unfold strip, rstrip. rewrite (lstrip_all_space s H). reflexivity.
Qed.

Lemma load_loop_blank_lines (lines : list bytes) :
  forallb blank_line lines = true ->
  forall acc, load_loop lines acc = inr acc.
Proof.
  induction lines as [|raw lines IH]; intros H acc; [reflexivity|].
  cbn [forallb] in H. apply andb_true_iff in H. destruct H as [Hraw Hl].
  unfold blank_line in Hraw. cbn [load_loop].
  destruct (utf8_decode raw) as [text|]; [|discriminate].
  rewrite (strip_all_space text Hraw). cbn [str_truthy]. apply IH, Hl.
Qed.

(** C5.  If some line of the uploaded file cannot be decoded as UTF-8, or
    decodes to text that (stripped, and not empty) is not a JSON document,
    the load fails as a whole: the function returns [None] and shows one
    error carrying the exception raised by the first such line.  The
    records of the lines before it are not returned. *)
Theorem C5_load_fails_fast :
  forall (file : bytes) (raw : bytes),
    In raw (readlines file) ->
    (utf8_decode raw = None
     \/ exists text,
          utf8_decode raw = Some text
          /\ strip text <> []
          /\ json_loads (strip text) = None) ->
    exists (before after : list bytes) (raw' : bytes) (e : PyException),
      readlines file = before ++ raw' :: after
      /\ Forall (fun l => line_failure l = None) before
      /\ line_failure raw' = Some e
      /\ load_jsonl_data file = (None, [st_error_loading e]).
Proof.
  intros file raw Hin Hfail.
  assert (He : exists e, line_failure raw = Some e).
  { unfold line_failure. destruct Hfail as [-> | [text [-> [Hne Hnone]]]].
    - eexists; reflexivity.
    - rewrite Hnone. destruct (strip text); [congruence|].
      eexists; reflexivity. }
  destruct He as [e0 He0].
  destruct (first_failing_line _ raw e0 Hin He0)
    as [before [raw' [e [after [Hlines [Hbefore Hraw']]]]]].
  exists before, after, raw', e. repeat split; try assumption.
  unfold load_jsonl_data. rewrite Hlines.
  destruct (load_loop_good_lines before (raw' :: after) Hbefore [])
    as [acc' ->].
  rewrite (load_loop_failing_line raw' e after acc' Hraw'). reflexivity.
Qed.

Lemma C5_witness :
  In (py "{oops") (readlines (py "{}" ++ [10] ++ py "{oops"))
  /\ json_loads (strip (py "{oops")) = None
  /\ exists (before after : list bytes) (raw' : bytes) (e : PyException),
       readlines (py "{}" ++ [10] ++ py "{oops") = before ++ raw' :: after
       /\ Forall (fun l => line_failure l = None) before
       /\ line_failure raw' = Some e
       /\ load_jsonl_data (py "{}" ++ [10] ++ py "{oops")
          = (None, [st_error_loading e]).
Proof.
  split; [right; left; reflexivity|]. split; [reflexivity|].
  apply (C5_load_fails_fast (py "{}" ++ [10] ++ py "{oops") (py "{oops")).
  - right; left; reflexivity.
  - right. exists (py "{oops").
    split; [reflexivity|]. split; [|reflexivity].
    intros H; vm_compute in H; discriminate H.
Defined.

(** C10.  A file whose lines are all blank (white space only) loads without
    error to the empty list, and the page then stops exactly where it stops
    after a failed load: at the early [return], with no dataset to review.
    (After a failed load the loader's error message is on the page; after a
    blank file nothing is.) *)
Theorem C10_blank_file_loads_empty_then_page_stops :
  forall file : bytes,
    forallb blank_line (readlines file) = true ->
    load_jsonl_data file = (Some [], [])
    /\ (forall (image : str) (images : list str) (index : nat)
               (ui : Reviewer),
          main (mkSession (Some file) (image :: images) index ui)
          = Stopped [])
    /\ (forall (failing : bytes) (log : list StEvent) (image : str)
               (images : list str) (index : nat) (ui : Reviewer),
          load_jsonl_data failing = (None, log) ->
          main (mkSession (Some failing) (image :: images) index ui)
          = Stopped log).
Proof.
  intros file Hblank.
  assert (Hload : load_jsonl_data file = (Some [], [])).
  { unfold load_jsonl_data.
    rewrite (load_loop_blank_lines _ Hblank []). reflexivity. }
  split; [exact Hload|]. split.
  - intros image images index ui. unfold main. cbn [jsonl_file uploaded_images].
    rewrite Hload. reflexivity.
  - intros failing log image images index ui Hfail. unfold main.
    cbn [jsonl_file uploaded_images]. rewrite Hfail. reflexivity.
Qed.

Lemma C10_witness :
  forallb blank_line (readlines [32; 10; 9; 13; 10; 10; 194; 160]) = true
  /\ load_jsonl_data [32; 10; 9; 13; 10; 10; 194; 160] = (Some [], [])
  /\ main (mkSession (Some [32; 10; 9; 13; 10; 10; 194; 160])
             [py "a.png"] 0 (untouched 1))
     = Stopped [].
Proof.
  split; [reflexivity|].
  pose proof (C10_blank_file_loads_empty_then_page_stops
                [32; 10; 9; 13; 10; 10; 194; 160] eq_refl) as H.
  split; [exact (proj1 H) | exact (proj1 (proj2 H) _ _ _ _)].
Defined.

(** ** An untouched record *)

Lemma spec_scan_paired {V} (l : list (Turn V)) :
  paired l = true -> spec_scan Empty l = pair_up l.
Proof.
  induction l as [|x|h g l IH] using list_pair_ind; intros H.
  - reflexivity.
  - discriminate.
  - cbn [paired] in H. rewrite !andb_true_iff in H.
    destruct H as [[Hh Hg] Hl]. cbn [spec_scan pair_up flush app].
    rewrite Hh. apply str_eqb_eq in Hg. rewrite Hg.
    change (str_eqb (py "gpt") (py "human")) with false.
    change (str_eqb (py "gpt") (py "gpt")) with true.
    cbn iota. rewrite (IH Hl). reflexivity.
Qed.

Lemma enumerate_cons {A} (x : A) (l : list A) (start : nat) :
  enumerate (x :: l) start = (start, x) :: enumerate l (S start).
Proof. reflexivity. Qed.

Lemma untouched_edit_pairs (num_new : nat) (l : list (Turn str)) :
  paired l = true ->
  forall start,
    flat_map (edit_pair (untouched num_new))
             (enumerate (map dict_of_pair (pair_up l)) start)
    = l.
Proof.
  induction l as [|x|h g l IH] using list_pair_ind; intros H start.
  - reflexivity.
  - discriminate.
  - cbn [paired] in H. rewrite !andb_true_iff in H.
    destruct H as [[Hh Hg] Hl]. apply str_eqb_eq in Hh, Hg.
    cbn [pair_up map]. rewrite enumerate_cons. cbn [flat_map].
    rewrite (IH Hl). rewrite (turn_eta h), (turn_eta g), Hh, Hg.
    reflexivity.
Qed.

Lemma untouched_new_pairs (num_new : nat) (l : list nat) :
  flat_map (new_pair (untouched num_new)) l = [].
Proof. induction l as [|i l IH]; [reflexivity | exact IH]. Qed.

Lemma untouched_paired (num_new : nat) (turns : list (Turn str)) :
  paired turns = true ->
  display_conversations (untouched num_new) turns = turns.
Proof.
  intros H. unfold display_conversations.
  rewrite reconstruct_pairs_spec. unfold spec_reconstruct.
  rewrite (spec_scan_paired turns H).
  rewrite (untouched_edit_pairs num_new turns H).
  change (number_input (untouched num_new)) with num_new.
  rewrite untouched_new_pairs, List.app_nil_r. reflexivity.
Qed.

Lemma turns_of_json_of_turns (turns : list (Turn str)) :
  turns_of_json (map json_of_turn turns) = Some turns.
Proof.
  induction turns as [|[f v] turns IH]; [reflexivity|].
  cbn [map turns_of_json]. rewrite IH. reflexivity.
Qed.

Lemma dict_set_same {V} (k : str) (v : V) (d : pydict V) :
  dict_get k d = Some v -> dict_set k v d = d.
Proof.
  induction d as [|[k' v'] d IH]; intros H; [discriminate|].
  cbn [dict_get dict_set] in *. destruct (str_eqb k k').
  - congruence.
  - rewrite (IH H). reflexivity.
Qed.

Lemma dict_get_set {V} (k : str) (v : V) (d : pydict V) :
  dict_get k (dict_set k v d) = Some v.
Proof.
  induction d as [|[k' v'] d IH]; cbn [dict_get dict_set].
  - rewrite str_eqb_refl. reflexivity.
  - destruct (str_eqb k k') eqn:E; cbn [dict_get]; rewrite E; auto.
Qed.

(** C1, as the code has it.  An untouched record reproduces its turns
    exactly when they are complete pairs: strictly alternating [human],
    [gpt], starting with [human] and ending with [gpt].  For a record with
    such turns the editor returns the same turn list, so the record written
    back holds the same turn values in the same order; and when the record
    stored its turns as plain [{"from": ..., "value": ...}] objects the
    record is unchanged and so is its serialization. *)
Theorem C1_complete_pairs_roundtrip :
  forall (turns : list (Turn str)) (num_new : nat),
    (display_conversations (untouched num_new) turns = turns
     <-> paired turns = true)
    /\ (paired turns = true ->
        forall members : pydict json,
          get_conversations (JObj members) = Some turns ->
          exists item' : json,
            review_item (untouched num_new) (JObj members) = Some item'
            /\ get_conversations item' = Some turns
            /\ (dict_get (py "conversations") members
                = Some (JArr (map json_of_turn turns)) ->
                item' = JObj members
                /\ serializeOne item' = serializeOne (JObj members))).
Proof.
  intros turns num_new. split; [split|].
  - intros H. rewrite <- H. apply display_conversations_paired.
  - apply untouched_paired.
  - intros Hp members Hconv.
    eexists. unfold review_item. rewrite Hconv.
    rewrite (untouched_paired num_new turns Hp).
    split; [reflexivity|]. split.
    + cbn [get_conversations]. rewrite dict_get_set.
      apply turns_of_json_of_turns.
    + intros Hget. rewrite (dict_set_same _ _ _ Hget). split; reflexivity.
Qed.

Lemma C1_witness :
  paired [human (py "Q1"); gpt (py "A1"); human (py "Q2"); gpt (py "A2")]
  = true
  /\ get_conversations
       (JObj [(py "id", JInt 4);
              (py "conversations",
               JArr (map json_of_turn
                       [human (py "Q1"); gpt (py "A1"); human (py "Q2");
                        gpt (py "A2")]))])
     = Some [human (py "Q1"); gpt (py "A1"); human (py "Q2"); gpt (py "A2")]
  /\ exists item' : json,
       review_item (untouched 1)
         (JObj [(py "id", JInt 4);
                (py "conversations",
                 JArr (map json_of_turn
                         [human (py "Q1"); gpt (py "A1"); human (py "Q2");
                          gpt (py "A2")]))])
       = Some item'
       /\ get_conversations item'
          = Some [human (py "Q1"); gpt (py "A1"); human (py "Q2");
                  gpt (py "A2")]
       /\ (dict_get (py "conversations")
             [(py "id", JInt 4);
              (py "conversations",
               JArr (map json_of_turn
                       [human (py "Q1"); gpt (py "A1"); human (py "Q2");
                        gpt (py "A2")]))]
           = Some (JArr (map json_of_turn
                           [human (py "Q1"); gpt (py "A1"); human (py "Q2");
                            gpt (py "A2")])) ->
           item'
           = JObj [(py "id", JInt 4);
                   (py "conversations",
                    JArr (map json_of_turn
                            [human (py "Q1"); gpt (py "A1"); human (py "Q2");
                             gpt (py "A2")]))]
           /\ serializeOne item'
              = serializeOne
                  (JObj [(py "id", JInt 4);
                         (py "conversations",
                          JArr (map json_of_turn
                                  [human (py "Q1"); gpt (py "A1");
                                   human (py "Q2"); gpt (py "A2")]))])).
Proof.
  split; [reflexivity|]. split; [reflexivity|].
  apply (proj2 (C1_complete_pairs_roundtrip
                  [human (py "Q1"); gpt (py "A1"); human (py "Q2");
                   gpt (py "A2")] 1));
    reflexivity.
Defined.

(** C1 as stated fails: a record with two questions in a row comes back
    from an untouched editor with an empty answer inserted after each
    question, and its serialization changes. *)
Lemma C1_counterexample :
  review_item (untouched 1)
    (JObj [(py "conversations",
            JArr (map json_of_turn [human (py "Q1"); human (py "Q2")]))])
  = Some
      (JObj [(py "conversations",
              JArr (map json_of_turn
                      [human (py "Q1"); gpt []; human (py "Q2"); gpt []]))])
  /\ display_conversations (untouched 1) [human (py "Q1"); human (py "Q2")]
     <> [human (py "Q1"); human (py "Q2")]
  /\ serializeOne
       (JObj [(py "conversations",
               JArr (map json_of_turn
                       [human (py "Q1"); gpt []; human (py "Q2"); gpt []]))])
     <> serializeOne
          (JObj [(py "conversations",
                  JArr (map json_of_turn
                          [human (py "Q1"); human (py "Q2")]))]).
Proof.
  split; [reflexivity|]. split.
  - intros H. vm_compute in H. discriminate H.
  - intros H. vm_compute in H. discriminate H.
Qed.

(* ================================================================== *)
(** * Further properties of the code *)

(** ** The loader *)

Lemma load_loop_all_good (lines : list bytes) :
  Forall (fun l => line_failure l = None) lines ->
  forall acc, load_loop lines acc = inr (acc ++ lines_records lines).
Proof.
  induction 1 as [|raw lines Hraw Hlines IH]; intros acc.
  - cbn. rewrite List.app_nil_r. reflexivity.
  - cbn [load_loop lines_records flat_map]. unfold line_failure in Hraw.
    unfold line_record.
    destruct (utf8_decode raw) as [text|]; [|discriminate].
    destruct (str_truthy (strip text)).
    + destruct (json_loads (strip text)) as [record|]; [|discriminate].
      rewrite IH, <- app_assoc. reflexivity.
    + apply IH.
Qed.

Lemma load_loop_inr_good (lines : list bytes) :
  forall acc data,
    load_loop lines acc = inr data ->
    Forall (fun l => line_failure l = None) lines.
Proof.
  induction lines as [|raw lines IH]; intros acc data H; [constructor|].
  cbn [load_loop] in H. unfold line_failure.
  destruct (utf8_decode raw) as [text|] eqn:Ed; [|discriminate].
  destruct (str_truthy (strip text)) eqn:Et.
  - destruct (json_loads (strip text)) as [record|] eqn:El; [|discriminate].
    constructor; [rewrite Ed, Et, El; reflexivity | apply (IH _ _ H)].
  - constructor; [rewrite Ed, Et; reflexivity | apply (IH _ _ H)].
Qed.


Lemma load_loop_skips_blank (lines : list bytes) :
  forall acc,
    load_loop (filter (fun l => negb (blank_line l)) lines) acc
    = load_loop lines acc.
Proof.
  induction lines as [|raw lines IH]; intros acc; [reflexivity|].
  cbn [filter]. destruct (blank_line raw) eqn:Eb; cbn [negb].
  - rewrite IH. cbn [load_loop]. unfold blank_line in Eb.
    destruct (utf8_decode raw) as [text|]; [|discriminate].
    rewrite (strip_all_space text Eb). reflexivity.
  - cbn [load_loop]. destruct (utf8_decode raw) as [text|]; [|reflexivity].
    destruct (str_truthy (strip text)); [|apply IH].
    destruct (json_loads (strip text)); [apply IH | reflexivity].
Qed.

(** X2.  Blank lines do not matter: a file whose lines are the non-blank
    lines of another loads to the same result, with the same message on
    a failure. *)
Theorem X2_blank_lines_do_not_matter :
  forall (file file' : bytes),
    readlines file' = filter (fun l => negb (blank_line l)) (readlines file) ->
    load_jsonl_data file' = load_jsonl_data file.
Proof.
  intros file file' H. unfold load_jsonl_data.
  rewrite H, load_loop_skips_blank. reflexivity.
Qed.

Lemma X2_blank_lines_do_not_matter_witness :
  readlines (py "{}" ++ [10] ++ py "[1]")
  = filter (fun l => negb (blank_line l))
      (readlines ([10] ++ py "{}" ++ [10; 32; 9; 13; 10] ++ py "[1]"))
  /\ load_jsonl_data (py "{}" ++ [10] ++ py "[1]")
     = load_jsonl_data ([10] ++ py "{}" ++ [10; 32; 9; 13; 10] ++ py "[1]").
Proof.
  split; [reflexivity|].
  apply (X2_blank_lines_do_not_matter
           ([10] ++ py "{}" ++ [10; 32; 9; 13; 10] ++ py "[1]")
           (py "{}" ++ [10] ++ py "[1]")).
  reflexivity.
Defined.

(** *** The lines of a file *)

Lemma readlines_nil_iff (bs : bytes) : readlines bs = [] <-> bs = [].
Proof.
  split; [|intros ->; reflexivity]. destruct bs as [|b r]; [reflexivity|].
  cbn [readlines]. destruct (b =? 10); [discriminate|].
  destruct (readlines r); discriminate.
Qed.

(** X3.  The lines the loader iterates over partition the file: joined
    they give back its bytes, none is empty, a newline can only be the
    last byte of a line, and every line but the last ends with one. *)
Theorem X3_lines_partition_the_file :
  forall bs : bytes,
    List.concat (readlines bs) = bs
    /\ Forall (fun l => l <> [] /\ no_newline (removelast l) = true)
         (readlines bs)
    /\ (forall (i : nat) (l : bytes),
          nth_error (readlines bs) i = Some l ->
          (S i < List.length (readlines bs))%nat ->
          last l 0 = 10).
Proof.
  induction bs as [|b r [IHc [IHf IHl]]].
  - repeat split; [constructor | intros [|i] l H; discriminate].
  - cbn [readlines]. destruct (b =? 10) eqn:Eb.
    + apply Z.eqb_eq in Eb. subst b. split; [|split].
      * cbn [List.concat app]. rewrite IHc. reflexivity.
      * constructor; [split; [discriminate | reflexivity] | exact IHf].
      * intros [|i] l H Hlen; cbn [nth_error List.length] in *.
        -- injection H as <-. reflexivity.
        -- apply (IHl i l H). lia.
    + destruct (readlines r) as [|l0 ls] eqn:Er.
      * apply readlines_nil_iff in Er. subst r. split; [|split].
        -- reflexivity.
        -- constructor; [|constructor]. split; [discriminate | reflexivity].
        -- intros [|[|i]] l H Hlen; cbn in Hlen; lia.
      * apply Forall_cons_iff in IHf. destruct IHf as [[Hne Hnl] Hrest].
        split; [|split].
        -- cbn [List.concat app] in *. rewrite IHc. reflexivity.
        -- constructor; [|exact Hrest]. split; [discriminate|].
           destruct l0 as [|c l0]; [congruence|].
           change (removelast (b :: c :: l0)) with (b :: removelast (c :: l0)).
           unfold no_newline in *. cbn [forallb]. rewrite Eb, Hnl. reflexivity.
        -- intros [|i] l H Hlen; cbn [nth_error List.length] in *.
           ++ injection H as <-. destruct l0 as [|c l0]; [congruence|].
              change (last (b :: c :: l0) 0) with (last (c :: l0) 0).
              apply (IHl 0%nat (c :: l0) eq_refl). cbn [List.length]. lia.
           ++ apply (IHl (S i) l H). cbn [List.length]. lia.
Qed.

Lemma X3_lines_partition_the_file_witness :
  nth_error (readlines [97; 10; 10; 98]) 1 = Some [10]
  /\ last [10] 0 = 10.
Proof.
  split; [reflexivity|].
  apply (proj2 (proj2 (X3_lines_partition_the_file [97; 10; 10; 98])) 1%nat [10]).
  - reflexivity.
  - cbn. lia.
Defined.

(** ** The scan and the editor *)

Lemma spec_scan_other_roles {V} (turns : list (Turn V)) :
  forall acc,
    spec_scan acc (filter (fun t => is_human t || is_gpt t) turns)
    = spec_scan acc turns.
Proof.
  induction turns as [|t rest IH]; intros acc; [reflexivity|].
  cbn [filter]. unfold is_human at 1, is_gpt at 1.
  destruct (str_eqb (from t) (py "human")) eqn:Hh; cbn [orb].
  - cbn [spec_scan]. rewrite Hh, IH. reflexivity.
  - destruct (str_eqb (from t) (py "gpt")) eqn:Hg.
    + cbn [spec_scan]. rewrite Hh, Hg. destruct acc; rewrite IH; reflexivity.
    + cbn [spec_scan]. rewrite Hh, Hg. apply IH.
Qed.

Lemma reconstruct_pairs_other_roles {V} (turns : list (Turn V)) :
  reconstruct_pairs (filter (fun t => is_human t || is_gpt t) turns)
  = reconstruct_pairs turns.
Proof.
  rewrite !reconstruct_pairs_spec. unfold spec_reconstruct.
  rewrite spec_scan_other_roles. reflexivity.
Qed.

(** X4.  Turns whose role is neither human nor gpt are ignored: removing
    them changes neither the pairs the scan builds nor what the editor
    returns. *)
Theorem X4_other_roles_ignored :
  forall (ui : Reviewer) (turns : list (Turn str)),
    reconstruct_pairs (filter (fun t => is_human t || is_gpt t) turns)
    = reconstruct_pairs turns
    /\ display_conversations ui
         (filter (fun t => is_human t || is_gpt t) turns)
       = display_conversations ui turns.
Proof.
  intros ui turns. split; [apply reconstruct_pairs_other_roles|].
  unfold display_conversations. rewrite reconstruct_pairs_other_roles.
  reflexivity.
Qed.

Lemma spec_scan_at_human {V} (a : list (Turn V)) (q : V) (b : list (Turn V)) :
  forall acc,
    spec_scan acc (a ++ human q :: b)
    = spec_scan acc a ++ spec_scan Empty (human q :: b).
Proof.
  induction a as [|t a IH]; intros acc.
  - cbn [app]. change (spec_scan acc []) with (flush acc).
    cbn [spec_scan human from value].
    change (str_eqb (py "human") (py "human")) with true. cbn iota.
    reflexivity.
  - cbn [app spec_scan].
    destruct (str_eqb (from t) (py "human")).
    + rewrite IH, app_assoc. reflexivity.
    + destruct (str_eqb (from t) (py "gpt")); [destruct acc|];
        rewrite IH; reflexivity.
Qed.

(** X5.  Every human turn starts the scan afresh: the pairs of a
    conversation are the pairs of what precedes a human turn followed by
    the pairs of what starts at it. *)
Theorem X5_scan_splits_at_human :
  forall (V : Type) (a : list (Turn V)) (q : V) (b : list (Turn V)),
    reconstruct_pairs (a ++ human q :: b)
    = reconstruct_pairs a ++ reconstruct_pairs (human q :: b).
Proof.
  intros V a q b. rewrite !reconstruct_pairs_spec. unfold spec_reconstruct.
  rewrite spec_scan_at_human, map_app. reflexivity.
Qed.

Lemma spec_scan_after_gpt {V} (x : V) (rest : list (Turn V))
  (acc : Accumulator V) :
  spec_scan acc (gpt x :: rest)
  = match acc with
    | HasQuestion q => [mkPair q (Some x)]
    | Empty => []
    end ++ spec_scan Empty rest.
Proof.
  cbn [spec_scan gpt from value].
  change (str_eqb (py "gpt") (py "human")) with false.
  change (str_eqb (py "gpt") (py "gpt")) with true. cbn iota.
  destruct acc; reflexivity.
Qed.

Lemma spec_scan_repeated_gpt {V} (a : list (Turn V)) (x y : V)
  (b : list (Turn V)) :
  forall acc,
    spec_scan acc (a ++ gpt x :: gpt y :: b)
    = spec_scan acc (a ++ gpt x :: b).
Proof.
  induction a as [|t a IH]; intros acc.
  - cbn [app]. rewrite !spec_scan_after_gpt. reflexivity.
  - cbn [app spec_scan].
    destruct (str_eqb (from t) (py "human")); [rewrite IH; reflexivity|].
    destruct (str_eqb (from t) (py "gpt")); [destruct acc|];
      rewrite IH; reflexivity.
Qed.

(** X6.  Of two gpt turns in a row the second is dropped: the scan builds
    the same pairs with and without it. *)
Theorem X6_repeated_gpt_dropped :
  forall (V : Type) (a : list (Turn V)) (x y : V) (b : list (Turn V)),
    reconstruct_pairs (a ++ gpt x :: gpt y :: b)
    = reconstruct_pairs (a ++ gpt x :: b).
Proof.
  intros V a x y b. rewrite !reconstruct_pairs_spec. unfold spec_reconstruct.
  rewrite spec_scan_repeated_gpt. reflexivity.
Qed.

(** X7.  What the editor returns is made of complete pairs: scanned again
    it gives one pair, with an answer, per two turns, and an editor in
    which nothing is touched returns it unchanged. *)
Theorem X7_editor_output_stable :
  forall (ui : Reviewer) (turns : list (Turn str)) (num_new : nat),
    reconstruct_pairs (display_conversations ui turns)
    = map dict_of_pair (pair_up (display_conversations ui turns))
    /\ (2 * List.length (reconstruct_pairs (display_conversations ui turns))
        = List.length (display_conversations ui turns))%nat
    /\ display_conversations (untouched num_new)
         (display_conversations ui turns)
       = display_conversations ui turns.
Proof.
  intros ui turns num_new.
  pose proof (display_conversations_paired ui turns) as Hp.
  split; [|split].
  - rewrite reconstruct_pairs_spec. unfold spec_reconstruct.
    rewrite (spec_scan_paired _ Hp). reflexivity.
  - rewrite reconstruct_pairs_spec, length_map. unfold spec_reconstruct.
    rewrite (spec_scan_paired _ Hp).
    revert Hp. generalize (display_conversations ui turns) as l.
    induction l as [|x|h g l IH] using list_pair_ind; intros Hp.
    + reflexivity.
    + discriminate.
    + cbn [paired] in Hp. rewrite !andb_true_iff in Hp.
      cbn [pair_up List.length]. rewrite <- (IH (proj2 Hp)). lia.
  - apply untouched_paired, Hp.
Qed.

Lemma enumerate_nth {A} (l : list A) :
  forall (start k : nat) (x : A),
    nth_error l k = Some x ->
    nth_error (enumerate l start) k = Some ((start + k)%nat, x).
Proof.
  induction l as [|y l IH]; intros start k x H; [destruct k; discriminate|].
  rewrite enumerate_cons. destruct k as [|k]; cbn [nth_error] in *.
  - injection H as ->. rewrite Nat.add_0_r. reflexivity.
  - rewrite (IH (S start) k x H). f_equal. f_equal. lia.
Qed.

Lemma nth_error_flat_map_pair {A B} (f : A -> list B) (g h : A -> B)
  (l : list A) :
  (forall x, f x = [g x; h x]) ->
  forall (k : nat) (x : A),
    nth_error l k = Some x ->
    nth_error (flat_map f l) (2 * k) = Some (g x)
    /\ nth_error (flat_map f l) (2 * k + 1) = Some (h x).
Proof.
  intros Hf. induction l as [|y l IH]; intros k x H; [destruct k; discriminate|].
  cbn [flat_map]. rewrite Hf. destruct k as [|k]; cbn [nth_error] in H.
  - injection H as ->. split; reflexivity.
  - destruct (IH k x H) as [H1 H2].
    replace (2 * S k)%nat with (S (S (2 * k))) by lia.
    replace (S (S (2 * k)) + 1)%nat with (S (S (2 * k + 1))) by lia.
    cbn [app nth_error]. auto.
Qed.

Lemma nth_error_app_left {A} (l l' : list A) (k : nat) (x : A) :
  nth_error l k = Some x -> nth_error (l ++ l') k = Some x.
Proof.
  intros H. rewrite nth_error_app1; [exact H|].
  apply nth_error_Some. congruence.
Qed.

(** X8.  The pair number k (from 0) of the scan is edited through the text
    inputs keyed q(k+1) and a(k+1), which start from its question and its
    answer (the empty text when it has none), and their values are the
    turns 2k and 2k+1 of the result. *)
Theorem X8_edits_by_position :
  forall (ui : Reviewer) (turns : list (Turn str)) (k : nat)
         (p : pydict str),
    nth_error (reconstruct_pairs turns) k = Some p ->
    nth_error (display_conversations ui turns) (2 * k)
    = Some (human (text_input ui (fkey "q" (S k))
                     (dict_get_default (py "question") [] p)))
    /\ nth_error (display_conversations ui turns) (2 * k + 1)
       = Some (gpt (text_input ui (fkey "a" (S k))
                      (dict_get_default (py "answer") [] p))).
Proof.
  intros ui turns k p H. unfold display_conversations.
  pose proof (enumerate_nth _ 1 k p H) as He.
  destruct (nth_error_flat_map_pair (edit_pair ui)
              (fun ip => human (text_input ui (fkey "q" (fst ip))
                                  (dict_get_default (py "question") []
                                     (snd ip))))
              (fun ip => gpt (text_input ui (fkey "a" (fst ip))
                                (dict_get_default (py "answer") [] (snd ip))))
              (enumerate (reconstruct_pairs turns) 1)
              ltac:(intros [i d]; reflexivity) k _ He) as [H1 H2].
  split; apply nth_error_app_left; assumption.
Qed.

Lemma X8_edits_by_position_witness :
  nth_error (reconstruct_pairs [human (py "Q1"); human (py "Q2")]) 1
  = Some [(py "question", py "Q2")]
  /\ nth_error
       (display_conversations (reviewer_of [(py "a2", py "typed")] 1)
          [human (py "Q1"); human (py "Q2")]) 3
     = Some (gpt (py "typed")).
Proof.
  split; [reflexivity|].
  apply (proj2 (X8_edits_by_position (reviewer_of [(py "a2", py "typed")] 1)
                  [human (py "Q1"); human (py "Q2")] 1
                  [(py "question", py "Q2")] eq_refl)).
Defined.

(** *** The keys of the text inputs *)

Lemma int_repr_nat_inj (i j : nat) :
  int_repr (Z.of_nat i) = int_repr (Z.of_nat j) -> i = j.
Proof.
  intros H. apply Nat2Z.inj.
  pose proof (Nat2Z.is_nonneg i) as Hi. pose proof (Nat2Z.is_nonneg j) as Hj.
  destruct (Z.of_nat i) as [|p|p], (Z.of_nat j) as [|p'|p']; try lia;
    unfold int_repr in H; cbn [Z.to_int] in H;
    apply (f_equal chars_uint) in H; rewrite ?chars_uint_chars in H.
  - exfalso. apply (DecimalPos.Unsigned.to_uint_nonzero p'). symmetry.
    exact H.
  - exfalso. apply (DecimalPos.Unsigned.to_uint_nonzero p). exact H.
  - apply DecimalPos.Unsigned.to_uint_inj in H. congruence.
Qed.

Lemma fkey_inj (prefix : string) (i j : nat) :
  fkey prefix i = fkey prefix j -> i = j.
Proof.
  unfold fkey. intros H. apply app_inv_head in H.
  apply int_repr_nat_inj, H.
Qed.

Lemma NoDup_flat_map_pair {A B} (g h : A -> B) (l : list A) :
  NoDup l ->
  (forall x y, g x = g y -> x = y) ->
  (forall x y, h x = h y -> x = y) ->
  (forall x y, g x <> h y) ->
  NoDup (flat_map (fun x => [g x; h x]) l).
Proof.
  intros Hl Hg Hh Hgh. induction Hl as [|a l Ha Hl IH]; [constructor|].
  cbn [flat_map app].
  assert (Hin : forall b, In b (flat_map (fun x => [g x; h x]) l) ->
                          exists y, In y l /\ (b = g y \/ b = h y)).
  { intros b Hb. apply in_flat_map in Hb. destruct Hb as [y [Hy Hb]].
    exists y. split; [exact Hy|]. cbn in Hb. intuition auto. }
  constructor; [|constructor; [|exact IH]].
  - intros [E | Hb].
    + apply (Hgh a a). symmetry. exact E.
    + apply Hin in Hb. destruct Hb as [y [Hy [E | E]]].
      * apply Hg in E. subst y. contradiction.
      * apply (Hgh a y E).
  - intros Hb. apply Hin in Hb. destruct Hb as [y [Hy [E | E]]].
    + apply (Hgh y a). symmetry. exact E.
    + apply Hh in E. subst y. contradiction.
Qed.

Lemma flat_map_enumerate {A B} (F : nat -> list B) (l : list A) :
  forall start,
    flat_map (fun ip : nat * A => F (fst ip)) (enumerate l start)
    = flat_map F (seq start (List.length l)).
Proof.
  induction l as [|x l IH]; intros start; [reflexivity|].
  rewrite enumerate_cons. cbn [flat_map List.length seq fst].
  rewrite IH. reflexivity.
Qed.

Lemma echoed_keys (turns : list (Turn str)) (num_new : nat) :
  map value (display_conversations (key_echo num_new) turns)
  = flat_map (fun i => [fkey "q" i; fkey "a" i])
      (seq 1 (List.length (reconstruct_pairs turns)))
    ++ flat_map (fun i => [fkey "new_q" i; fkey "new_a" i]) (seq 0 num_new).
Proof.
  unfold display_conversations. rewrite map_app. f_equal.
  - rewrite <- (flat_map_enumerate (fun i => [fkey "q" i; fkey "a" i])).
    generalize (enumerate (reconstruct_pairs turns) 1) as l.
    induction l as [|[i d] l IH]; [reflexivity|].
    cbn [flat_map map app fst]. rewrite map_app, IH. reflexivity.
  - change (number_input (key_echo num_new)) with num_new.
    induction (seq 0 num_new) as [|i l IH]; [reflexivity|].
    cbn [flat_map]. rewrite map_app, IH. reflexivity.
Qed.

(** X9.  The keys the editor passes to its text inputs are q1, a1, q2, a2,
    ... for the pairs, then new_q0, new_a0, ... for the new slots, and no
    two text inputs of one run share a key. *)
Theorem X9_widget_keys_distinct :
  forall (turns : list (Turn str)) (num_new : nat),
    map value (display_conversations (key_echo num_new) turns)
    = flat_map (fun i => [fkey "q" i; fkey "a" i])
        (seq 1 (List.length (reconstruct_pairs turns)))
      ++ flat_map (fun i => [fkey "new_q" i; fkey "new_a" i])
           (seq 0 num_new)
    /\ NoDup (map value (display_conversations (key_echo num_new) turns)).
Proof.
  intros turns num_new. split; [apply echoed_keys|]. rewrite echoed_keys.
  assert (Hd : forall (p p' : string) (n : nat) (i j : nat),
             nth n (py p) 0 <> nth n (py p') 0 ->
             (n < List.length (py p))%nat -> (n < List.length (py p'))%nat ->
             fkey p i <> fkey p' j).
  { intros p p' n i j Hn Hl Hl' E. apply Hn.
    apply (f_equal (fun l => nth n l 0)) in E. unfold fkey in E.
    rewrite !app_nth1 in E by assumption. exact E. }
  apply NoDup_app.
  - apply NoDup_flat_map_pair.
    + apply seq_NoDup.
    + apply fkey_inj.
    + apply fkey_inj.
    + intros i j. apply (Hd "q"%string "a"%string 0%nat);
        [discriminate | cbn; lia | cbn; lia].
  - apply NoDup_flat_map_pair.
    + apply seq_NoDup.
    + apply fkey_inj.
    + apply fkey_inj.
    + intros i j. apply (Hd "new_q"%string "new_a"%string 4%nat);
        [discriminate | cbn; lia | cbn; lia].
  - intros k Hk Hk'. apply in_flat_map in Hk, Hk'.
    destruct Hk as [i [_ Hi]], Hk' as [j [_ Hj]]. cbn [In] in Hi, Hj.
    destruct Hi as [<- | [<- | []]], Hj as [E | [E | []]]; revert E.
    + apply (Hd "new_q"%string "q"%string 0%nat);
        [discriminate | cbn; lia | cbn; lia].
    + apply (Hd "new_a"%string "q"%string 0%nat);
        [discriminate | cbn; lia | cbn; lia].
    + apply (Hd "new_q"%string "a"%string 0%nat);
        [discriminate | cbn; lia | cbn; lia].
    + apply (Hd "new_a"%string "a"%string 0%nat);
        [discriminate | cbn; lia | cbn; lia].
Qed.

(** ** Reviewing a record *)

Lemma dict_get_set_other {V} (k k' : str) (v : V) (d : pydict V) :
  str_eqb k' k = false -> dict_get k' (dict_set k v d) = dict_get k' d.
Proof.
  intros Hk. induction d as [|[k0 v0] d IH]; cbn [dict_get dict_set].
  - rewrite Hk. reflexivity.
  - destruct (str_eqb k k0) eqn:E; cbn [dict_get].
    + apply str_eqb_eq in E. subst k0. rewrite Hk. reflexivity.
    + destruct (str_eqb k' k0); [reflexivity | exact IH].
Qed.

Lemma dict_set_keys {V} (k : str) (v : V) (d : pydict V) :
  map fst (dict_set k v d)
  = if dict_in k d then map fst d else map fst d ++ [k].
Proof.
  unfold dict_in. induction d as [|[k0 v0] d IH]; [reflexivity|].
  cbn [dict_get dict_set]. destruct (str_eqb k k0); [reflexivity|].
  cbn [map fst]. rewrite IH. destruct (dict_get k d); reflexivity.
Qed.

Lemma review_item_inv (ui : Reviewer) (item item' : json) :
  review_item ui item = Some item' ->
  exists members convs,
    item = JObj members
    /\ get_conversations item = Some convs
    /\ item' = JObj (dict_set (py "conversations")
                       (JArr (map json_of_turn
                                (display_conversations ui convs)))
                       members).
Proof.
  unfold review_item. destruct item as [ | | | | |members]; try discriminate.
  destruct (get_conversations (JObj members)) as [convs|]; [|discriminate].
  intros H. injection H as <-. exists members, convs. auto.
Qed.



Lemma review_item_reads_back (ui : Reviewer) (item : json) :
  match get_conversations item with
  | None => review_item ui item = None
  | Some convs =>
      exists item' : json,
        review_item ui item = Some item'
        /\ get_conversations item' = Some (display_conversations ui convs)
  end.
Proof.
  destruct (get_conversations item) as [convs|] eqn:E.
  - destruct item as [ | | | | |members]; try discriminate.
    eexists. unfold review_item. rewrite E. split; [reflexivity|].
    cbn [get_conversations]. rewrite dict_get_set.
    apply turns_of_json_of_turns.
  - unfold review_item. destruct item; try reflexivity.
    rewrite E. reflexivity.
Qed.



(** X12.  A record without a conversations field gets one, appended
    after its other fields: it holds the new pairs that were filled in,
    and the empty list when nothing was typed. *)
Theorem X12_review_adds_missing_conversations :
  forall (ui : Reviewer) (members : pydict json),
    dict_get (py "conversations") members = None ->
    review_item ui (JObj members)
    = Some (JObj (members
                  ++ [(py "conversations",
                       JArr (map json_of_turn
                               (flat_map (new_pair ui)
                                  (seq 0 (number_input ui)))))]))
    /\ forall num_new : nat,
         review_item (untouched num_new) (JObj members)
         = Some (JObj (members ++ [(py "conversations", JArr [])])).
Proof.
  intros ui members H.
  assert (Hin : dict_in (py "conversations") members = false)
    by (unfold dict_in; rewrite H; reflexivity).
  assert (Hrev : forall u, review_item u (JObj members)
            = Some (JObj (members
                          ++ [(py "conversations",
                               JArr (map json_of_turn
                                       (display_conversations u [])))]))).
  { intros u. unfold review_item. cbn [get_conversations]. rewrite H.
    rewrite dict_set_fresh by exact Hin. reflexivity. }
  split.
  - rewrite Hrev. reflexivity.
  - intros num_new. rewrite Hrev.
    rewrite (untouched_paired num_new [] eq_refl). reflexivity.
Qed.

Lemma X12_review_adds_missing_conversations_witness :
  dict_get (py "conversations") [(py "image", JStr (py "a.png"))] = None
  /\ review_item (untouched 2) (JObj [(py "image", JStr (py "a.png"))])
     = Some (JObj ([(py "image", JStr (py "a.png"))]
                   ++ [(py "conversations", JArr [])])).
Proof.
  split; [reflexivity|].
  apply (proj2 (X12_review_adds_missing_conversations (untouched 2)
                  [(py "image", JStr (py "a.png"))] eq_refl) 2%nat).
Defined.

(** ** The page *)

Lemma list_set_length {A} (l : list A) (i : nat) (x : A) :
  List.length (list_set l i x) = List.length l.
Proof.
  revert i. induction l as [|a l IH]; intros [|i]; cbn; auto.
Qed.

Lemma list_set_nth_same {A} (l : list A) (i : nat) (x : A) :
  (i < List.length l)%nat -> nth_error (list_set l i x) i = Some x.
Proof.
  revert i. induction l as [|a l IH]; intros [|i] H; cbn in *; try lia.
  - reflexivity.
  - apply IH. lia.
Qed.

Lemma list_set_nth_other {A} (l : list A) (i j : nat) (x : A) :
  i <> j -> nth_error (list_set l i x) j = nth_error l j.
Proof.
  revert i j. induction l as [|a l IH]; intros [|i] [|j] H; cbn;
    try reflexivity; try congruence.
  apply IH. congruence.
Qed.

(** ** The indented text of a record *)

Lemma skip_ws_spaces (n : nat) (s : str) :
  skip_ws (repeat 32 n ++ s) = skip_ws s.
Proof. induction n as [|n IH]; [reflexivity | exact IH]. Qed.

Lemma skip_ws_newline_indent (level : nat) (s : str) :
  skip_ws (newline_indent level ++ s) = skip_ws s.
Proof. unfold newline_indent. cbn [app]. apply (skip_ws_spaces _ s). Qed.

Lemma json_dumps_indent_head (level : nat) (v : json) :
  exists c tl, json_dumps_indent level v = c :: tl /\ value_start c = true.
Proof.
  destruct v as [ | | | |[|x items]|[|kv members]];
    try apply json_dumps_head; eexists; eexists; split; reflexivity.
Qed.

Lemma skip_ws_dumps_indent (level : nat) (v : json) (rest : str) :
  skip_ws (json_dumps_indent level v ++ rest)
  = json_dumps_indent level v ++ rest.
Proof.
  destruct (json_dumps_indent_head level v) as [c [tl [E H]]]. rewrite E.
  cbn [app]. apply skip_ws_stop, value_start_not_ws, H.
Qed.

Lemma follows_value_int (rest : str) :
  follows_value rest = true ->
  int_follows rest = true
  /\ match rest with [] => True | c :: _ => is_digit c = false end.
Proof.
  destruct rest as [|c rest]; [auto|]. unfold follows_value, int_follows,
    is_digit. rewrite orb_true_iff, !Z.eqb_eq. intros H. split.
  - apply negb_true_iff. rewrite !orb_false_iff, !Z.eqb_neq. lia.
  - apply andb_false_iff. rewrite !Z.leb_gt. lia.
Qed.

Lemma parse_digits_pos_follows (p : positive) (rest : str) :
  follows_value rest = true ->
  parse_digits (uint_chars (Pos.to_uint p) ++ rest) = Some (Z.pos p, rest).
Proof.
  intros Hrest. destruct (follows_value_int rest Hrest) as [Hf Hd'].
  destruct (pos_uint_chars_head p) as [c [cs [E [Hd H0]]]].
  pose proof (uint_chars_digits (Pos.to_uint p)) as Hall.
  pose proof (chars_uint_chars (Pos.to_uint p)) as Hback.
  rewrite E in Hall, Hback |- *. cbn [forallb] in Hall.
  apply andb_true_iff in Hall. destruct Hall as [_ Hcs].
  cbn [app]. unfold parse_digits. rewrite H0, Hd.
  rewrite (take_digits_app cs rest Hcs Hd'), Hf, Hback.
  unfold Z.of_uint. rewrite DecimalPos.Unsigned.of_to. reflexivity.
Qed.

Lemma parse_int_repr_follows (z : Z) (rest : str) :
  follows_value rest = true ->
  parse_int (int_repr z ++ rest) = Some (JInt z, rest).
Proof.
  intros Hrest. destruct z as [|p|p]; unfold int_repr; cbn [Z.to_int].
  - cbn. rewrite (proj1 (follows_value_int rest Hrest)). reflexivity.
  - destruct (pos_uint_chars_head p) as [c [cs [E [Hd H0]]]].
    pose proof (parse_digits_pos_follows p rest Hrest) as Hp.
    rewrite E in Hp |- *. cbn [app] in Hp |- *. unfold parse_int.
    assert (H45 : (c =? 45) = false).
    { unfold is_digit in Hd. apply andb_true_iff in Hd.
      apply Z.eqb_neq. lia. }
    rewrite H45, Hp. reflexivity.
  - cbn [app]. unfold parse_int. rewrite Z.eqb_refl.
    rewrite (parse_digits_pos_follows p rest Hrest). reflexivity.
Qed.

Lemma parses_int (z : Z) (rest : str) :
  follows_value rest = true ->
  parses_value (int_repr z ++ rest) (JInt z) rest.
Proof.
  intros Hrest. destruct (int_repr_head z) as [c [cs [E Hc]]].
  pose proof (parse_int_repr_follows z rest Hrest) as Hp.
  pose proof (parse_value_number 0 c (cs ++ rest) Hc) as Hv.
  rewrite E in Hp |- *. cbn [app] in Hp |- *.
  rewrite Hp in Hv. apply (proj1 (parse_sound 1)), Hv.
Qed.

Lemma parses_items_indented (level : nat) (items : list json) :
  forall (x : json),
    Forall decodes_indented (x :: items) ->
    forallb (json_chars valid_char) (x :: items) = true ->
    forallb json_unique_keys (x :: items) = true ->
    forall rest : str,
      parses_items
        (join (py "," ++ newline_indent (S level))
           (map (json_dumps_indent (S level)) (x :: items))
         ++ newline_indent level ++ 93 :: rest)
        (x :: items) rest.
Proof.
  induction items as [|y items IH]; intros x Hdec Hch Hku rest;
    inversion Hdec as [|? ? Hx Hrest]; subst;
    cbn [forallb] in Hch, Hku;
    apply andb_true_iff in Hch; destruct Hch as [Hcx Hch];
    apply andb_true_iff in Hku; destruct Hku as [Hkx Hku].
  - cbn [map join]. eapply pi_last.
    + apply (Hx Hcx Hkx (S level)). reflexivity.
    + rewrite skip_ws_newline_indent. reflexivity.
  - cbn [map]. rewrite join_cons2, <- !app_assoc.
    eapply pi_more.
    + apply (Hx Hcx Hkx (S level)). reflexivity.
    + reflexivity.
    + rewrite skip_ws_newline_indent.
      rewrite <- (map_cons (json_dumps_indent (S level)) y items).
      assert (Hskip : forall t,
        skip_ws (join (py "," ++ newline_indent (S level))
                   (map (json_dumps_indent (S level)) (y :: items)) ++ t)
        = join (py "," ++ newline_indent (S level))
            (map (json_dumps_indent (S level)) (y :: items)) ++ t).
      { intros t. cbn [map]. destruct items as [|z items'].
        - cbn [map join]. apply skip_ws_dumps_indent.
        - cbn [map]. rewrite join_cons2, <- app_assoc.
          apply skip_ws_dumps_indent. }
      rewrite Hskip. apply (IH y Hrest Hch Hku).
Qed.

Lemma member_text_indented_app (level : nat) (k : str) (x : json) (t : str) :
  member_text_indented level (k, x) ++ t
  = 34 :: flat_map escape_char k ++ 34 :: 58 :: 32
       :: json_dumps_indent level x ++ t.
Proof.
  unfold member_text_indented, encode_basestring. cbn [fst snd].
  change (py ": ") with [58; 32].
  rewrite <- !app_assoc. reflexivity.
Qed.

Lemma members_text_indented_head (level : nat) (sep : str)
  (kv : str * json) (members : list (str * json)) (t : str) :
  exists tl,
    join sep (map (member_text_indented level) (kv :: members)) ++ t
    = 34 :: tl.
Proof.
  destruct kv as [k x]. destruct members as [|m members].
  - cbn [map join]. rewrite member_text_indented_app. eexists; reflexivity.
  - cbn [map]. rewrite join_cons2, <- app_assoc, member_text_indented_app.
    eexists; reflexivity.
Qed.

Lemma parses_members_indented (level : nat) (members : list (str * json)) :
  forall (kv : str * json),
    Forall (fun m => decodes_indented (snd m)) (kv :: members) ->
    forallb (fun m => forallb valid_char (fst m)
                      && json_chars valid_char (snd m)) (kv :: members)
    = true ->
    forallb (fun m => json_unique_keys (snd m)) (kv :: members) = true ->
    forall rest : str,
      parses_members
        (join (py "," ++ newline_indent (S level))
           (map (member_text_indented (S level)) (kv :: members))
         ++ newline_indent level ++ 125 :: rest)
        (kv :: members) rest.
Proof.
  induction members as [|m members IH];
    intros [k x] Hdec Hch Hku rest;
    inversion Hdec as [|? ? Hx Hrest]; subst;
    cbn [forallb fst snd] in Hch, Hku, Hx;
    apply andb_true_iff in Hch; destruct Hch as [Hcx Hch];
    apply andb_true_iff in Hcx; destruct Hcx as [Hk Hcx];
    apply andb_true_iff in Hku; destruct Hku as [Hkx Hku].
  - cbn [map join]. rewrite member_text_indented_app.
    eapply pm_last.
    + apply (scanstring_body k _ Hk).
    + reflexivity.
    + change (skip_ws (32 :: ?t)) with (skip_ws t).
      rewrite skip_ws_dumps_indent.
      apply (Hx Hcx Hkx (S level)). reflexivity.
    + rewrite skip_ws_newline_indent. reflexivity.
  - cbn [map]. rewrite join_cons2, <- !app_assoc.
    rewrite member_text_indented_app.
    eapply pm_more.
    + apply (scanstring_body k _ Hk).
    + reflexivity.
    + change (skip_ws (32 :: ?t)) with (skip_ws t).
      rewrite skip_ws_dumps_indent.
      apply (Hx Hcx Hkx (S level)). reflexivity.
    + reflexivity.
    + rewrite skip_ws_newline_indent.
      rewrite <- (map_cons (member_text_indented (S level)) m members).
      destruct (members_text_indented_head (S level)
                  (py "," ++ newline_indent (S level)) m members
                  (newline_indent level ++ 125 :: rest)) as [tl Etl].
      rewrite Etl at 1. change (skip_ws (34 :: tl)) with (34 :: tl).
      rewrite <- Etl. apply (IH m Hrest Hch Hku).
Qed.

Lemma parses_value_indented (v : json) : decodes_indented v.
Proof.
  induction v as [ |b|z|s|items IH|members IH] using json_ind;
    intros Hch Hku level rest Hrest.
  - apply (proj1 (parse_sound 1)). reflexivity.
  - apply (proj1 (parse_sound 1)). destruct b; reflexivity.
  - apply parses_int, Hrest.
  - cbn [json_dumps_indent json_dumps json_chars] in *.
    unfold encode_basestring. rewrite <- !app_assoc. cbn [app].
    apply pv_string, scanstring_body, Hch.
  - destruct items as [|x items].
    + apply (proj1 (parse_sound 1)). reflexivity.
    + cbn [json_dumps_indent json_chars json_unique_keys] in *.
      change (py "[" ++ ?t) with (91 :: t). cbn [app].
      change (py "]") with [93]. rewrite <- !app_assoc. cbn [app].
      destruct (json_dumps_indent_head (S level) x) as [c [tl [E Hc]]].
      assert (Hhd : exists tl',
        join (py "," ++ newline_indent (S level))
          (map (json_dumps_indent (S level)) (x :: items))
        ++ newline_indent level ++ 93 :: rest = c :: tl').
      { cbn [map]. rewrite E. destruct items; cbn; eexists; reflexivity. }
      destruct Hhd as [tl' Etl].
      eapply pv_array.
      * rewrite skip_ws_newline_indent, Etl.
        apply skip_ws_stop, value_start_not_ws, Hc.
      * apply value_start_cases in Hc. apply Z.eqb_neq. lia.
      * rewrite <- Etl. apply parses_items_indented; assumption.
  - destruct members as [|kv members].
    + apply (proj1 (parse_sound 1)). reflexivity.
    + cbn [json_dumps_indent json_chars json_unique_keys] in *.
      apply andb_true_iff in Hku. destruct Hku as [Huniq Hku].
      change (py "{" ++ ?t) with (123 :: t). cbn [app].
      change (py "}") with [125]. rewrite <- !app_assoc. cbn [app].
      change (map (fun kv0 => encode_basestring (fst kv0) ++ py ": "
                     ++ json_dumps_indent (S level) (snd kv0))
                (kv :: members))
        with (map (member_text_indented (S level)) (kv :: members)).
      destruct (members_text_indented_head (S level)
                  (py "," ++ newline_indent (S level)) kv members
                  (newline_indent level ++ 125 :: rest)) as [tl Etl].
      rewrite <- (dict_of_pairs_unique _ Huniq) at 2.
      eapply pv_object.
      * rewrite skip_ws_newline_indent, Etl. reflexivity.
      * reflexivity.
      * rewrite <- Etl. apply parses_members_indented; assumption.
Qed.



(** ** The image column and the page *)

Lemma dict_get_set_cases {V} (k k' : str) (v : V) (d : pydict V) :
  dict_get k' (dict_set k v d)
  = if str_eqb k' k then Some v else dict_get k' d.
Proof.
  destruct (str_eqb k' k) eqn:E.
  - apply str_eqb_eq in E. subst k'. apply dict_get_set.
  - apply dict_get_set_other, E.
Qed.

Lemma dict_of_pairs_snoc {V} (pairs : list (str * V)) (kv : str * V) :
  dict_of_pairs (pairs ++ [kv])
  = dict_set (fst kv) (snd kv) (dict_of_pairs pairs).
Proof. unfold dict_of_pairs. rewrite fold_left_app. reflexivity. Qed.

Lemma image_dict_last (uploaded_images : list UploadedFile.t) (f : str) :
  dict_get f (image_dict uploaded_images)
  = find (fun img => str_eqb f (UploadedFile.name img))
      (rev uploaded_images).
Proof.
  unfold image_dict.
  induction uploaded_images as [|img l IH] using rev_ind; [reflexivity|].
  rewrite map_app, rev_app_distr. cbn [map rev app find].
  rewrite dict_of_pairs_snoc, dict_get_set_cases. cbn [fst snd].
  destruct (str_eqb f (UploadedFile.name img)); [reflexivity | exact IH].
Qed.

Lemma image_column_raises {Image : Type}
  (Image_open : UploadedFile.t -> str + Image)
  (d : pydict UploadedFile.t) (item : json) :
  image_column Image_open d item = None <-> image_hashable item = false.
Proof.
  unfold image_column, image_hashable, dict_get_default, load_image.
  destruct item as [ | | | | |members]; try (split; reflexivity).
  destruct (dict_get (py "image") members) as [[ |b|z|f|l|m]|];
    try (split; intros; reflexivity || discriminate).
  - destruct (dict_get f d) as [u|]; [|split; discriminate].
    destruct (Image_open u); split; discriminate.
  - destruct (dict_get [] d) as [u|]; [|split; discriminate].
    destruct (Image_open u); split; discriminate.
Qed.

Lemma main_with_images_inv {Image : Type}
  (Image_open : UploadedFile.t -> str + Image)
  (jf : option bytes) (ups : list UploadedFile.t) (idx : nat)
  (ui : Reviewer) (log : list StEvent) (data' : list json)
  (json_str all_json_str : str) (shown : list (ImageEvent Image)) :
  main_with_images Image_open jf ups idx ui
  = (Reviewing log data' json_str all_json_str, shown) ->
  exists (file : bytes) (data : list json) (item item' : json),
    jf = Some file
    /\ ups <> []
    /\ load_jsonl_data file = (Some data, [])
    /\ log = [st_sidebar_success (List.length data)]
    /\ nth_error data idx = Some item
    /\ image_column Image_open (image_dict ups) item = Some shown
    /\ review_item ui item = Some item'
    /\ data' = list_set data idx item'
    /\ json_str = serializeOne item'
    /\ all_json_str = serializeAll data'.
Proof.
  intros H. unfold main_with_images in H.
  destruct jf as [file|]; [|discriminate].
  destruct ups as [|image images] eqn:Ei; [discriminate|].
  destruct (load_jsonl_data file) as [[data|] lg] eqn:El;
    [|discriminate].
  assert (Hlg : lg = []).
  { unfold load_jsonl_data in El.
    destruct (load_loop (readlines file) []); [discriminate|].
    injection El as _ <-. reflexivity. }
  subst lg.
  destruct (negb (data_truthy (Some data))); [discriminate|].
  destruct (nth_error data idx) as [item|] eqn:En; [|discriminate].
  destruct (image_column Image_open (image_dict (image :: images)) item)
    as [sh|] eqn:Ec; [|discriminate].
  destruct (review_item ui item) as [item'|] eqn:Er; [|discriminate].
  injection H as <- <- <- <- <-.
  exists file, data, item, item'.
  repeat split; try assumption; try reflexivity. discriminate.
Qed.

(** *** The text of the edited record *)

Lemma dict_get_forallb {V} (Q : str * V -> bool) (k : str) (v : V)
  (d : pydict V) :
  forallb Q d = true -> dict_get k d = Some v ->
  exists k', str_eqb k k' = true /\ Q (k', v) = true.
Proof.
  induction d as [|[k0 v0] d IH]; cbn [dict_get forallb]; [discriminate|].
  intros H. apply andb_true_iff in H. destruct H as [H0 H].
  destruct (str_eqb k k0) eqn:E.
  - intros [= <-]. exists k0. auto.
  - apply IH, H.
Qed.

Lemma json_chars_get (P : char -> bool) (k : str) (v : json)
  (members : pydict json) :
  json_chars P (JObj members) = true -> dict_get k members = Some v ->
  json_chars P v = true.
Proof.
  cbn [json_chars]. intros H Hg.
  destruct (dict_get_forallb _ k v members H Hg) as [k' [_ Hq]].
  cbn [fst snd] in Hq. apply andb_true_iff in Hq. apply Hq.
Qed.

Lemma turns_of_json_chars (P : char -> bool) (convs : list json) :
  forall turns : list (Turn str),
    forallb (json_chars P) convs = true ->
    turns_of_json convs = Some turns ->
    Forall (fun t => forallb P (value t) = true) turns.
Proof.
  induction convs as [|c convs IH]; intros turns H Ht; cbn in Ht.
  - injection Ht as <-. constructor.
  - cbn [forallb] in H. apply andb_true_iff in H. destruct H as [Hc H].
    destruct (turn_of_json c) as [t|] eqn:Et; [|discriminate].
    destruct (turns_of_json convs) as [ts|]; [|discriminate].
    injection Ht as <-. constructor; [|apply IH; auto].
    unfold turn_of_json in Et. destruct c as [ | | | | |m]; try discriminate.
    destruct (dict_get (py "from") m) as [[ | | |f| | ]|]; try discriminate.
    destruct (dict_get (py "value") m) as [[ | | |v| | ]|] eqn:Ev;
      try discriminate.
    injection Et as <-. cbn [value].
    apply (json_chars_get P _ _ _ Hc Ev).
Qed.

Lemma get_conversations_chars (P : char -> bool) (item : json)
  (convs : list (Turn str)) :
  json_chars P item = true ->
  get_conversations item = Some convs ->
  Forall (fun t => forallb P (value t) = true) convs.
Proof.
  intros H Hg. unfold get_conversations in Hg.
  destruct item as [ | | | | |members]; try discriminate.
  destruct (dict_get (py "conversations") members) as [v|] eqn:E.
  - destruct v as [ | | | |l| ]; try discriminate.
    apply (turns_of_json_chars P l convs); [|exact Hg].
    apply (json_chars_get P _ _ _ H E).
  - injection Hg as <-. constructor.
Qed.

Lemma spec_scan_values {V} (Q : V -> Prop) (turns : list (Turn V)) :
  forall acc : Accumulator V,
    match acc with Empty => True | HasQuestion q => Q q end ->
    Forall (fun t => Q (value t)) turns ->
    Forall (pair_values Q) (spec_scan acc turns).
Proof.
  induction turns as [|t rest IH]; intros acc Hacc Hall; cbn [spec_scan].
  - destruct acc; repeat constructor; assumption.
  - inversion Hall as [|? ? Ht Hrest]; subst.
    destruct (str_eqb (from t) (py "human")).
    + apply Forall_app. split.
      * destruct acc; repeat constructor; assumption.
      * apply IH; assumption.
    + destruct (str_eqb (from t) (py "gpt")).
      * destruct acc as [|q].
        -- apply IH; [exact I | assumption].
        -- constructor; [split; assumption|].
           apply IH; [exact I | assumption].
      * apply IH; assumption.
Qed.

Lemma display_conversations_text (ui : Reviewer) (turns : list (Turn str)) :
  types_text ui ->
  Forall (fun t => forallb scalar_char (value t) = true) turns ->
  forallb (json_chars scalar_char)
    (map json_of_turn (display_conversations ui turns)) = true.
Proof.
  intros Hui Hall. unfold display_conversations.
  rewrite map_app, forallb_app. apply andb_true_iff. split.
  - rewrite reconstruct_pairs_spec. unfold spec_reconstruct.
    pose proof (spec_scan_values (fun v => forallb scalar_char v = true)
                  turns Empty I Hall) as Hp.
    generalize 1%nat. induction Hp as [|p ps [Hq Ha] _ IH]; intros n.
    + reflexivity.
    + cbn [map]. rewrite enumerate_cons. cbn [flat_map edit_pair map app].
      cbn [forallb]. rewrite IH, andb_true_r.
      assert (Hqv : forallb scalar_char
                (dict_get_default (py "question") [] (dict_of_pair p))
              = true).
      { unfold dict_of_pair. destruct (answer p); exact Hq. }
      assert (Hav : forallb scalar_char
                (dict_get_default (py "answer") [] (dict_of_pair p))
              = true).
      { unfold dict_of_pair. destruct (answer p); [exact Ha | reflexivity]. }
      unfold json_of_turn, human, gpt. cbn [json_chars forallb fst snd from value].
      rewrite (Hui _ _ Hqv), (Hui _ _ Hav). reflexivity.
  - induction (seq 0 (number_input ui)) as [|i l IH]; [reflexivity|].
    cbn [flat_map]. rewrite map_app, forallb_app, IH, andb_true_r.
    unfold new_pair.
    destruct (str_truthy (text_input ui (fkey "new_q" i) [])
              || str_truthy (text_input ui (fkey "new_a" i) []));
      [|reflexivity].
    unfold json_of_turn, human, gpt.
    cbn [map json_chars forallb fst snd from value].
    rewrite (Hui (fkey "new_q" i) [] eq_refl),
      (Hui (fkey "new_a" i) [] eq_refl). reflexivity.
Qed.

Lemma json_of_turns_unique_keys (turns : list (Turn str)) :
  forallb json_unique_keys (map json_of_turn turns) = true.
Proof. induction turns as [|t l IH]; [reflexivity | exact IH]. Qed.

Lemma json_chars_scalar (v : json) :
  json_chars scalar_char v = true
  <-> json_chars valid_char v = true /\ encodable_json v = true.
Proof.
  unfold encodable_json.
  assert (Hs : forall s, forallb scalar_char s = true
            <-> forallb valid_char s = true
                /\ forallb (fun c => negb (is_surrogate c)) s = true).
  { intros s. induction s as [|c s IH]; cbn [forallb]; [tauto|].
    unfold scalar_char at 1. rewrite !andb_true_iff, IH. tauto. }
  induction v as [ |b|z|s|items IH|members IH] using json_ind;
    cbn [json_chars]; try tauto.
  - apply Hs.
  - induction IH as [|x l Hx _ IHl]; cbn [forallb]; [tauto|].
    rewrite !andb_true_iff, Hx, IHl. tauto.
  - induction IH as [|[k x] l Hx _ IHl]; cbn [forallb]; [tauto|].
    cbn [fst snd] in *. rewrite !andb_true_iff, Hx, IHl, Hs. tauto.
Qed.

Lemma review_item_text (ui : Reviewer) (item item' : json) :
  types_text ui ->
  json_chars scalar_char item = true ->
  json_unique_keys item = true ->
  review_item ui item = Some item' ->
  json_chars scalar_char item' = true /\ json_unique_keys item' = true.
Proof.
  intros Hui Hch Hku Hr.
  destruct (review_item_inv ui _ _ Hr) as [members [convs [-> [Hg ->]]]].
  pose proof (get_conversations_chars scalar_char _ _ Hch Hg) as Hconvs.
  cbn [json_chars json_unique_keys] in *.
  apply andb_true_iff in Hku. destruct Hku as [Hu Hku]. split.
  - apply dict_set_forallb; [|exact Hch]. cbn [fst snd json_chars].
    rewrite (display_conversations_text ui convs Hui Hconvs). reflexivity.
  - apply andb_true_iff. split; [apply unique_keys_set, Hu|].
    apply dict_set_forallb; [|exact Hku]. cbn [snd json_unique_keys].
    apply json_of_turns_unique_keys.
Qed.

Lemma forallb_nth_error {A} (Q : A -> bool) (l : list A) (i : nat) (x : A) :
  forallb Q l = true -> nth_error l i = Some x -> Q x = true.
Proof.
  intros H Hn. apply nth_error_In in Hn.
  rewrite forallb_forall in H. apply H, Hn.
Qed.

Lemma forallb_list_set {A} (Q : A -> bool) (l : list A) (i : nat) (x : A) :
  forallb Q l = true -> Q x = true -> forallb Q (list_set l i x) = true.
Proof.
  revert i. induction l as [|a l IH]; intros [|i] H Hx;
    cbn [list_set forallb] in *; try reflexivity;
    apply andb_true_iff in H; destruct H as [Ha H];
    apply andb_true_iff; split; auto.
Qed.

(** X13.  For a record whose image field is text (the empty text when the
    field is missing) the image column opens the last uploaded file with
    exactly that name and shows it under that name, or the error of
    opening it; when no upload has the name it shows a warning.  The
    caption follows in every case. *)
Theorem X13_image_column_shows_last_upload_of_that_name :
  forall (Image : Type) (Image_open : UploadedFile.t -> str + Image)
         (uploaded_images : list UploadedFile.t) (members : pydict json)
         (f : str),
    dict_get_default (py "image") (JStr []) members = JStr f ->
    image_column Image_open (image_dict uploaded_images) (JObj members)
    = Some
        (match find (fun img => str_eqb f (UploadedFile.name img))
                 (rev uploaded_images) with
         | Some img =>
             match Image_open img with
             | inr opened => [st_image opened f]
             | inl e => [st_error_loading_image e]
             end
         | None => [st_warning_no_image (JStr f)]
         end
         ++ [st_caption (dict_get_default (py "caption")
                           (JStr (py "No caption available")) members)]).
Proof.
  intros Image Image_open ups members f Hf.
  unfold image_column. rewrite Hf, image_dict_last.
  destruct (find _ (rev ups)) as [img|]; [|reflexivity].
  unfold load_image. destruct (Image_open img); reflexivity.
Qed.

Lemma X13_image_column_shows_last_upload_of_that_name_witness :
  dict_get_default (py "image") (JStr [])
    [(py "image", JStr (py "a.png"))] = JStr (py "a.png")
  /\ image_column
       (fun img => if str_truthy (UploadedFile.getvalue img)
                   then inr (UploadedFile.getvalue img)
                   else inl (py "cannot identify image file"))
       (image_dict [UploadedFile.mk (py "a.png") [1];
                    UploadedFile.mk (py "b.png") [2];
                    UploadedFile.mk (py "a.png") [3]])
       (JObj [(py "image", JStr (py "a.png"))])
     = Some [st_image [3] (py "a.png");
             st_caption (JStr (py "No caption available"))].
Proof.
  split; [reflexivity|].
  apply (X13_image_column_shows_last_upload_of_that_name (list Z)
           (fun img => if str_truthy (UploadedFile.getvalue img)
                       then inr (UploadedFile.getvalue img)
                       else inl (py "cannot identify image file"))
           [UploadedFile.mk (py "a.png") [1];
            UploadedFile.mk (py "b.png") [2];
            UploadedFile.mk (py "a.png") [3]]
           [(py "image", JStr (py "a.png"))] (py "a.png")).
  reflexivity.
Defined.

(** X14.  The image column raises exactly on a record that is no object
    or whose image field is a list or an object.  Otherwise it shows one
    of an image, an opening error and a warning, then the caption: an
    image or an error comes from an upload named as the record says, a
    warning means that no upload has that name. *)
Theorem X14_image_column_shows_one_outcome :
  forall (Image : Type) (Image_open : UploadedFile.t -> str + Image)
         (uploaded_images : list UploadedFile.t) (current_item : json),
    match image_column Image_open (image_dict uploaded_images)
            current_item with
    | None => image_hashable current_item = false
    | Some shown =>
        image_hashable current_item = true
        /\ exists (outcome : ImageEvent Image) (members : pydict json),
             current_item = JObj members
             /\ shown
                = [outcome;
                   st_caption (dict_get_default (py "caption")
                                 (JStr (py "No caption available"))
                                 members)]
             /\ match outcome with
                | st_image opened f =>
                    dict_get_default (py "image") (JStr []) members = JStr f
                    /\ exists img : UploadedFile.t,
                         In img uploaded_images
                         /\ UploadedFile.name img = f
                         /\ Image_open img = inr opened
                | st_error_loading_image e =>
                    exists img : UploadedFile.t,
                      In img uploaded_images
                      /\ dict_get_default (py "image") (JStr []) members
                         = JStr (UploadedFile.name img)
                      /\ Image_open img = inl e
                | st_warning_no_image image_filename =>
                    dict_get_default (py "image") (JStr []) members
                    = image_filename
                    /\ forall img : UploadedFile.t,
                         In img uploaded_images ->
                         image_filename <> JStr (UploadedFile.name img)
                | st_caption _ => False
                end
    end.
Proof.
  intros Image Image_open ups item.
  destruct (image_column Image_open (image_dict ups) item) as [shown|] eqn:E.
  2:{ apply (image_column_raises Image_open (image_dict ups) item), E. }
  split.
  { destruct (image_hashable item) eqn:Eh; [reflexivity|].
    apply (image_column_raises Image_open (image_dict ups)) in Eh.
    congruence. }
  destruct item as [ | | | | |members]; try discriminate.
  unfold image_column in E.
  assert (Hwarn : forall v : json,
            (forall f, v = JStr f -> dict_get f (image_dict ups) = None) ->
            forall img, In img ups -> v <> JStr (UploadedFile.name img)).
  { intros v Hv img Hin Heq. specialize (Hv _ Heq).
    rewrite image_dict_last in Hv.
    apply in_rev in Hin. pose proof (find_none _ _ Hv img Hin) as Hne.
    cbn beta in Hne. rewrite str_eqb_refl in Hne. discriminate. }
  destruct (dict_get_default (py "image") (JStr []) members)
    as [ |b|z|f|l|m] eqn:Ef; try discriminate.
  - injection E as <-. eexists; eexists; split; [reflexivity|].
    split; [reflexivity|]. split; [exact Ef|].
    apply Hwarn. discriminate.
  - injection E as <-. eexists; eexists; split; [reflexivity|].
    split; [reflexivity|]. split; [exact Ef|].
    apply Hwarn. discriminate.
  - injection E as <-. eexists; eexists; split; [reflexivity|].
    split; [reflexivity|]. split; [exact Ef|].
    apply Hwarn. discriminate.
  - destruct (dict_get f (image_dict ups)) as [img|] eqn:Eg.
    + rewrite image_dict_last in Eg. apply find_some in Eg.
      destruct Eg as [Hin Hname]. apply in_rev in Hin.
      apply str_eqb_eq in Hname. unfold load_image in E.
      destruct (Image_open img) as [e|opened] eqn:Eo; injection E as <-.
      * eexists; eexists; split; [reflexivity|]. split; [reflexivity|].
        exists img. subst f. auto.
      * eexists; eexists; split; [reflexivity|]. split; [reflexivity|].
        split; [exact Ef|]. exists img. auto.
    + injection E as <-. eexists; eexists; split; [reflexivity|].
      split; [reflexivity|]. split; [exact Ef|].
      apply Hwarn. intros f' [= <-]. exact Eg.
Qed.








